(** * mediasoup worker: the media routing core, embedded in Rocq

    A shallow embedding of the routing core of the mediasoup worker:

    - [RTC::Consumer] (worker/src/RTC/Consumer.cpp): header rewriting in
      [SendRtpPacket], pause/resume, simulcast profile selection;
    - [RTC::Codecs::VP8] (payload descriptor [Parse], [Encode], [Restore]
      and the temporal-layer filter [PayloadDescriptorHandler::Process]);
    - [RTC::RtpSender] and [RTC::Room] (the receiver-to-senders fan-out map
      and the control-plane [HandleRequest] dispatchers).

    Conventions.  A [uintN_t] is a [Z] whose wrap-around is written out with
    [wrap8], [wrap16], [wrap32] at the places where C++ converts.  A
    [std::set<T>] is a [gset T]; ordered traversal is spelled out where the
    code depends on it.  Code whose behaviour is undefined in C++ (an end
    iterator dereferenced, a null pointer dereferenced, a write outside the
    buffer) or that aborts the worker returns [Fault].  Collaborators whose
    sources are not part of the tree ([RtpStreamSend], [SeqManager],
    [Peer]) are interfaces (type classes); the functions of the tree are
    written against them. *)

From Stdlib Require Import ZArith Lia Sorted.
From stdpp Require Import strings pretty sorting base decidable countable gmap sets
  option list.

#[global] Set Warnings "-register-all,-clear-no-such-hyp".
Open Scope Z_scope.

(** ** Faults and the outcome monad *)

Inductive fault :=
| InvalidIterator     (* an end()/rend() iterator is dereferenced *)
| NullPointer         (* a null pointer is dereferenced *)
| OutOfBounds         (* a read or write outside the given buffer *)
| UseAfterFree        (* a method is called on a deleted object *)
| AssertionFailed.    (* MS_ASSERT / MS_ABORT: the worker aborts *)

Inductive outcome (A : Type) :=
| Ok (a : A)
| Fault (f : fault).

Arguments Ok {A} a.
Arguments Fault {A} f.

#[global] Instance outcome_ret : MRet outcome := λ A a, Ok a.
#[global] Instance outcome_bind : MBind outcome := λ A B k m,
  match m with Ok a => k a | Fault f => Fault f end.

Definition deref {A} (f : fault) (o : option A) : outcome A :=
  match o with Some a => Ok a | None => Fault f end.

Definition is_Ok {A} (m : outcome A) : Prop :=
  match m with Ok _ => True | Fault _ => False end.

(** ** Fixed-width integers *)

Definition wrap8 (z : Z) : Z := z mod 2 ^ 8.
Definition wrap16 (z : Z) : Z := z mod 2 ^ 16.
Definition wrap32 (z : Z) : Z := z mod 2 ^ 32.

(** Serial-number comparison modulo [2^w]: [b] is newer than [a] when the
    wrapped difference [b - a] lies strictly inside the lower half, and not
    older when it lies in the lower half. *)
Definition newer (w : Z) (a b : Z) : Prop :=
  0 < (b - a) mod 2 ^ w < 2 ^ (w - 1).
Definition not_older (w : Z) (a b : Z) : Prop :=
  (b - a) mod 2 ^ w < 2 ^ (w - 1).

#[global] Instance newer_dec w a b : Decision (newer w a b).
Proof. unfold newer. apply _. Defined.
#[global] Instance not_older_dec w a b : Decision (not_older w a b).
Proof. unfold not_older. apply _. Defined.

(** ** JSON values, requests, responses and observable effects *)

Inductive Json :=
| JNull
| JBool (b : bool)
| JNum (n : Z)
| JStr (s : string)
| JArr (l : list Json)
| JObj (l : list (string * Json)).

(** Modelled from the spec: the declaration of [Channel::Request::MethodId]
    is not part of the tree.  The enumerators are the ones the sources
    name in their [case] labels; [other_method] stands for every
    enumerator the tree never names. *)
Inductive MethodId :=
| CONSUMER_DUMP
| updateSettings | createRoom | closeRoom | createPeer | closePeer
| room_close | room_dump | room_createPeer
| peer_close | peer_dump | peer_setCapabilities | peer_createTransport
| peer_createRtpReceiver
| transport_close | transport_dump | transport_setRemoteDtlsParameters
| rtpReceiver_close | rtpReceiver_dump | rtpReceiver_receive
| rtpReceiver_setRtpRawEvent | rtpReceiver_setRtpObjectEvent
| rtpSender_dump | rtpSender_setTransport
| other_method (n : nat).

#[global] Instance MethodId_eq_dec : EqDecision MethodId.
Proof. solve_decision. Defined.

Record Request := {
  methodId : MethodId;
  internal : list (string * Json);
  data : list (string * Json);
}.

(** [json[key]] on an object: [JNull] when the key is missing. *)
Fixpoint json_get (key : string) (obj : list (string * Json)) : Json :=
  match obj with
  | [] => JNull
  | (k, v) :: rest => if decide (k = key) then v else json_get key rest
  end.

(** [request->Accept()], [request->Accept(json)] and
    [request->Reject(reason)]. *)
Inductive Response :=
| Accept (data : option Json)
| Reject (reason : string).

(** ** RTP packets *)

(** Modelled from the spec: [RTC::RtpPacket] is declared outside the tree;
    the record holds the header fields its getters and setters read and
    write, and the payload bytes. *)
Record RtpPacket := {
  GetSsrc : Z;
  GetSequenceNumber : Z;
  GetTimestamp : Z;
  GetPayloadType : Z;
  GetPayload : list Z;
}.

Definition SetSsrc (v : Z) (p : RtpPacket) : RtpPacket :=
  {| GetSsrc := v; GetSequenceNumber := GetSequenceNumber p;
     GetTimestamp := GetTimestamp p; GetPayloadType := GetPayloadType p;
     GetPayload := GetPayload p |}.
Definition SetSequenceNumber (v : Z) (p : RtpPacket) : RtpPacket :=
  {| GetSsrc := GetSsrc p; GetSequenceNumber := v;
     GetTimestamp := GetTimestamp p; GetPayloadType := GetPayloadType p;
     GetPayload := GetPayload p |}.
Definition SetTimestamp (v : Z) (p : RtpPacket) : RtpPacket :=
  {| GetSsrc := GetSsrc p; GetSequenceNumber := GetSequenceNumber p;
     GetTimestamp := v; GetPayloadType := GetPayloadType p;
     GetPayload := GetPayload p |}.

(** What a component does to the outside world: a notification on the
    channel, a packet handed to the transport, a full-frame request sent
    to a listener, the worker loop told that a room is closed. *)
Inductive Effect :=
| Emit (targetId : Z) (event : string) (eventData : list (string * Json))
| TransportSend (packet : RtpPacket)
| FullFrameRequired (listener : Z) (consumerId : Z)
| OnRoomClosed (roomId : Z).

Definition sent (effs : list Effect) : list RtpPacket :=
  omap (λ e, match e with TransportSend p => Some p | _ => None end) effs.

(** Modelled from the spec: [RTC::RtpDataCounter] (the transmitted and
    retransmitted data counters) is declared outside the tree.  [Update]
    counts the packet; the byte counter of the class is left out, since
    neither the tree nor the spec says which bytes of a packet it counts. *)
Record RtpDataCounter := {
  packets : Z;
}.

Definition Update (p : RtpPacket) (k : RtpDataCounter) : RtpDataCounter :=
  {| packets := packets k + 1 |}.

(** ** RTP parameters and media kinds *)

Inductive MediaKind := AUDIO | VIDEO | DEPTH.

#[global] Instance MediaKind_eq_dec : EqDecision MediaKind.
Proof. solve_decision. Defined.

(** Modelled from the spec: [RTC::Media::GetJsonString]. *)
Definition GetJsonString (k : MediaKind) : Json :=
  JStr match k with AUDIO => "audio" | VIDEO => "video" | DEPTH => "depth" end.

Record RtpCodecParameters := {
  payloadType : Z;
  clockRate : Z;
}.

Record RtpEncodingParameters := {
  ssrc : Z;
  codecPayloadType : Z;
}.

Record RtpParameters := {
  codecs : list RtpCodecParameters;
  encodings : list RtpEncodingParameters;
  cname : string;
}.

(** The collaborators whose sources are not part of the tree, as the code
    of the tree calls them: [RtpStreamSend] (a stream state [S] with
    [ReceivePacket] and [ClearRetransmissionBuffer]) and the JSON
    serialisers of the stream and of the RTP parameters. *)
Class Collaborators (S : Type) := {
  ReceivePacket : RtpPacket → S → bool * S;
  ClearRetransmissionBuffer : S → S;
  StreamToJson : S → Json;
  ParametersToJson : RtpParameters → Json;
}.

(** ** Simulcast profiles *)

(** Modelled from the spec: [RtpEncodingParameters::Profile] is declared
    outside the tree; the spec gives the enumerators and their order,
    NONE < DEFAULT < LOW < MEDIUM < HIGH. *)
Inductive Profile := NONE | DEFAULT | LOW | MEDIUM | HIGH.

Definition profile_rank (p : Profile) : nat :=
  match p with NONE => 0 | DEFAULT => 1 | LOW => 2 | MEDIUM => 3 | HIGH => 4 end%nat.

Definition profile_of_rank (n : nat) : Profile :=
  match n with 0 => NONE | 1 => DEFAULT | 2 => LOW | 3 => MEDIUM | _ => HIGH end%nat.

#[global] Instance Profile_eq_dec : EqDecision Profile.
Proof. solve_decision. Defined.

#[global] Instance Profile_countable : Countable Profile.
Proof. apply (inj_countable' profile_rank profile_of_rank). by intros []. Defined.

Definition profile_le (p q : Profile) : Prop := (profile_rank p <= profile_rank q)%nat.

#[global] Instance profile_le_dec p q : Decision (profile_le p q).
Proof. unfold profile_le. apply _. Defined.

(** Modelled from the spec: [RtpEncodingParameters::profile2String]. *)
Definition profile2String (p : Profile) : string :=
  match p with
  | NONE => "none" | DEFAULT => "default" | LOW => "low"
  | MEDIUM => "medium" | HIGH => "high"
  end.

(** [std::set<Profile>]: the in-order traversal, and the three iterator
    operations the code uses.  [None] is the end iterator. *)
Definition all_profiles : list Profile := [NONE; DEFAULT; LOW; MEDIUM; HIGH].

Definition in_order (s : gset Profile) : list Profile :=
  filter (λ p, p ∈ s) all_profiles.

Definition set_begin (s : gset Profile) : option Profile := head (in_order s).

Definition set_crbegin (s : gset Profile) : option Profile := last (in_order s).

(** [lower_bound(k)]: the first element that is not less than [k]. *)
Definition set_lower_bound (k : Profile) (s : gset Profile) : option Profile :=
  head (filter (λ p, profile_le k p) (in_order s)).

(** ** RTC::Consumer *)

Module Consumer.

Record Consumer (S : Type) := {
  consumerId : Z;
  kind : MediaKind;
  sourceProducerId : Z;
  listeners : list Z;
  transport : option Z;
  rtpParameters : RtpParameters;
  rtpStream : option S;
  supportedCodecPayloadTypes : gset Z;
  paused : bool;
  sourcePaused : bool;
  preferredProfile : Profile;
  effectiveProfile : Profile;
  profiles : gset Profile;
  syncRequired : bool;
  seqNum : Z;
  rtpTimestamp : Z;
  lastRecvSeqNum : Z;
  lastRecvRtpTimestamp : Z;
  transmittedCounter : RtpDataCounter;
  retransmittedCounter : RtpDataCounter;
  lastRtcpSentTime : Z;
  maxRtcpInterval : Z;
}.

Arguments consumerId {S} _.
Arguments kind {S} _.
Arguments sourceProducerId {S} _.
Arguments listeners {S} _.
Arguments transport {S} _.
Arguments rtpParameters {S} _.
Arguments rtpStream {S} _.
Arguments supportedCodecPayloadTypes {S} _.
Arguments paused {S} _.
Arguments sourcePaused {S} _.
Arguments preferredProfile {S} _.
Arguments effectiveProfile {S} _.
Arguments profiles {S} _.
Arguments syncRequired {S} _.
Arguments seqNum {S} _.
Arguments rtpTimestamp {S} _.
Arguments lastRecvSeqNum {S} _.
Arguments lastRecvRtpTimestamp {S} _.
Arguments transmittedCounter {S} _.
Arguments retransmittedCounter {S} _.
Arguments lastRtcpSentTime {S} _.
Arguments maxRtcpInterval {S} _.

Definition set_transport {S} (v : option Z) (c : Consumer S) : Consumer S :=
  {| consumerId := consumerId c; kind := kind c; sourceProducerId :=
     sourceProducerId c; listeners := listeners c; transport := v;
     rtpParameters := rtpParameters c; rtpStream := rtpStream c;
     supportedCodecPayloadTypes := supportedCodecPayloadTypes c; paused :=
     paused c; sourcePaused := sourcePaused c; preferredProfile :=
     preferredProfile c; effectiveProfile := effectiveProfile c; profiles :=
     profiles c; syncRequired := syncRequired c; seqNum := seqNum c;
     rtpTimestamp := rtpTimestamp c; lastRecvSeqNum := lastRecvSeqNum c;
     lastRecvRtpTimestamp := lastRecvRtpTimestamp c; transmittedCounter :=
     transmittedCounter c; retransmittedCounter := retransmittedCounter c;
     lastRtcpSentTime := lastRtcpSentTime c; maxRtcpInterval := maxRtcpInterval
     c |}.
Definition set_rtpStream {S} (v : option S) (c : Consumer S) : Consumer S :=
  {| consumerId := consumerId c; kind := kind c; sourceProducerId :=
     sourceProducerId c; listeners := listeners c; transport := transport c;
     rtpParameters := rtpParameters c; rtpStream := v;
     supportedCodecPayloadTypes := supportedCodecPayloadTypes c; paused :=
     paused c; sourcePaused := sourcePaused c; preferredProfile :=
     preferredProfile c; effectiveProfile := effectiveProfile c; profiles :=
     profiles c; syncRequired := syncRequired c; seqNum := seqNum c;
     rtpTimestamp := rtpTimestamp c; lastRecvSeqNum := lastRecvSeqNum c;
     lastRecvRtpTimestamp := lastRecvRtpTimestamp c; transmittedCounter :=
     transmittedCounter c; retransmittedCounter := retransmittedCounter c;
     lastRtcpSentTime := lastRtcpSentTime c; maxRtcpInterval := maxRtcpInterval
     c |}.
Definition set_supportedCodecPayloadTypes {S} (v : gset Z) (c : Consumer S) : Consumer S :=
  {| consumerId := consumerId c; kind := kind c; sourceProducerId :=
     sourceProducerId c; listeners := listeners c; transport := transport c;
     rtpParameters := rtpParameters c; rtpStream := rtpStream c;
     supportedCodecPayloadTypes := v; paused := paused c; sourcePaused :=
     sourcePaused c; preferredProfile := preferredProfile c; effectiveProfile
     := effectiveProfile c; profiles := profiles c; syncRequired :=
     syncRequired c; seqNum := seqNum c; rtpTimestamp := rtpTimestamp c;
     lastRecvSeqNum := lastRecvSeqNum c; lastRecvRtpTimestamp :=
     lastRecvRtpTimestamp c; transmittedCounter := transmittedCounter c;
     retransmittedCounter := retransmittedCounter c; lastRtcpSentTime :=
     lastRtcpSentTime c; maxRtcpInterval := maxRtcpInterval c |}.
Definition set_paused {S} (v : bool) (c : Consumer S) : Consumer S :=
  {| consumerId := consumerId c; kind := kind c; sourceProducerId :=
     sourceProducerId c; listeners := listeners c; transport := transport c;
     rtpParameters := rtpParameters c; rtpStream := rtpStream c;
     supportedCodecPayloadTypes := supportedCodecPayloadTypes c; paused := v;
     sourcePaused := sourcePaused c; preferredProfile := preferredProfile c;
     effectiveProfile := effectiveProfile c; profiles := profiles c;
     syncRequired := syncRequired c; seqNum := seqNum c; rtpTimestamp :=
     rtpTimestamp c; lastRecvSeqNum := lastRecvSeqNum c; lastRecvRtpTimestamp
     := lastRecvRtpTimestamp c; transmittedCounter := transmittedCounter c;
     retransmittedCounter := retransmittedCounter c; lastRtcpSentTime :=
     lastRtcpSentTime c; maxRtcpInterval := maxRtcpInterval c |}.
Definition set_sourcePaused {S} (v : bool) (c : Consumer S) : Consumer S :=
  {| consumerId := consumerId c; kind := kind c; sourceProducerId :=
     sourceProducerId c; listeners := listeners c; transport := transport c;
     rtpParameters := rtpParameters c; rtpStream := rtpStream c;
     supportedCodecPayloadTypes := supportedCodecPayloadTypes c; paused :=
     paused c; sourcePaused := v; preferredProfile := preferredProfile c;
     effectiveProfile := effectiveProfile c; profiles := profiles c;
     syncRequired := syncRequired c; seqNum := seqNum c; rtpTimestamp :=
     rtpTimestamp c; lastRecvSeqNum := lastRecvSeqNum c; lastRecvRtpTimestamp
     := lastRecvRtpTimestamp c; transmittedCounter := transmittedCounter c;
     retransmittedCounter := retransmittedCounter c; lastRtcpSentTime :=
     lastRtcpSentTime c; maxRtcpInterval := maxRtcpInterval c |}.
Definition set_preferredProfile {S} (v : Profile) (c : Consumer S) : Consumer S :=
  {| consumerId := consumerId c; kind := kind c; sourceProducerId :=
     sourceProducerId c; listeners := listeners c; transport := transport c;
     rtpParameters := rtpParameters c; rtpStream := rtpStream c;
     supportedCodecPayloadTypes := supportedCodecPayloadTypes c; paused :=
     paused c; sourcePaused := sourcePaused c; preferredProfile := v;
     effectiveProfile := effectiveProfile c; profiles := profiles c;
     syncRequired := syncRequired c; seqNum := seqNum c; rtpTimestamp :=
     rtpTimestamp c; lastRecvSeqNum := lastRecvSeqNum c; lastRecvRtpTimestamp
     := lastRecvRtpTimestamp c; transmittedCounter := transmittedCounter c;
     retransmittedCounter := retransmittedCounter c; lastRtcpSentTime :=
     lastRtcpSentTime c; maxRtcpInterval := maxRtcpInterval c |}.
Definition set_effectiveProfile {S} (v : Profile) (c : Consumer S) : Consumer S :=
  {| consumerId := consumerId c; kind := kind c; sourceProducerId :=
     sourceProducerId c; listeners := listeners c; transport := transport c;
     rtpParameters := rtpParameters c; rtpStream := rtpStream c;
     supportedCodecPayloadTypes := supportedCodecPayloadTypes c; paused :=
     paused c; sourcePaused := sourcePaused c; preferredProfile :=
     preferredProfile c; effectiveProfile := v; profiles := profiles c;
     syncRequired := syncRequired c; seqNum := seqNum c; rtpTimestamp :=
     rtpTimestamp c; lastRecvSeqNum := lastRecvSeqNum c; lastRecvRtpTimestamp
     := lastRecvRtpTimestamp c; transmittedCounter := transmittedCounter c;
     retransmittedCounter := retransmittedCounter c; lastRtcpSentTime :=
     lastRtcpSentTime c; maxRtcpInterval := maxRtcpInterval c |}.
Definition set_profiles {S} (v : gset Profile) (c : Consumer S) : Consumer S :=
  {| consumerId := consumerId c; kind := kind c; sourceProducerId :=
     sourceProducerId c; listeners := listeners c; transport := transport c;
     rtpParameters := rtpParameters c; rtpStream := rtpStream c;
     supportedCodecPayloadTypes := supportedCodecPayloadTypes c; paused :=
     paused c; sourcePaused := sourcePaused c; preferredProfile :=
     preferredProfile c; effectiveProfile := effectiveProfile c; profiles := v;
     syncRequired := syncRequired c; seqNum := seqNum c; rtpTimestamp :=
     rtpTimestamp c; lastRecvSeqNum := lastRecvSeqNum c; lastRecvRtpTimestamp
     := lastRecvRtpTimestamp c; transmittedCounter := transmittedCounter c;
     retransmittedCounter := retransmittedCounter c; lastRtcpSentTime :=
     lastRtcpSentTime c; maxRtcpInterval := maxRtcpInterval c |}.
Definition set_syncRequired {S} (v : bool) (c : Consumer S) : Consumer S :=
  {| consumerId := consumerId c; kind := kind c; sourceProducerId :=
     sourceProducerId c; listeners := listeners c; transport := transport c;
     rtpParameters := rtpParameters c; rtpStream := rtpStream c;
     supportedCodecPayloadTypes := supportedCodecPayloadTypes c; paused :=
     paused c; sourcePaused := sourcePaused c; preferredProfile :=
     preferredProfile c; effectiveProfile := effectiveProfile c; profiles :=
     profiles c; syncRequired := v; seqNum := seqNum c; rtpTimestamp :=
     rtpTimestamp c; lastRecvSeqNum := lastRecvSeqNum c; lastRecvRtpTimestamp
     := lastRecvRtpTimestamp c; transmittedCounter := transmittedCounter c;
     retransmittedCounter := retransmittedCounter c; lastRtcpSentTime :=
     lastRtcpSentTime c; maxRtcpInterval := maxRtcpInterval c |}.
Definition set_seqNum {S} (v : Z) (c : Consumer S) : Consumer S :=
  {| consumerId := consumerId c; kind := kind c; sourceProducerId :=
     sourceProducerId c; listeners := listeners c; transport := transport c;
     rtpParameters := rtpParameters c; rtpStream := rtpStream c;
     supportedCodecPayloadTypes := supportedCodecPayloadTypes c; paused :=
     paused c; sourcePaused := sourcePaused c; preferredProfile :=
     preferredProfile c; effectiveProfile := effectiveProfile c; profiles :=
     profiles c; syncRequired := syncRequired c; seqNum := v; rtpTimestamp :=
     rtpTimestamp c; lastRecvSeqNum := lastRecvSeqNum c; lastRecvRtpTimestamp
     := lastRecvRtpTimestamp c; transmittedCounter := transmittedCounter c;
     retransmittedCounter := retransmittedCounter c; lastRtcpSentTime :=
     lastRtcpSentTime c; maxRtcpInterval := maxRtcpInterval c |}.
Definition set_rtpTimestamp {S} (v : Z) (c : Consumer S) : Consumer S :=
  {| consumerId := consumerId c; kind := kind c; sourceProducerId :=
     sourceProducerId c; listeners := listeners c; transport := transport c;
     rtpParameters := rtpParameters c; rtpStream := rtpStream c;
     supportedCodecPayloadTypes := supportedCodecPayloadTypes c; paused :=
     paused c; sourcePaused := sourcePaused c; preferredProfile :=
     preferredProfile c; effectiveProfile := effectiveProfile c; profiles :=
     profiles c; syncRequired := syncRequired c; seqNum := seqNum c;
     rtpTimestamp := v; lastRecvSeqNum := lastRecvSeqNum c;
     lastRecvRtpTimestamp := lastRecvRtpTimestamp c; transmittedCounter :=
     transmittedCounter c; retransmittedCounter := retransmittedCounter c;
     lastRtcpSentTime := lastRtcpSentTime c; maxRtcpInterval := maxRtcpInterval
     c |}.
Definition set_lastRecvSeqNum {S} (v : Z) (c : Consumer S) : Consumer S :=
  {| consumerId := consumerId c; kind := kind c; sourceProducerId :=
     sourceProducerId c; listeners := listeners c; transport := transport c;
     rtpParameters := rtpParameters c; rtpStream := rtpStream c;
     supportedCodecPayloadTypes := supportedCodecPayloadTypes c; paused :=
     paused c; sourcePaused := sourcePaused c; preferredProfile :=
     preferredProfile c; effectiveProfile := effectiveProfile c; profiles :=
     profiles c; syncRequired := syncRequired c; seqNum := seqNum c;
     rtpTimestamp := rtpTimestamp c; lastRecvSeqNum := v; lastRecvRtpTimestamp
     := lastRecvRtpTimestamp c; transmittedCounter := transmittedCounter c;
     retransmittedCounter := retransmittedCounter c; lastRtcpSentTime :=
     lastRtcpSentTime c; maxRtcpInterval := maxRtcpInterval c |}.
Definition set_lastRecvRtpTimestamp {S} (v : Z) (c : Consumer S) : Consumer S :=
  {| consumerId := consumerId c; kind := kind c; sourceProducerId :=
     sourceProducerId c; listeners := listeners c; transport := transport c;
     rtpParameters := rtpParameters c; rtpStream := rtpStream c;
     supportedCodecPayloadTypes := supportedCodecPayloadTypes c; paused :=
     paused c; sourcePaused := sourcePaused c; preferredProfile :=
     preferredProfile c; effectiveProfile := effectiveProfile c; profiles :=
     profiles c; syncRequired := syncRequired c; seqNum := seqNum c;
     rtpTimestamp := rtpTimestamp c; lastRecvSeqNum := lastRecvSeqNum c;
     lastRecvRtpTimestamp := v; transmittedCounter := transmittedCounter c;
     retransmittedCounter := retransmittedCounter c; lastRtcpSentTime :=
     lastRtcpSentTime c; maxRtcpInterval := maxRtcpInterval c |}.
Definition set_transmittedCounter {S} (v : RtpDataCounter) (c : Consumer S) : Consumer S :=
  {| consumerId := consumerId c; kind := kind c; sourceProducerId :=
     sourceProducerId c; listeners := listeners c; transport := transport c;
     rtpParameters := rtpParameters c; rtpStream := rtpStream c;
     supportedCodecPayloadTypes := supportedCodecPayloadTypes c; paused :=
     paused c; sourcePaused := sourcePaused c; preferredProfile :=
     preferredProfile c; effectiveProfile := effectiveProfile c; profiles :=
     profiles c; syncRequired := syncRequired c; seqNum := seqNum c;
     rtpTimestamp := rtpTimestamp c; lastRecvSeqNum := lastRecvSeqNum c;
     lastRecvRtpTimestamp := lastRecvRtpTimestamp c; transmittedCounter := v;
     retransmittedCounter := retransmittedCounter c; lastRtcpSentTime :=
     lastRtcpSentTime c; maxRtcpInterval := maxRtcpInterval c |}.
Definition set_retransmittedCounter {S} (v : RtpDataCounter) (c : Consumer S) : Consumer S :=
  {| consumerId := consumerId c; kind := kind c; sourceProducerId :=
     sourceProducerId c; listeners := listeners c; transport := transport c;
     rtpParameters := rtpParameters c; rtpStream := rtpStream c;
     supportedCodecPayloadTypes := supportedCodecPayloadTypes c; paused :=
     paused c; sourcePaused := sourcePaused c; preferredProfile :=
     preferredProfile c; effectiveProfile := effectiveProfile c; profiles :=
     profiles c; syncRequired := syncRequired c; seqNum := seqNum c;
     rtpTimestamp := rtpTimestamp c; lastRecvSeqNum := lastRecvSeqNum c;
     lastRecvRtpTimestamp := lastRecvRtpTimestamp c; transmittedCounter :=
     transmittedCounter c; retransmittedCounter := v; lastRtcpSentTime :=
     lastRtcpSentTime c; maxRtcpInterval := maxRtcpInterval c |}.
Definition set_lastRtcpSentTime {S} (v : Z) (c : Consumer S) : Consumer S :=
  {| consumerId := consumerId c; kind := kind c; sourceProducerId :=
     sourceProducerId c; listeners := listeners c; transport := transport c;
     rtpParameters := rtpParameters c; rtpStream := rtpStream c;
     supportedCodecPayloadTypes := supportedCodecPayloadTypes c; paused :=
     paused c; sourcePaused := sourcePaused c; preferredProfile :=
     preferredProfile c; effectiveProfile := effectiveProfile c; profiles :=
     profiles c; syncRequired := syncRequired c; seqNum := seqNum c;
     rtpTimestamp := rtpTimestamp c; lastRecvSeqNum := lastRecvSeqNum c;
     lastRecvRtpTimestamp := lastRecvRtpTimestamp c; transmittedCounter :=
     transmittedCounter c; retransmittedCounter := retransmittedCounter c;
     lastRtcpSentTime := v; maxRtcpInterval := maxRtcpInterval c |}.

Section Methods.
Context {S : Type} `{!Collaborators S}.

(** Modelled from the spec: [IsEnabled] and [IsPaused] are inline in the
    header, which is not part of the tree.  A Consumer is Enabled when a
    transport is bound; it is paused when either flag is set. *)
Definition IsEnabled (c : Consumer S) : bool := bool_decide (transport c ≠ None).

Definition IsPaused (c : Consumer S) : bool := paused c || sourcePaused c.

(** [this->rtpStream->ClearRetransmissionBuffer()]. *)
Definition clear_buffer (c : Consumer S) : outcome (Consumer S) :=
  s ← deref NullPointer (rtpStream c);
  mret (set_rtpStream (Some (ClearRetransmissionBuffer s)) c).

Definition RequestFullFrame (c : Consumer S) : list Effect :=
  if negb (IsEnabled c) then []
  else if bool_decide (kind c = AUDIO) || IsPaused c then []
  else (λ l, FullFrameRequired l (consumerId c)) <$> listeners c.

Definition ToJson (c : Consumer S) : Json :=
  JObj (
    [ ("consumerId", JNum (consumerId c));
      ("kind", GetJsonString (kind c));
      ("sourceProducerId", JNum (sourceProducerId c)) ]
    ++ (if bool_decide (transport c ≠ None)
        then [("rtpParameters", ParametersToJson (rtpParameters c))] else [])
    ++ (match rtpStream c with
        | Some s => [("rtpStream", StreamToJson s)] | None => [] end)
    ++ [ ("paused", JBool (paused c));
         ("sourcePaused", JBool (sourcePaused c));
         ("preferredProfile", JStr (profile2String (preferredProfile c)));
         ("effectiveProfile", JStr (profile2String (effectiveProfile c))) ]).

Definition HandleRequest (c : Consumer S) (request : Request)
  : Consumer S * Response :=
  match methodId request with
  | CONSUMER_DUMP => (c, Accept (Some (ToJson c)))
  | _ => (c, Reject "unknown method")
  end.

Definition Pause (c : Consumer S) : outcome (Consumer S * list Effect) :=
  if paused c then mret (c, [])
  else
    let c := set_paused true c in
    if IsEnabled c && negb (sourcePaused c)
    then c ← clear_buffer c; mret (c, [])
    else mret (c, []).

Definition Resume (c : Consumer S) : outcome (Consumer S * list Effect) :=
  if negb (paused c) then mret (c, [])
  else
    let c := set_paused false c in
    if IsEnabled c && negb (sourcePaused c)
    then mret (c, RequestFullFrame c)
    else mret (c, []).

Definition SourcePause (c : Consumer S) : outcome (Consumer S * list Effect) :=
  if sourcePaused c then mret (c, [])
  else
    let c := set_sourcePaused true c in
    let ev := Emit (consumerId c) "sourcepaused" [] in
    if IsEnabled c && negb (paused c)
    then c ← clear_buffer c; mret (c, [ev])
    else mret (c, [ev]).

Definition SourceResume (c : Consumer S) : outcome (Consumer S * list Effect) :=
  if negb (sourcePaused c) then mret (c, [])
  else
    let c := set_sourcePaused false c in
    let ev := Emit (consumerId c) "sourceresumed" [] in
    if IsEnabled c && negb (paused c)
    then mret (c, ev :: RequestFullFrame c)
    else mret (c, [ev]).

Definition SourceRtpParametersUpdated (c : Consumer S)
  : outcome (Consumer S * list Effect) :=
  if negb (IsEnabled c) then mret (c, [])
  else
    let c := set_syncRequired true c in
    c ← clear_buffer c; mret (c, []).

Definition RecalculateEffectiveProfile (c : Consumer S)
  : outcome (Consumer S * list Effect) :=
  newProfile ←
    (if decide (preferredProfile c = NONE)
     then (* auto it = profiles.crbegin(); newProfile = *it; *)
          deref InvalidIterator (set_crbegin (profiles c))
     else (* auto it = profiles.lower_bound(preferredProfile); newProfile = *it; *)
          deref InvalidIterator (set_lower_bound (preferredProfile c) (profiles c)));
  if decide (newProfile = effectiveProfile c) then mret (c, [])
  else
    let c := set_effectiveProfile newProfile c in
    let ev := Emit (consumerId c) "effectiveprofilechange"
                [("profile", JStr (profile2String (effectiveProfile c)))] in
    if IsEnabled c && negb (IsPaused c)
    then
      c ← clear_buffer c;
      mret (set_syncRequired true c, ev :: RequestFullFrame c)
    else mret (set_syncRequired true c, [ev]).

Definition AddProfile (profile : Profile) (c : Consumer S)
  : outcome (Consumer S * list Effect) :=
  let ps :=
    if bool_decide (size (profiles c) = 1%nat) &&
       bool_decide (set_begin (profiles c) = Some NONE)
    then ∅ else profiles c in
  RecalculateEffectiveProfile (set_profiles (ps ∪ {[profile]}) c).

Definition RemoveProfile (profile : Profile) (c : Consumer S)
  : outcome (Consumer S * list Effect) :=
  RecalculateEffectiveProfile (set_profiles (profiles c ∖ {[profile]}) c).

Definition SetPreferredProfile (profile : Profile) (c : Consumer S)
  : outcome (Consumer S * list Effect) :=
  if decide (preferredProfile c = profile) then mret (c, [])
  else RecalculateEffectiveProfile (set_preferredProfile profile c).

Definition Disable (c : Consumer S) : Consumer S :=
  let c := set_transport None c in
  let c := set_supportedCodecPayloadTypes ∅ c in
  let c := set_rtpStream None c in
  let c := set_lastRtcpSentTime 0 c in
  let c := set_transmittedCounter {| packets := 0 |} c in
  set_retransmittedCounter {| packets := 0 |} c.

Definition FillSupportedCodecPayloadTypes (c : Consumer S) : Consumer S :=
  set_supportedCodecPayloadTypes
    (foldl (λ acc codec, acc ∪ {[payloadType codec]})
           (supportedCodecPayloadTypes c) (codecs (rtpParameters c))) c.

(** Invariant 1 of the data model: an Enabled consumer owns its stream,
    and ([Enable] refuses empty encodings) has a first encoding. *)
Definition bound (c : Consumer S) : Prop :=
  transport c ≠ None →
  is_Some (rtpStream c) ∧ is_Some (encodings (rtpParameters c) !! 0%nat).

(** The four checks at the head of [SendRtpPacket]: the packet is
    forwarded only when all of them pass. *)
Definition passes_checks (c : Consumer S) (packet : RtpPacket) (profile : Profile)
  : bool :=
  IsEnabled c && negb (IsPaused c) &&
  bool_decide (GetPayloadType packet ∈ supportedCodecPayloadTypes c) &&
  bool_decide (profile = effectiveProfile c).

(** The sequence number and timestamp bookkeeping of [SendRtpPacket]
    (the [if (this->syncRequired) ... else ...] block followed by the two
    "save the received" assignments).  [now] is the reading of
    [DepLibUV::GetTime()]. *)
Definition advance (c : Consumer S) (packet : RtpPacket) (now : Z) : Consumer S :=
  let c :=
    if syncRequired c then
      let c := set_seqNum (wrap16 (seqNum c + 1)) c in
      let now := wrap32 now in
      let c := if decide (now > rtpTimestamp c) then set_rtpTimestamp now c else c in
      set_syncRequired false c
    else
      let c := set_seqNum
                 (wrap16 (seqNum c + (GetSequenceNumber packet - lastRecvSeqNum c))) c in
      set_rtpTimestamp
        (wrap32 (rtpTimestamp c
                 + wrap32 (GetTimestamp packet - lastRecvRtpTimestamp c))) c in
  let c := set_lastRecvSeqNum (GetSequenceNumber packet) c in
  set_lastRecvRtpTimestamp (GetTimestamp packet) c.

(** The packet as [SendRtpPacket] hands it to the stream and to the
    transport, the consumer being [c] after [advance]. *)
Definition rewritten (c : Consumer S) (encoding : RtpEncodingParameters)
    (packet : RtpPacket) : RtpPacket :=
  SetTimestamp (rtpTimestamp c)
    (SetSequenceNumber (seqNum c) (SetSsrc (ssrc encoding) packet)).

(** [SendRtpPacket] returns the consumer, the borrowed packet object as the
    caller sees it afterwards, and what was handed to the transport. *)
Definition SendRtpPacket (c : Consumer S) (packet : RtpPacket) (profile : Profile)
    (now : Z) : outcome (Consumer S * RtpPacket * list Effect) :=
  if negb (IsEnabled c) then mret (c, packet, [])
  else if IsPaused c then mret (c, packet, [])
  else
    let payloadType := GetPayloadType packet in
    if bool_decide (payloadType ∉ supportedCodecPayloadTypes c)
    then mret (c, packet, [])
    else if bool_decide (profile ≠ effectiveProfile c) then mret (c, packet, [])
    else
      let c := advance c packet now in
      (* Save real SSRC, rewrite SSRC, sequence number and timestamp. *)
      let ssrc0 := GetSsrc packet in
      encoding ← deref OutOfBounds (encodings (rtpParameters c) !! 0%nat);
      let packet := SetSsrc (ssrc encoding) packet in
      let packet := SetSequenceNumber (seqNum c) packet in
      let packet := SetTimestamp (rtpTimestamp c) packet in
      (* Process the packet. *)
      stream ← deref NullPointer (rtpStream c);
      let '(accepted, stream) := ReceivePacket packet stream in
      let c := set_rtpStream (Some stream) c in
      let '(c, effs) :=
        if accepted
        then (set_transmittedCounter (Update packet (transmittedCounter c)) c,
              [TransportSend packet])
        else (c, []) in
      (* Restore SSRC, sequence number and timestamp. *)
      let packet := SetSsrc ssrc0 packet in
      let packet := SetSequenceNumber (lastRecvSeqNum c) packet in
      let packet := SetTimestamp (lastRecvRtpTimestamp c) packet in
      mret (c, packet, effs).

(** The output counters of [c'] are those of [c]. *)
Definition same_output (c c' : Consumer S) : Prop :=
  seqNum c' = seqNum c ∧ rtpTimestamp c' = rtpTimestamp c.

(** *** Runs of a Consumer *)

Inductive Input :=
| InRtpPacket (packet : RtpPacket) (profile : Profile) (now : Z)
| InPause | InResume | InSourcePause | InSourceResume
| InSourceRtpParametersUpdated
| InAddProfile (profile : Profile)
| InRemoveProfile (profile : Profile)
| InSetPreferredProfile (profile : Profile).

Definition step (c : Consumer S) (i : Input) : outcome (Consumer S * list Effect) :=
  match i with
  | InRtpPacket packet profile now =>
      '(c, _, effs) ← SendRtpPacket c packet profile now; mret (c, effs)
  | InPause => Pause c
  | InResume => Resume c
  | InSourcePause => SourcePause c
  | InSourceResume => SourceResume c
  | InSourceRtpParametersUpdated => SourceRtpParametersUpdated c
  | InAddProfile p => AddProfile p c
  | InRemoveProfile p => RemoveProfile p c
  | InSetPreferredProfile p => SetPreferredProfile p c
  end.

(** Everything the consumer does to the outside world while it is fed
    [inputs], up to the first fault. *)
Fixpoint trace (c : Consumer S) (inputs : list Input) : list Effect :=
  match inputs with
  | [] => []
  | i :: rest =>
      match step c i with
      | Ok (c, effs) => effs ++ trace c rest
      | Fault _ => []
      end
  end.

(** The sequence numbers written into the emitted packets are strictly
    increasing modulo [2^16] and their timestamps non-decreasing modulo
    [2^32]. *)
Definition monotone_output (c : Consumer S) (inputs : list Input) : Prop :=
  Sorted (newer 16) (GetSequenceNumber <$> sent (trace c inputs))
  ∧ Sorted (not_older 32) (GetTimestamp <$> sent (trace c inputs)).

(** How far a packet that passes the four checks moves the output
    sequence number and the output timestamp, whether or not the stream
    then accepts it: by one and up to the clock when a sync is pending,
    by its distance from the last received packet otherwise. *)
Definition seq_step (c : Consumer S) (packet : RtpPacket) : Z :=
  if syncRequired c then 1 else GetSequenceNumber packet - lastRecvSeqNum c.

Definition ts_step (c : Consumer S) (packet : RtpPacket) (now : Z) : Z :=
  if syncRequired c
  then Z.max (rtpTimestamp c) (wrap32 now) - rtpTimestamp c
  else GetTimestamp packet - lastRecvRtpTimestamp c.

(** The distance covered since the last transmitted packet ([None] as
    long as no packet has been transmitted), after input [i]. *)
Definition widen (c : Consumer S) (i : Input) (gap : option (Z * Z))
  : option (Z * Z) :=
  match i with
  | InRtpPacket packet profile now =>
      if passes_checks c packet profile
      then (λ d, (d.1 + seq_step c packet, d.2 + ts_step c packet now)) <$> gap
      else gap
  | _ => gap
  end.

(** Consecutive transmitted packets of the run are spaced in order: the
    steps of the packets that passed the checks since the last transmitted
    one (those the stream refused included) add up to a sequence distance
    strictly inside the lower half of [2^16] and to a timestamp distance
    inside the lower half of [2^32]. *)
Fixpoint spaced (gap : option (Z * Z)) (c : Consumer S) (inputs : list Input)
  : Prop :=
  match inputs with
  | [] => True
  | i :: rest =>
      match step c i with
      | Fault _ => True
      | Ok (c', effs) =>
          match sent effs with
          | [] => spaced (widen c i gap) c' rest
          | _ :: _ =>
              match widen c i gap with
              | Some (dseq, dts) =>
                  0 < wrap16 dseq < 2 ^ 15 ∧ wrap32 dts < 2 ^ 31
              | None => True
              end
              ∧ spaced (Some (0, 0)) c' rest
          end
      end
  end.

End Methods.

End Consumer.

(** ** RTC::SeqManager (interface) *)

(** The interface of [RTC::SeqManager<T>] as the VP8 handler uses it; its
    implementation is not part of the tree.  [Input] returns the output
    value when the manager accepts the input and [None] when it reports
    the input as dropped. *)
Class SeqManager (M : Type) := {
  Sync : Z → M → M;
  Drop : Z → M → M;
  Input : Z → M → option Z * M;
  GetMaxInput : M → Z;
  IsSeqHigherThan : Z → Z → bool;
}.

(** ** RTC::Codecs::VP8 *)

Module VP8.

Record PayloadDescriptor := {
  extended : Z;
  nonReference : Z;
  start : Z;
  partitionIndex : Z;
  i : Z;
  l : Z;
  t : Z;
  k : Z;
  pictureId : Z;
  tl0PictureIndex : Z;
  tlIndex : Z;
  y : Z;
  keyIndex : Z;
  isKeyFrame : bool;
  hasPictureId : bool;
  hasOneBytePictureId : bool;
  hasTwoBytesPictureId : bool;
  hasTl0PictureIndex : bool;
  hasTlIndex : bool;
}.

(** [(byte >> n) & 0x01] *)
Definition bit (byte : Z) (n : Z) : Z := Z.land (Z.shiftr byte n) 1.

(** The optional pictureId field as [Parse] reads it: the offset of its
    last byte, the value, and which of the two forms was found. *)
Inductive PictureIdForm := NoPictureId | OneByte | TwoBytes.

#[global] Instance PictureIdForm_eq_dec : EqDecision PictureIdForm.
Proof. solve_decision. Defined.

(** [VP8::Parse].  [len] is the length of [data]; every
    [if (len < ++offset + 1) return nullptr; ... data[offset]] of the
    source is a lookup at the incremented offset, which fails exactly when
    that test does. *)
Definition Parse (data : list Z) : option PayloadDescriptor :=
  let offset := 0%nat in
  byte ← data !! offset;
  let extended := bit byte 7 in
  let nonReference := bit byte 5 in
  let start := bit byte 4 in
  let partitionIndex := Z.land byte 7 in
  if decide (extended = 0) then None
  else
    let offset := S offset in
    byte ← data !! offset;
    let i := bit byte 7 in
    let l := bit byte 6 in
    let t := bit byte 5 in
    let k := bit byte 4 in
    '(offset, form, pictureId) ←
      (if decide (i ≠ 0) then
         let offset := S offset in
         byte ← data !! offset;
         if decide (bit byte 7 ≠ 0) then
           let offset := S offset in
           low ← data !! offset;
           let pictureId := wrap16 (Z.shiftl (Z.land byte 127) 8) in
           Some (offset, TwoBytes, wrap16 (pictureId + low))
         else Some (offset, OneByte, Z.land byte 127)
       else Some (offset, NoPictureId, 0));
    '(offset, hasTl0PictureIndex, tl0PictureIndex) ←
      (if decide (l ≠ 0) then
         let offset := S offset in
         byte ← data !! offset;
         Some (offset, true, byte)
       else Some (offset, false, 0));
    '(offset, hasTlIndex, tlIndex, y, keyIndex) ←
      (if decide (t ≠ 0 ∨ k ≠ 0) then
         let offset := S offset in
         byte ← data !! offset;
         Some (offset, true, Z.land (Z.shiftr byte 6) 3, bit byte 5, Z.land byte 31)
       else Some (offset, false, 0, 0, 0));
    let offset := S offset in
    let isKeyFrame :=
      match data !! offset with
      | Some byte =>
          bool_decide (start ≠ 0) && bool_decide (partitionIndex = 0)
          && bool_decide (Z.land byte 1 = 0)
      | None => false
      end in
    Some {| extended := extended; nonReference := nonReference; start := start;
            partitionIndex := partitionIndex; i := i; l := l; t := t; k := k;
            pictureId := pictureId; tl0PictureIndex := tl0PictureIndex;
            tlIndex := tlIndex; y := y; keyIndex := keyIndex;
            isKeyFrame := isKeyFrame;
            hasPictureId := bool_decide (form ≠ NoPictureId);
            hasOneBytePictureId := bool_decide (form = OneByte);
            hasTwoBytesPictureId := bool_decide (form = TwoBytes);
            hasTl0PictureIndex := hasTl0PictureIndex;
            hasTlIndex := hasTlIndex |}.

(** A write through the [data] pointer at a given offset. *)
Definition store (offset : nat) (v : Z) (data : list Z) : outcome (list Z) :=
  if decide (offset < length data)%nat then Ok (<[offset := v]> data)
  else Fault OutOfBounds.

Definition load (offset : nat) (data : list Z) : outcome Z :=
  deref OutOfBounds (data !! offset).

(** [PayloadDescriptor::Encode].  [htons] followed by [memcpy] stores the
    high byte of [pictureId] first; [pictureId] is a [uint16_t] and
    [tl0PictureIndex] a [uint8_t], so that only their low sixteen and
    eight bits are stored. *)
Definition Encode (d : PayloadDescriptor) (data : list Z)
    (pictureId tl0PictureIndex : Z) : outcome (list Z) :=
  if decide (extended d = 0) then Ok data
  else
    let offset := 2%nat in
    '(offset, data) ←
      (if decide (i d ≠ 0) then
         if hasTwoBytesPictureId d then
           data ← store offset (Z.land (Z.shiftr pictureId 8) 255) data;
           data ← store (S offset) (Z.land pictureId 255) data;
           byte ← load offset data;
           data ← store offset (Z.lor byte 128) data;
           Ok ((offset + 2)%nat, data)
         else if hasOneBytePictureId d then
           data ← store offset (wrap8 pictureId) data;
           Ok (S offset, data)
         else Ok (offset, data)
       else Ok (offset, data));
    if decide (l d ≠ 0) then store offset (wrap8 tl0PictureIndex) data
    else Ok data.

Definition Restore (d : PayloadDescriptor) (data : list Z) : outcome (list Z) :=
  Encode d data (pictureId d) (tl0PictureIndex d).

(** The number of leading bytes of the buffer that [Encode] may touch. *)
Definition encoded_length (d : PayloadDescriptor) : nat :=
  if decide (extended d = 0) then 0%nat
  else
    let pictureIdBytes : nat :=
      if decide (i d = 0) then 0%nat
      else if hasTwoBytesPictureId d then 2%nat
      else if hasOneBytePictureId d then 1%nat else 0%nat in
    let tl0Bytes : nat := if decide (l d = 0) then 0%nat else 1%nat in
    (2 + pictureIdBytes + tl0Bytes)%nat.

Definition is_byte (b : Z) : Prop := 0 ≤ b < 256.

(** Modelled from the spec: [VP8::EncodingContext] is declared outside the
    tree; it holds the sync flag, the two managers and the target and
    current temporal layers with their getters and setters. *)
Record EncodingContext (M16 M8 : Type) := {
  syncRequired : bool;
  pictureIdManager : M16;
  tl0PictureIndexManager : M8;
  GetTargetTemporalLayer : Z;
  GetCurrentTemporalLayer : Z;
}.

Arguments syncRequired {M16 M8} _.
Arguments pictureIdManager {M16 M8} _.
Arguments tl0PictureIndexManager {M16 M8} _.
Arguments GetTargetTemporalLayer {M16 M8} _.
Arguments GetCurrentTemporalLayer {M16 M8} _.

Section Handler.
Context {M16 M8 : Type} `{!SeqManager M16, !SeqManager M8}.

Definition SetCurrentTemporalLayer (v : Z) (c : EncodingContext M16 M8)
  : EncodingContext M16 M8 :=
  {| syncRequired := syncRequired c; pictureIdManager := pictureIdManager c;
     tl0PictureIndexManager := tl0PictureIndexManager c;
     GetTargetTemporalLayer := GetTargetTemporalLayer c;
     GetCurrentTemporalLayer := v |}.

Definition set_managers (sync : bool) (pm : M16) (tm : M8)
    (c : EncodingContext M16 M8) : EncodingContext M16 M8 :=
  {| syncRequired := sync; pictureIdManager := pm;
     tl0PictureIndexManager := tm;
     GetTargetTemporalLayer := GetTargetTemporalLayer c;
     GetCurrentTemporalLayer := GetCurrentTemporalLayer c |}.

(** The head of [Process]: the pictureId / tl0PictureIndex sync and the
    key-frame update of the current temporal layer. *)
Definition prepare (d : PayloadDescriptor) (context : EncodingContext M16 M8)
  : EncodingContext M16 M8 :=
  let context :=
    if syncRequired context && hasPictureId d && hasTl0PictureIndex d
    then set_managers false
           (Sync (wrap16 (pictureId d - 1)) (pictureIdManager context))
           (Sync (wrap8 (tl0PictureIndex d - 1)) (tl0PictureIndexManager context))
           context
    else context in
  if isKeyFrame d
  then SetCurrentTemporalLayer (GetTargetTemporalLayer context) context
  else context.

(** [pictureIdManager.Drop(pictureId); tl0PictureIndexManager.Drop(tl0PictureIndex)] *)
Definition drop_both (d : PayloadDescriptor) (context : EncodingContext M16 M8)
  : EncodingContext M16 M8 :=
  set_managers (syncRequired context)
    (Drop (pictureId d) (pictureIdManager context))
    (Drop (tl0PictureIndex d) (tl0PictureIndexManager context))
    context.

(** The "incremental pictureId" test that guards the temporal-layer
    checks. *)
Definition newer_picture (d : PayloadDescriptor) (context : EncodingContext M16 M8)
  : bool :=
  hasPictureId d && hasTlIndex d && hasTl0PictureIndex d
  && IsSeqHigherThan (M := M16) (pictureId d)
       (GetMaxInput (pictureIdManager context)).

(** The tail of [Process]: fix the current temporal layer and write the
    remapped values into the buffer. *)
Definition finish (d : PayloadDescriptor) (context : EncodingContext M16 M8)
    (data : list Z) (pictureId tl0PictureIndex : Z)
  : outcome (bool * EncodingContext M16 M8 * list Z) :=
  let context :=
    if decide (tlIndex d > GetCurrentTemporalLayer context)
    then SetCurrentTemporalLayer (tlIndex d) context else context in
  let context :=
    if decide (GetCurrentTemporalLayer context > GetTargetTemporalLayer context)
    then SetCurrentTemporalLayer (GetTargetTemporalLayer context) context
    else context in
  if hasPictureId d && hasTl0PictureIndex d
  then data ← Encode d data pictureId tl0PictureIndex; mret (true, context, data)
  else mret (true, context, data).

(** [PayloadDescriptorHandler::Process]: the returned flag, the encoding
    context and the packet buffer afterwards. *)
Definition Process (d : PayloadDescriptor) (context : EncodingContext M16 M8)
    (data : list Z) : outcome (bool * EncodingContext M16 M8 * list Z) :=
  if decide (GetTargetTemporalLayer context < 0) then Fault AssertionFailed
  else
    let context := prepare d context in
    if newer_picture d context
       && bool_decide (tlIndex d > GetTargetTemporalLayer context)
    then mret (false, drop_both d context, data)
    else if newer_picture d context
            && bool_decide (tlIndex d > GetCurrentTemporalLayer context)
            && bool_decide (y d = 0)
    then mret (false, drop_both d context, data)
    else
      (* Do not send a dropped pictureId. *)
      let '(pictureId', pm) :=
        if hasPictureId d then Input (pictureId d) (pictureIdManager context)
        else (Some 0, pictureIdManager context) in
      let context :=
        set_managers (syncRequired context) pm (tl0PictureIndexManager context)
          context in
      match pictureId' with
      | None => mret (false, context, data)
      | Some pictureId' =>
          (* Do not send a dropped tl0PictureIndex. *)
          let '(tl0PictureIndex', tm) :=
            if hasTl0PictureIndex d
            then Input (tl0PictureIndex d) (tl0PictureIndexManager context)
            else (Some 0, tl0PictureIndexManager context) in
          let context :=
            set_managers (syncRequired context) (pictureIdManager context) tm
              context in
          match tl0PictureIndex' with
          | None => mret (false, context, data)
          | Some tl0PictureIndex' =>
              finish d context data pictureId' tl0PictureIndex'
          end
      end.

(** [PayloadDescriptorHandler::Restore] *)
Definition HandlerRestore (d : PayloadDescriptor) (data : list Z)
  : outcome (list Z) :=
  if hasPictureId d && hasTl0PictureIndex d then Restore d data else Ok data.

End Handler.

End VP8.

(** ** RTC::RtpSender *)

(** The sets of payload types and of [RtpSender] pointers are declared in
    headers that are not part of the tree, so that the order in which a
    [for (auto& x : set)] visits one is not known: it is a parameter, a
    listing of the elements of the set. *)
Class Iteration := {
  iterate : gset Z → list Z;
  iterate_Permutation (s : gset Z) : iterate s ≡ₚ elements s;
}.

(** The iteration order of a [std::set]. *)
Definition ascending (s : gset Z) : list Z := merge_sort Z.le (elements s).

Module RtpSender.

Record RtpSender (S : Type) := {
  rtpSenderId : Z;
  kind : MediaKind;
  listener : Z;
  rtpParameters : option RtpParameters;
  transport : option Z;
  available : bool;
  supportedPayloadTypes : gset Z;
  rtpStream : option S;
}.

Arguments rtpSenderId {S} _.
Arguments kind {S} _.
Arguments listener {S} _.
Arguments rtpParameters {S} _.
Arguments transport {S} _.
Arguments available {S} _.
Arguments supportedPayloadTypes {S} _.
Arguments rtpStream {S} _.

Definition set_rtpStream {S} (v : option S) (s : RtpSender S) : RtpSender S :=
  {| rtpSenderId := rtpSenderId s; kind := kind s; listener := listener s;
     rtpParameters := rtpParameters s; transport := transport s;
     available := available s; supportedPayloadTypes := supportedPayloadTypes s;
     rtpStream := v |}.

Section Methods.
Context {S : Type} `{!Collaborators S, !Iteration}.

Definition toJson (s : RtpSender S) : Json :=
  JObj [ ("rtpSenderId", JNum (rtpSenderId s));
         ("kind", GetJsonString (kind s));
         ("rtpParameters",
          match rtpParameters s with
          | Some ps => ParametersToJson ps | None => JNull end);
         ("hasTransport", JBool (bool_decide (transport s ≠ None)));
         ("available", JBool (available s));
         ("supportedPayloadTypes",
          JArr (JNum <$> iterate (supportedPayloadTypes s))) ].

Definition HandleRequest (s : RtpSender S) (request : Request)
  : RtpSender S * Response :=
  match methodId request with
  | rtpSender_dump => (s, Accept (Some (toJson s)))
  | _ => (s, Reject "unknown method")
  end.

Definition SendRtpPacket (s : RtpSender S) (packet : RtpPacket)
  : outcome (RtpSender S * list Effect) :=
  if negb (available s) || bool_decide (transport s = None) then mret (s, [])
  else
    stream ← deref AssertionFailed (rtpStream s);
    let '(accepted, stream) := ReceivePacket packet stream in
    let s := set_rtpStream (Some stream) s in
    if negb accepted then mret (s, [])
    else if bool_decide (GetPayloadType packet ∉ supportedPayloadTypes s)
    then mret (s, [])
    else mret (s, [TransportSend packet]).

End Methods.

End RtpSender.

(** ** RTC::Room *)

Module Room.

Import RtpSender.

(** A room owns its peers and the fan-out map from an RtpReceiver to the
    set of RtpSenders fed by it.  Receivers and senders are named by their
    addresses. *)
Record Room (P : Type) := {
  roomId : Z;
  capabilities : list RtpCodecParameters;
  peers : gmap Z P;
  mapRtpReceiverRtpSenders : gmap Z (gset Z);
}.

Arguments roomId {P} _.
Arguments capabilities {P} _.
Arguments peers {P} _.
Arguments mapRtpReceiverRtpSenders {P} _.

(** The room together with the heap: the live [RtpSender] objects and,
    of each live [RtpReceiver], its [rtpReceiverId]. *)
Record World (S P : Type) := {
  room : Room P;
  rtpSenders : gmap Z (RtpSender S);
  rtpReceivers : gmap Z Z;
}.

Arguments room {S P} _.
Arguments rtpSenders {S P} _.
Arguments rtpReceivers {S P} _.

Definition set_peers {P} (v : gmap Z P) (r : Room P) : Room P :=
  {| roomId := roomId r; capabilities := capabilities r; peers := v;
     mapRtpReceiverRtpSenders := mapRtpReceiverRtpSenders r |}.

Definition set_map {P} (v : gmap Z (gset Z)) (r : Room P) : Room P :=
  {| roomId := roomId r; capabilities := capabilities r; peers := peers r;
     mapRtpReceiverRtpSenders := v |}.

Definition set_room {S P} (v : Room P) (w : World S P) : World S P :=
  {| room := v; rtpSenders := rtpSenders w; rtpReceivers := rtpReceivers w |}.

Definition set_rtpSenders {S P} (v : gmap Z (RtpSender S)) (w : World S P)
  : World S P :=
  {| room := room w; rtpSenders := v; rtpReceivers := rtpReceivers w |}.

(** [RTC::Peer] as the room calls it; its sources are not part of the
    tree.  A peer's methods may call back into the room, so they act on
    the whole world. *)
Class PeerCollaborators (S P : Type) := {
  NewPeer : Z → string → string + P;
  PeerToJson : P → Json;
  CapabilitiesToJson : list RtpCodecParameters → Json;
  PeerClose : P → World S P → World S P * list Effect;
  PeerHandleRequest : P → Request → World S P → World S P * Response * list Effect;
}.

Section Methods.
Context {S P : Type} `{!Collaborators S, !PeerCollaborators S P, !Iteration}.

(** [Room::onPeerRtpSenderClosed]: erase the sender from every entry. *)
Definition onPeerRtpSenderClosed (rtpSender : Z) (r : Room P) : Room P :=
  set_map ((λ rtpSenders, rtpSenders ∖ {[rtpSender]})
             <$> mapRtpReceiverRtpSenders r) r.

(** Modelled from the spec: [Peer::onRtpSenderClosed] is not part of the
    tree; the closed sender unlinks itself, the peer passing the event on
    to [Room::onPeerRtpSenderClosed]. *)
Definition Peer_onRtpSenderClosed (rtpSender : Z) (w : World S P) : World S P :=
  set_room (onPeerRtpSenderClosed rtpSender (room w)) w.

(** [RtpSender::Close] on the object at address [rtpSender]. *)
Definition Close_RtpSender (rtpSender : Z) (w : World S P)
  : outcome (World S P * list Effect) :=
  this ← deref UseAfterFree (rtpSenders w !! rtpSender);
  let ev := Emit (rtpSenderId this) "close" [("class", JStr "RtpSender")] in
  let w := Peer_onRtpSenderClosed rtpSender w in
  (* delete this *)
  mret (set_rtpSenders (delete rtpSender (rtpSenders w)) w, [ev]).

Fixpoint close_each (senders : list Z) (w : World S P)
  : outcome (World S P * list Effect) :=
  match senders with
  | [] => mret (w, [])
  | rtpSender :: rest =>
      '(w, effs) ← Close_RtpSender rtpSender w;
      '(w, effs') ← close_each rest w;
      mret (w, effs ++ effs')
  end.

(** The close notification of the live sender at address [rtpSender], and
    the notifications of a list of senders, one for each. *)
Definition close_event (w : World S P) (rtpSender : Z) : option Effect :=
  this ← rtpSenders w !! rtpSender;
  Some (Emit (rtpSenderId this) "close" [("class", JStr "RtpSender")]).

Definition close_events (w : World S P) (senders : list Z) : list Effect :=
  omap (close_event w) senders.

(** [Room::onPeerRtpReceiverClosed] *)
Definition onPeerRtpReceiverClosed (rtpReceiver : Z) (w : World S P)
  : outcome (World S P * list Effect) :=
  match mapRtpReceiverRtpSenders (room w) !! rtpReceiver with
  | Some senders =>
      (* a copy of the set is iterated *)
      '(w, effs) ← close_each (iterate senders) w;
      mret (set_room (set_map (delete rtpReceiver
                                 (mapRtpReceiverRtpSenders (room w))) (room w)) w,
            effs)
  | None => mret (w, [])
  end.

(** [Room::onPeerRtpPacket] *)
Fixpoint send_each (senders : list Z) (packet : RtpPacket) (w : World S P)
  : outcome (World S P * list Effect) :=
  match senders with
  | [] => mret (w, [])
  | rtpSender :: rest =>
      this ← deref UseAfterFree (rtpSenders w !! rtpSender);
      '(this, effs) ← SendRtpPacket this packet;
      let w := set_rtpSenders (<[rtpSender := this]> (rtpSenders w)) w in
      '(w, effs') ← send_each rest packet w;
      mret (w, effs ++ effs')
  end.

Definition onPeerRtpPacket (rtpReceiver : Z) (packet : RtpPacket) (w : World S P)
  : outcome (World S P * list Effect) :=
  senders ← deref AssertionFailed (mapRtpReceiverRtpSenders (room w) !! rtpReceiver);
  send_each (iterate senders) packet w.

(** [Room::Close]: every peer is erased from the map and closed, the close
    event is emitted, the listener is told, and the room is deleted. *)
Definition Close (w : World S P) : World S P * list Effect :=
  let '(w, effs) :=
    foldl (λ '(w, effs) '(peerId, peer),
             let w := set_room (set_peers (delete peerId (peers (room w))) (room w)) w in
             let '(w, effs') := PeerClose peer w in
             (w, effs ++ effs'))
          (w, []) (map_to_list (peers (room w))) in
  (w, effs ++ [Emit (roomId (room w)) "close" [("class", JStr "Room")];
               OnRoomClosed (roomId (room w))]).

Definition sender_ids (w : World S P) (senders : list Z) : outcome (list Json) :=
  mapM (M := outcome)
       (λ rtpSender,
          this ← deref UseAfterFree (rtpSenders w !! rtpSender);
          mret (JStr (pretty (rtpSenderId this))))
       senders.

(** The loop of [toJson] over the fan-out map: the ids of the senders of
    each entry under the [rtpReceiverId] of its receiver. *)
Fixpoint map_to_json (w : World S P) (entries : list (Z * gset Z))
  : outcome (list (string * Json)) :=
  match entries with
  | [] => mret []
  | (rtpReceiver, senders) :: rest =>
      ids ← sender_ids w (iterate senders);
      rtpReceiverId ← deref UseAfterFree (rtpReceivers w !! rtpReceiver);
      rest ← map_to_json w rest;
      mret ((pretty rtpReceiverId, JArr ids) :: rest)
  end.

Definition toJson (w : World S P) : outcome Json :=
  let r := room w in
  m ← map_to_json w (map_to_list (mapRtpReceiverRtpSenders r));
  mret (JObj [ ("roomId", JNum (roomId r));
               ("capabilities", CapabilitiesToJson (capabilities r));
               ("peers", JArr (PeerToJson <$> (snd <$> map_to_list (peers r))));
               ("mapRtpReceiverRtpSenders", JObj m) ]).

(** [Room::GetPeerFromRequest]: the thrown error's message, or the peer id
    and the peer found under it. *)
Definition GetPeerFromRequest (r : Room P) (request : Request)
  : string + (Z * option P) :=
  match json_get "peerId" (internal request) with
  | JNum n =>
      if decide (0 ≤ n < 2 ^ 32) then inr (n, peers r !! n)
      else inl "Request has not numeric .peerId field"
  | _ => inl "Request has not numeric .peerId field"
  end.

(** The methods [Room::HandleRequest] has a [case] label for. *)
Definition recognised : list MethodId :=
  [ room_close; room_dump; room_createPeer;
    peer_close; peer_dump; peer_setCapabilities; peer_createTransport;
    peer_createRtpReceiver;
    transport_close; transport_dump; transport_setRemoteDtlsParameters;
    rtpReceiver_close; rtpReceiver_dump; rtpReceiver_receive;
    rtpReceiver_setRtpRawEvent; rtpReceiver_setRtpObjectEvent;
    rtpSender_dump; rtpSender_setTransport ].

Definition to_peer (w : World S P) (request : Request)
  : outcome (option (World S P) * Response * list Effect) :=
  match GetPeerFromRequest (room w) request with
  | inl what => mret (Some w, Reject what, [])
  | inr (_, None) => mret (Some w, Reject "Peer does not exist", [])
  | inr (_, Some peer) =>
      let '(w, response, effs) := PeerHandleRequest peer request w in
      mret (Some w, response, effs)
  end.

(** [Room::HandleRequest]: the world afterwards ([None] once the room has
    deleted itself), the response and the effects. *)
Definition HandleRequest (w : World S P) (request : Request)
  : outcome (option (World S P) * Response * list Effect) :=
  match methodId request with
  | room_close =>
      let '(_, effs) := Close w in
      mret (None, Accept None, effs)
  | room_dump =>
      json ← toJson w;
      mret (Some w, Accept (Some json), [])
  | room_createPeer =>
      match GetPeerFromRequest (room w) request with
      | inl what => mret (Some w, Reject what, [])
      | inr (_, Some _) => mret (Some w, Reject "Peer already exists", [])
      | inr (peerId, None) =>
          match json_get "peerName" (internal request) with
          | JStr peerName =>
              match NewPeer peerId peerName with
              | inl what => mret (Some w, Reject what, [])
              | inr peer =>
                  mret (Some (set_room (set_peers (<[peerId := peer]> (peers (room w)))
                                          (room w)) w),
                        Accept None, [])
              end
          | _ => mret (Some w, Reject "Request has not string internal.peerName", [])
          end
      end
  | peer_close | peer_dump | peer_setCapabilities | peer_createTransport
  | peer_createRtpReceiver
  | transport_close | transport_dump | transport_setRemoteDtlsParameters
  | rtpReceiver_close | rtpReceiver_dump | rtpReceiver_receive
  | rtpReceiver_setRtpRawEvent | rtpReceiver_setRtpObjectEvent
  | rtpSender_dump | rtpSender_setTransport => to_peer w request
  | _ => mret (Some w, Reject "unknown method", [])
  end.

End Methods.

End Room.

(** ** Concrete collaborators and scenarios *)

Module Scenario.

(** Modelled from the spec: an [RtpStreamSend] that accepts every packet
    it is fed and retains the most recent [750] of them for
    retransmission; the real class is not part of the tree. *)
Definition RingStream : Type := list RtpPacket.

#[global] Instance ring_collaborators : Collaborators RingStream := {|
  ReceivePacket packet ring := (true, take 750 (packet :: ring));
  ClearRetransmissionBuffer _ := [];
  StreamToJson ring := JNum (Z.of_nat (length ring));
  ParametersToJson ps := JStr (cname ps);
|}.

(** Modelled from the spec: a [SeqManager] of width [w] with the
    contracts of the spec: [Sync] re-anchors the mapping, [Drop] marks a
    newer input as dropped, [Input] rejects a dropped input and shifts
    every later one down by the number of drops before it. *)
Record Manager (w : Z) := {
  base : Z;
  maxOutput : Z;
  maxInput : Z;
  dropped : gset Z;
}.

Arguments base {w} _.
Arguments maxOutput {w} _.
Arguments maxInput {w} _.
Arguments dropped {w} _.

Definition higher (w a b : Z) : bool := bool_decide (newer w b a).

Definition manager_sync {w} (input : Z) (m : Manager w) : Manager w :=
  {| base := (maxOutput m - input) mod 2 ^ w;
     maxOutput := maxOutput m; maxInput := input; dropped := ∅ |}.

Definition manager_drop {w} (input : Z) (m : Manager w) : Manager w :=
  if higher w input (maxInput m)
  then {| base := base m; maxOutput := maxOutput m;
          maxInput := maxInput m; dropped := dropped m ∪ {[input]} |}
  else m.

Definition manager_input {w} (input : Z) (m : Manager w) : option Z * Manager w :=
  if bool_decide (input ∈ dropped m) then (None, m)
  else
    let before := filter (λ x, higher w input x) (elements (dropped m)) in
    let output := (input + base m - Z.of_nat (length before)) mod 2 ^ w in
    (Some output,
     {| base := base m;
        maxOutput := if higher w output (maxOutput m)
                     then output else maxOutput m;
        maxInput := if higher w input (maxInput m)
                    then input else maxInput m;
        dropped := dropped m |}).

(** [SeqManager<uint16_t>] and [SeqManager<uint8_t>]. *)
#[global] Instance manager_seq (w : Z) : SeqManager (Manager w) := {|
  Sync := manager_sync; Drop := manager_drop; Input := manager_input;
  GetMaxInput := maxInput; IsSeqHigherThan := higher w;
|}.

Definition M16 : Type := Manager 16.
Definition M8 : Type := Manager 8.

Definition manager (w maxIn : Z) : Manager w :=
  {| base := 0; maxOutput := maxIn; maxInput := maxIn; dropped := ∅ |}.

(** Scenario S5 of the spec: VP8 payloads with a two-byte pictureId
    [256 + low], a tl0PictureIndex and a temporal layer index, followed by
    the first byte of an interframe; an encoding context whose target
    temporal layer is 0. *)
Definition layered_payload (low tl0 tlIndex : Z) : list Z :=
  [144; 224; 129; low; tl0; tlIndex * 64; 1].

(** A picture far ahead: its pictureId 513 is newer than 257 as a
    [uint16_t], which it is not modulo 2^8; its tlIndex is 1. *)
Definition distant_payload : list Z := [144; 224; 130; 1; 7; 64; 1].

(** The first packet of a key frame with pictureId 259, tlIndex 1 and
    y = 0. *)
Definition key_payload : list Z := [144; 224; 129; 3; 7; 64; 0].

Definition context0 : VP8.EncodingContext M16 M8 :=
  {| VP8.syncRequired := false;
     VP8.pictureIdManager := manager 16 257;
     VP8.tl0PictureIndexManager := manager 8 6;
     VP8.GetTargetTemporalLayer := 0;
     VP8.GetCurrentTemporalLayer := 0 |}.

(** The context of scenario S5 with other temporal layers. *)
Definition context_with (target current : Z) : VP8.EncodingContext M16 M8 :=
  {| VP8.syncRequired := false;
     VP8.pictureIdManager := manager 16 257;
     VP8.tl0PictureIndexManager := manager 8 6;
     VP8.GetTargetTemporalLayer := target;
     VP8.GetCurrentTemporalLayer := current |}.

(** Parse a payload and run the handler on it; the flag returned by
    [Process], the buffer afterwards and the next context. *)
Definition feed (context : VP8.EncodingContext M16 M8) (data : list Z)
  : option (bool * list Z * VP8.EncodingContext M16 M8) :=
  d ← VP8.Parse data;
  match VP8.Process d context data with
  | Ok (keep, context, data) => Some (keep, data, context)
  | Fault _ => None
  end.

Fixpoint feed_all (context : VP8.EncodingContext M16 M8) (payloads : list (list Z))
  : list (option (bool * list Z)) :=
  match payloads with
  | [] => []
  | data :: rest =>
      match feed context data with
      | Some (keep, data, context) => Some (keep, data) :: feed_all context rest
      | None => [None]
      end
  end.

(** Scenario S1 of the spec: a video consumer with ssrc 2000 bound to a
    transport, forwarding the single profile DEFAULT. *)
Definition parameters : RtpParameters :=
  {| codecs := [ {| payloadType := 101; clockRate := 90000 |} ];
     encodings := [ {| ssrc := 2000; codecPayloadType := 101 |} ];
     cname := "consumer" |}.

Definition consumer : Consumer.Consumer RingStream :=
  {| Consumer.consumerId := 7; Consumer.kind := VIDEO;
     Consumer.sourceProducerId := 3; Consumer.listeners := [1];
     Consumer.transport := Some 1; Consumer.rtpParameters := parameters;
     Consumer.rtpStream := Some []; Consumer.supportedCodecPayloadTypes := {[ 101 ]};
     Consumer.paused := false; Consumer.sourcePaused := false;
     Consumer.preferredProfile := NONE; Consumer.effectiveProfile := DEFAULT;
     Consumer.profiles := {[ DEFAULT ]}; Consumer.syncRequired := false;
     Consumer.seqNum := 1000; Consumer.rtpTimestamp := 5000;
     Consumer.lastRecvSeqNum := 100; Consumer.lastRecvRtpTimestamp := 9000;
     Consumer.transmittedCounter := {| packets := 0 |};
     Consumer.retransmittedCounter := {| packets := 0 |};
     Consumer.lastRtcpSentTime := 0; Consumer.maxRtcpInterval := 1000 |}.

Definition packet (seq ts : Z) : RtpPacket :=
  {| GetSsrc := 1000; GetSequenceNumber := seq; GetTimestamp := ts;
     GetPayloadType := 101; GetPayload := [144; 128; 5; 0] |}.

(** Scenario S3 of the spec: the producer offers LOW and HIGH. *)
Definition simulcast (preferred effective : Profile) (available : gset Profile)
  : Consumer.Consumer RingStream :=
  Consumer.set_profiles available
    (Consumer.set_effectiveProfile effective
       (Consumer.set_preferredProfile preferred consumer)).

(** Sets iterated in ascending order, as a [std::set] is. *)
#[global] Instance ascending_iteration : Iteration := {|
  iterate := ascending;
  iterate_Permutation s := merge_sort_Permutation Z.le (elements s);
|}.

(** A peer that accepts every request and holds nothing to close; the
    real [RTC::Peer] is not part of the tree. *)
Definition QuietPeer : Type := string.

#[global] Instance quiet_peers : Room.PeerCollaborators RingStream QuietPeer := {|
  Room.NewPeer _ peerName := inr peerName;
  Room.PeerToJson peerName := JStr peerName;
  Room.CapabilitiesToJson _ := JNull;
  Room.PeerClose _ w := (w, []);
  Room.PeerHandleRequest _ _ w := (w, Accept None, []);
|}.

Definition sender (id : Z) : RtpSender.RtpSender RingStream :=
  {| RtpSender.rtpSenderId := id; RtpSender.kind := VIDEO;
     RtpSender.listener := 1; RtpSender.rtpParameters := Some parameters;
     RtpSender.transport := Some 1; RtpSender.available := true;
     RtpSender.supportedPayloadTypes := {[ 101 ]};
     RtpSender.rtpStream := Some [] |}.

(** Scenario S6 of the spec: one receiver (at address 10) with two
    subscribed senders (at addresses 21 and 22), and a second receiver
    with a sender of its own. *)
Definition world : Room.World RingStream QuietPeer :=
  {| Room.room :=
       {| Room.roomId := 1; Room.capabilities := [];
          Room.peers := {[ 1 := "alice"; 2 := "bob" ]};
          Room.mapRtpReceiverRtpSenders :=
            {[ 10 := {[ 21; 22 ]}; 11 := {[ 23 ]} ]} |};
     Room.rtpSenders :=
       {[ 21 := sender 10000021; 22 := sender 10000022; 23 := sender 10000023 ]};
     Room.rtpReceivers := {[ 10 := 20000010; 11 := 20000011 ]} |}.

Definition unknown_request : Request :=
  {| methodId := other_method 0; internal := []; data := [] |}.

(** A stream that refuses a packet whose sequence number is not newer
    than that of the last packet it accepted; the real [RtpStreamSend] is
    not part of the tree. *)
Definition StrictStream : Type := option Z.

#[global] Instance strict_collaborators : Collaborators StrictStream | 10 := {|
  ReceivePacket packet last :=
    match last with
    | Some seq =>
        if bool_decide (newer 16 seq (GetSequenceNumber packet))
        then (true, Some (GetSequenceNumber packet)) else (false, last)
    | None => (true, Some (GetSequenceNumber packet))
    end;
  ClearRetransmissionBuffer last := last;
  StreamToJson last := JNum (default 0 last);
  ParametersToJson ps := JStr (cname ps);
|}.




End Scenario.

(** ** RTC::Consumer: NACK handling *)

(** The retransmission side of [RTC::RtpStreamSend] as [Consumer] calls it;
    its sources are not part of the tree.  [RequestRtpRetransmission]
    returns the retransmission container as it leaves it ([None] is a
    null entry); [RtxEncode] returns the encoded clone of the packet. *)
Class Retransmission (S : Type) := {
  RequestRtpRetransmission : Z → Z → S → list (option RtpPacket) * S;
  HasRtx : S → bool;
  RtxEncode : RtpPacket → S → RtpPacket * S;
}.

Module ConsumerNack.

Import Consumer.

Section Methods.
Context {S : Type} `{!Collaborators S, !Retransmission S}.

(** [Consumer::RetransmitRtpPacket] *)
Definition RetransmitRtpPacket (packet : RtpPacket) (c : Consumer S)
  : outcome (Consumer S * list Effect) :=
  stream ← deref NullPointer (rtpStream c);
  let '(rtxPacket, stream) :=
    if HasRtx stream then RtxEncode packet stream else (packet, stream) in
  let c := set_rtpStream (Some stream) c in
  (* Update retransmitted RTP data counter. *)
  let c := set_retransmittedCounter (Update rtxPacket (retransmittedCounter c)) c in
  (* Send the packet. *)
  _ ← deref NullPointer (transport c);
  mret (c, [TransportSend rtxPacket]).

(** The inner loop of [ReceiveNack]: the container is walked up to its
    first null entry. *)
Fixpoint retransmit_container (container : list (option RtpPacket)) (c : Consumer S)
  : outcome (Consumer S * list Effect) :=
  match container with
  | [] | None :: _ => mret (c, [])
  | Some packet :: rest =>
      '(c, effs) ← RetransmitRtpPacket packet c;
      '(c, effs') ← retransmit_container rest c;
      mret (c, effs ++ effs')
  end.

(** The outer loop of [ReceiveNack] over the items (packet id, bitmask of
    lost packets) of the NACK packet. *)
Fixpoint nack_items (items : list (Z * Z)) (c : Consumer S)
  : outcome (Consumer S * list Effect) :=
  match items with
  | [] => mret (c, [])
  | (packetId, lostPacketBitmask) :: rest =>
      stream ← deref NullPointer (rtpStream c);
      let '(container, stream) :=
        RequestRtpRetransmission packetId lostPacketBitmask stream in
      let c := set_rtpStream (Some stream) c in
      '(c, effs) ← retransmit_container container c;
      '(c, effs') ← nack_items rest c;
      mret (c, effs ++ effs')
  end.

(** [Consumer::ReceiveNack] *)
Definition ReceiveNack (items : list (Z * Z)) (c : Consumer S)
  : outcome (Consumer S * list Effect) :=
  if negb (IsEnabled c) then mret (c, []) else nack_items items c.

(** The entries of a container that precede its first null entry. *)
Fixpoint before_null (container : list (option RtpPacket)) : list RtpPacket :=
  match container with
  | Some packet :: rest => packet :: before_null rest
  | _ => []
  end.

(** What becomes of a list of packets that are retransmitted one after
    the other, and of the stream: a packet goes out as it is on a stream
    without RTX and as [RtxEncode] returns it on a stream with RTX. *)
Fixpoint rtx_encoded (packets : list RtpPacket) (stream : S)
  : list RtpPacket * S :=
  match packets with
  | [] => ([], stream)
  | packet :: rest =>
      let encoded :=
        if HasRtx stream then RtxEncode packet stream else (packet, stream) in
      let others := rtx_encoded rest encoded.2 in
      (encoded.1 :: others.1, others.2)
  end.

(** Everything but the stream and the retransmitted counter is the same
    in [c] and [c']. *)
Definition same_but_retransmission (c c' : Consumer S) : Prop :=
  set_retransmittedCounter (retransmittedCounter c) (set_rtpStream (rtpStream c) c')
  = c.

End Methods.

End ConsumerNack.

(** Streams for scenarios.  The container of the first holds the retained
    packets with the requested sequence number, then a null entry, then a
    stale entry; it has no RTX. *)
Module ScenarioNack.

#[global] Instance ring_retransmission : Retransmission Scenario.RingStream := {|
  RequestRtpRetransmission packetId _ ring :=
    ((Some <$> filter (λ p, GetSequenceNumber p = packetId) ring)
       ++ [None; Some (Scenario.packet 0 0)], ring);
  HasRtx _ := false;
  RtxEncode packet ring := (packet, ring);
|}.

(** Modelled from the spec: a stream with RTX configured (rtx ssrc 2001,
    rtx payload type 102) that retains the packets it accepts and counts
    its RTX sequence numbers.  [RtxEncode] makes the clone of scenario S2:
    the rtx ssrc, the rtx payload type, the next RTX sequence number, and
    the payload prefixed with the original sequence number.  The container
    holds the retained packets of the NACK window, oldest first, then a
    null entry, then a stale entry. *)
Record RtxStream := {
  retained : list RtpPacket;
  rtxSeq : Z;
}.

#[global] Instance rtx_collaborators : Collaborators RtxStream | 10 := {|
  ReceivePacket packet stream :=
    (true, {| retained := take 750 (packet :: retained stream);
              rtxSeq := rtxSeq stream |});
  ClearRetransmissionBuffer stream := {| retained := []; rtxSeq := rtxSeq stream |};
  StreamToJson stream := JNum (Z.of_nat (length (retained stream)));
  ParametersToJson ps := JStr (cname ps);
|}.

#[global] Instance rtx_retransmission : Retransmission RtxStream | 10 := {|
  RequestRtpRetransmission packetId lostPacketBitmask stream :=
    ((Some <$> reverse
        (filter (λ p, GetSequenceNumber p = packetId
                      ∨ Z.testbit lostPacketBitmask
                          (GetSequenceNumber p - packetId - 1) = true)
                (retained stream)))
       ++ [None; Some (Scenario.packet 0 0)], stream);
  HasRtx _ := true;
  RtxEncode packet stream :=
    ({| GetSsrc := 2001;
        GetSequenceNumber := wrap16 (rtxSeq stream + 1);
        GetTimestamp := GetTimestamp packet;
        GetPayloadType := 102;
        GetPayload := [Z.shiftr (GetSequenceNumber packet) 8;
                       Z.land (GetSequenceNumber packet) 255]
                        ++ GetPayload packet |},
     {| retained := retained stream; rtxSeq := wrap16 (rtxSeq stream + 1) |});
|}.

(** The packets 101 and 102 of scenario S1 as the consumer rewrote them,
    and the consumer after it has forwarded them on a stream with RTX. *)
Definition forwarded (seq ts : Z) (packet : RtpPacket) : RtpPacket :=
  SetTimestamp ts (SetSequenceNumber seq (SetSsrc 2000 packet)).

Definition rtx_after_two : Consumer.Consumer RtxStream :=
  {| Consumer.consumerId := 7; Consumer.kind := VIDEO;
     Consumer.sourceProducerId := 3; Consumer.listeners := [1];
     Consumer.transport := Some 1; Consumer.rtpParameters := Scenario.parameters;
     Consumer.rtpStream :=
       Some {| retained := [ forwarded 1002 12200 (Scenario.packet 102 16200);
                             forwarded 1001 8600 (Scenario.packet 101 12600) ];
               rtxSeq := 0 |};
     Consumer.supportedCodecPayloadTypes := {[ 101 ]};
     Consumer.paused := false; Consumer.sourcePaused := false;
     Consumer.preferredProfile := NONE; Consumer.effectiveProfile := DEFAULT;
     Consumer.profiles := {[ DEFAULT ]}; Consumer.syncRequired := false;
     Consumer.seqNum := 1002; Consumer.rtpTimestamp := 12200;
     Consumer.lastRecvSeqNum := 102; Consumer.lastRecvRtpTimestamp := 16200;
     Consumer.transmittedCounter := {| packets := 2 |};
     Consumer.retransmittedCounter := {| packets := 0 |};
     Consumer.lastRtcpSentTime := 0; Consumer.maxRtcpInterval := 1000 |}.

(** The RTX clone of a retransmitted packet of that consumer. *)
Definition rtx_clone (rtxSeq seq ts : Z) : RtpPacket :=
  {| GetSsrc := 2001; GetSequenceNumber := rtxSeq; GetTimestamp := ts;
     GetPayloadType := 102;
     GetPayload := [Z.shiftr seq 8; Z.land seq 255; 144; 128; 5; 0] |}.

End ScenarioNack.

(** ** RTC::Codecs::VP8: packets *)

Module VP8Packet.

Import VP8.

(** The number of bytes of the payload descriptor: the bytes [Encode] may
    touch and the byte that holds the temporal layer index. *)
Definition descriptor_length (d : PayloadDescriptor) : nat :=
  (encoded_length d + (if hasTlIndex d then 1 else 0))%nat.

Definition SetPayload (payload : list Z) (p : RtpPacket) : RtpPacket :=
  {| GetSsrc := GetSsrc p; GetSequenceNumber := GetSequenceNumber p;
     GetTimestamp := GetTimestamp p; GetPayloadType := GetPayloadType p;
     GetPayload := payload |}.

(** Modelled from the spec: [RtpPacket::ShiftPayload(offset, shift, true)]
    is declared outside the tree; the payload grows by [shift] bytes at
    [offset], the bytes from [offset] on moving up by [shift]. *)
Definition shifts (ShiftPayload : nat → nat → list Z → list Z) : Prop :=
  ∀ offset shift payload,
    (offset ≤ length payload)%nat →
    ∃ gap,
      length gap = shift
      ∧ ShiftPayload offset shift payload
        = take offset payload ++ gap ++ drop offset payload.

(** A shift that leaves zeroes in the gap. *)
Definition shift_up (offset shift : nat) (payload : list Z) : list Z :=
  take offset payload ++ replicate shift 0 ++ drop offset payload.

(** The descriptor after the pictureId has been expanded to two bytes. *)
Definition expanded (d : PayloadDescriptor) : PayloadDescriptor :=
  {| extended := extended d; nonReference := nonReference d; start := start d;
     partitionIndex := partitionIndex d; i := i d; l := l d; t := t d; k := k d;
     pictureId := pictureId d; tl0PictureIndex := tl0PictureIndex d;
     tlIndex := tlIndex d; y := y d; keyIndex := keyIndex d;
     isKeyFrame := isKeyFrame d; hasPictureId := hasPictureId d;
     hasOneBytePictureId := false; hasTwoBytesPictureId := true;
     hasTl0PictureIndex := hasTl0PictureIndex d; hasTlIndex := hasTlIndex d |}.

Section Packet.
Variable ShiftPayload : nat → nat → list Z → list Z.

(** [VP8::ProcessRtpPacket]: the packet afterwards and the descriptor of
    the handler attached to it, if any. *)
Definition ProcessRtpPacket (packet : RtpPacket)
  : outcome (RtpPacket * option PayloadDescriptor) :=
  match Parse (GetPayload packet) with
  | None => mret (packet, None)
  | Some d =>
      (* Modify the RtpPacket payload in order to always have two byte
         pictureId. *)
      if hasOneBytePictureId d then
        let data := ShiftPayload 2 1 (GetPayload packet) in
        data ← store 2 128 data;
        mret (SetPayload data packet, Some (expanded d))
      else mret (packet, Some d)
  end.

End Packet.

End VP8Packet.

(** ** RTC::Codecs::VP8: rewritten descriptors *)

Module VP8Rewrite.

Import VP8.

(** The descriptor [d] with another pictureId and tl0PictureIndex. *)
Definition with_ids (pictureId' tl0PictureIndex' : Z) (d : PayloadDescriptor)
  : PayloadDescriptor :=
  {| extended := extended d; nonReference := nonReference d; start := start d;
     partitionIndex := partitionIndex d; i := i d; l := l d; t := t d; k := k d;
     pictureId := pictureId'; tl0PictureIndex := tl0PictureIndex';
     tlIndex := tlIndex d; y := y d; keyIndex := keyIndex d;
     isKeyFrame := isKeyFrame d; hasPictureId := hasPictureId d;
     hasOneBytePictureId := hasOneBytePictureId d;
     hasTwoBytesPictureId := hasTwoBytesPictureId d;
     hasTl0PictureIndex := hasTl0PictureIndex d; hasTlIndex := hasTlIndex d |}.

(** What [Parse] reads from the pictureId field after [Encode] has written
    [pictureId'] to it: the two-byte form keeps fifteen bits. *)
Definition encoded_pictureId (d : PayloadDescriptor) (pictureId' : Z) : Z :=
  if hasTwoBytesPictureId d then pictureId' mod 2 ^ 15
  else if hasOneBytePictureId d then pictureId'
  else pictureId d.

(** The tl0PictureIndex field holds the low eight bits of the
    [uint8_t] written to it. *)
Definition encoded_tl0PictureIndex (d : PayloadDescriptor) (tl0PictureIndex' : Z)
  : Z :=
  if hasTl0PictureIndex d then wrap8 tl0PictureIndex' else tl0PictureIndex d.

End VP8Rewrite.

(** The encoding context of scenario S5 after the picture 258 has been
    forwarded and the picture 259, of temporal layer 1, dropped. *)
Module ScenarioVP8.

Definition after_drop : VP8.EncodingContext Scenario.M16 Scenario.M8 :=
  match Scenario.feed Scenario.context0 (Scenario.layered_payload 2 7 0) with
  | Some (_, _, context) =>
      match Scenario.feed context (Scenario.layered_payload 3 7 1) with
      | Some (_, _, context) => context
      | None => Scenario.context0
      end
  | None => Scenario.context0
  end.

End ScenarioVP8.


(** ** RTC::Room: capabilities *)

Module RoomCapabilities.

(** The fields of [RTC::RtpCodecParameters] that [Room::SetCapabilities]
    reads and writes. *)
Record MediaCodec := {
  kind : MediaKind;
  hasPayloadType : bool;
  payloadType : Z;
}.

(** [mediaCodec.payloadType = payloadType; mediaCodec.hasPayloadType = true] *)
Definition assign (v : Z) (mediaCodec : MediaCodec) : MediaCodec :=
  {| kind := kind mediaCodec; hasPayloadType := true; payloadType := v |}.

(** Available dynamic payload types. *)
Definition dynamicPayloadTypes : list Z :=
  [ 100; 101; 102; 103; 104; 105; 106; 107; 108; 109;
    110; 111; 112; 113; 114; 115; 116; 117; 118; 119;
    120; 121; 122; 123; 124; 125; 126; 127;
     96;  97;  98;  99;
     77;  78;  79;  80;  81;  82;  83;  84;  85;  86;
     87;  88;  89;  90;  91;  92;  93;  94;  95;
     35;  36;  37;  38;  39;  40;  41;  42;  43;  44;
     45;  46;  47;  48;  49;  50;  51;  52;  53;  54;
     55;  56;  57;  58;  59;  60;  61;  62;  63;  64;
     65;  66;  67;  68;  69;  70;  71 ].

(** The [while] loop over the iterator for available dynamic payload
    types: the payload type it assigns, if any, and the iterator
    afterwards. *)
Fixpoint next_free (dynamicPayloadTypeIt : list Z) (roomPayloadTypes : gset Z)
  : option Z * list Z :=
  match dynamicPayloadTypeIt with
  | [] => (None, [])
  | payloadType :: dynamicPayloadTypeIt =>
      if decide (payloadType ∈ roomPayloadTypes)
      then next_free dynamicPayloadTypeIt roomPayloadTypes
      else (Some payloadType, dynamicPayloadTypeIt)
  end.

(** The loop over the given room codecs, from the state it has reached:
    the iterator, the payload types used by the room and the codecs of the
    room capabilities.  It returns these codecs as the loop leaves them and
    the message of the error thrown, if any. *)
Fixpoint set_codecs (mediaCodecs : list MediaCodec)
    (dynamicPayloadTypeIt : list Z) (roomPayloadTypes : gset Z)
    (codecs : list MediaCodec) : list MediaCodec * option string :=
  match mediaCodecs with
  | [] => (codecs, None)
  | mediaCodec :: rest =>
      (* Set unique PT. *)
      let selected : string + MediaCodec * list Z :=
        (* If the codec has PT and it's not already used, let it untouched. *)
        if hasPayloadType mediaCodec
           && bool_decide (payloadType mediaCodec ∉ roomPayloadTypes)
        then inr (mediaCodec, dynamicPayloadTypeIt)
        (* Otherwise assign an available PT. *)
        else
          let '(found, dynamicPayloadTypeIt) :=
            next_free dynamicPayloadTypeIt roomPayloadTypes in
          let mediaCodec :=
            match found with
            | Some payloadType => assign payloadType mediaCodec
            | None => mediaCodec
            end in
          (* If no one found, throw. *)
          if negb (hasPayloadType mediaCodec)
          then inl "no more available dynamic payload types for given media codecs"
          else inr (mediaCodec, dynamicPayloadTypeIt) in
      match selected with
      | inl what => (codecs, Some what)
      | inr (mediaCodec, dynamicPayloadTypeIt) =>
          (* Store the selected PT and append the codec to the room
             capabilities. *)
          set_codecs rest dynamicPayloadTypeIt
            (roomPayloadTypes ∪ {[payloadType mediaCodec]})
            (codecs ++ [mediaCodec])
      end
  end.

(** [Room::SetCapabilities], on the codecs of [this->capabilities]. *)
Definition SetCapabilities (mediaCodecs : list MediaCodec)
    (codecs : list MediaCodec) : list MediaCodec * option string :=
  set_codecs mediaCodecs dynamicPayloadTypes ∅ codecs.

End RoomCapabilities.

(** Codecs for scenarios: three codecs of which the second asks for the
    payload type the first is given, and ninety codecs without a payload
    type. *)
Module ScenarioCapabilities.

Import RoomCapabilities.

Definition offered : list MediaCodec :=
  [ {| kind := AUDIO; hasPayloadType := false; payloadType := 0 |};
    {| kind := VIDEO; hasPayloadType := true; payloadType := 100 |};
    {| kind := VIDEO; hasPayloadType := true; payloadType := 96 |} ].

Definition too_many : list MediaCodec :=
  replicate 90 {| kind := VIDEO; hasPayloadType := false; payloadType := 0 |}.

End ScenarioCapabilities.

(** ** RTC::RtpSender: parameters *)

Module RtpSenderSend.

Import RtpSender.

Definition set_parameters {S} (ps : RtpParameters) (supported : gset Z)
    (isAvailable : bool) (stream : option S) (s : RtpSender S) : RtpSender S :=
  {| rtpSenderId := rtpSenderId s; kind := kind s; listener := listener s;
     rtpParameters := Some ps; transport := transport s;
     available := isAvailable; supportedPayloadTypes := supported;
     rtpStream := stream |}.

Section Methods.
Context {S C : Type} `{!Collaborators S, !Iteration}.

(** [RtpCodecParameters::Matches] on a codec capability of the peer, and
    the constructor of [RtpStreamSend] (clock rate, buffer size); their
    sources are not part of the tree. *)
Variable Matches : C → RtpCodecParameters → bool.
Variable NewRtpStreamSend : Z → Z → S.

(** The codec is matched by some codec capability of the peer. *)
Definition supported_codec (peerCodecs : list C) (codec : RtpCodecParameters)
  : Prop :=
  Exists (λ codecCapability, Matches codecCapability codec = true) peerCodecs.

(** The three steps of [Send] that remove the RTP parameters not
    supported by the peer: the codecs that stay, the payload types
    supported afterwards (the set is never cleared), and the encodings
    that stay. *)
Definition kept_codecs (peerCodecs : list C) (given : RtpParameters)
  : list RtpCodecParameters :=
  filter (supported_codec peerCodecs) (codecs given).

Definition supported_after (peerCodecs : list C) (given : RtpParameters)
    (s : RtpSender S) : gset Z :=
  supportedPayloadTypes s
  ∪ list_to_set (payloadType <$> kept_codecs peerCodecs given).

Definition kept_encodings (peerCodecs : list C) (given : RtpParameters)
    (s : RtpSender S) : list RtpEncodingParameters :=
  filter (λ encoding,
            codecPayloadType encoding ∈ supported_after peerCodecs given s)
         (encodings given).

(** [RtpSender::Send], given the codecs of [this->peerCapabilities] (a
    null pointer until [SetPeerCapabilities] is called).  The header
    extensions, which [ReduceHeaderExtensions] reduces, are not part of
    [RtpParameters] here. *)
Definition Send (peerCapabilities : option (list C))
    (given : option RtpParameters) (s : RtpSender S)
  : outcome (RtpSender S * list Effect) :=
  given ← deref AssertionFailed given;
  let previousRtpParameters := rtpParameters s in
  peerCodecs ← deref NullPointer peerCapabilities;
  (* Remove unsupported codecs. *)
  let kept := kept_codecs peerCodecs given in
  let supported := supported_after peerCodecs given s in
  (* Remove unsupported encodings. *)
  let encodings := kept_encodings peerCodecs given s in
  let ps := {| codecs := kept; encodings := encodings; cname := cname given |} in
  (* If there are no encodings set not available. *)
  '(isAvailable, stream) ←
    match encodings with
    | encoding :: _ =>
        let streamPayloadType := codecPayloadType encoding in
        match list_find (λ codec, payloadType codec = streamPayloadType) kept with
        | None => Fault AssertionFailed
        | Some (_, codec) =>
            let streamClockRate := clockRate codec in
            Ok (true,
                Some (NewRtpStreamSend streamClockRate
                        match kind s with
                        | VIDEO | DEPTH => 200
                        | AUDIO => 0
                        end))
        end
    | [] => Ok (false, rtpStream s)
    end;
  let s := set_parameters ps supported isAvailable stream s in
  (* Emit "parameterschange" if these are updated parameters. *)
  mret (s,
        match previousRtpParameters with
        | Some _ =>
            [Emit (rtpSenderId s) "parameterschange"
               [("class", JStr "RtpSender");
                ("rtpParameters", ParametersToJson ps);
                ("available", JBool isAvailable)]]
        | None => []
        end).

End Methods.

End RtpSenderSend.

(** A peer whose codec capabilities are payload types, streams that start
    empty, a sender as its constructor leaves it, and parameters whose
    only encoding names a payload type that none of their codecs has. *)
Module ScenarioSend.

Definition matches (codecCapability : Z) (codec : RtpCodecParameters) : bool :=
  bool_decide (payloadType codec = codecCapability).

Definition new_stream (clockRate bufferSize : Z) : Scenario.RingStream := [].

Definition fresh : RtpSender.RtpSender Scenario.RingStream :=
  {| RtpSender.rtpSenderId := 10000021; RtpSender.kind := VIDEO;
     RtpSender.listener := 1; RtpSender.rtpParameters := None;
     RtpSender.transport := Some 1; RtpSender.available := false;
     RtpSender.supportedPayloadTypes := ∅;
     RtpSender.rtpStream := None |}.

Definition renegotiated : RtpParameters :=
  {| codecs := [ {| payloadType := 96; clockRate := 90000 |} ];
     encodings := [ {| ssrc := 2000; codecPayloadType := 101 |} ];
     cname := "consumer" |}.

End ScenarioSend.

(** ** RTC::Room: the fan-out map and the live senders *)

Module RoomInvariant.

Import RtpSender Room.

Section Invariant.
Context {S P : Type}.

(** Every sender the fan-out map points to is a live object. *)
Definition no_dangling (w : World S P) : Prop :=
  ∀ rtpReceiver senders rtpSender,
    mapRtpReceiverRtpSenders (room w) !! rtpReceiver = Some senders →
    rtpSender ∈ senders →
    is_Some (rtpSenders w !! rtpSender).

(** Every receiver that has an entry in the fan-out map is a live
    object. *)
Definition receivers_live (w : World S P) : Prop :=
  ∀ rtpReceiver,
    is_Some (mapRtpReceiverRtpSenders (room w) !! rtpReceiver) →
    is_Some (rtpReceivers w !! rtpReceiver).

(** The assertion of [RtpSender::SendRtpPacket] holds: a sender that is
    available and has a transport has a stream. *)
Definition can_send (this : RtpSender S) : Prop :=
  available this = true → transport this ≠ None → is_Some (rtpStream this).

(** The senders differ in their streams at most. *)
Definition same_but_stream (this this' : RtpSender S) : Prop :=
  set_rtpStream (rtpStream this) this' = this.

End Invariant.

End RoomInvariant.

(** A request to create the peer 3, named carol. *)
Module ScenarioRoom.

Definition create_carol : Request :=
  {| methodId := room_createPeer;
     internal := [("peerId", JNum 3); ("peerName", JStr "carol")];
     data := [] |}.

End ScenarioRoom.

(** ** RTC::RtpSender: NACK handling *)

Module RtpSenderNack.

Import RtpSender.

Section Methods.
Context {S : Type} `{!Collaborators S, !Retransmission S, !Iteration}.

(** [RtpSender::RetransmitRtpPacket]: no RTX for now, the packet is sent
    as usual. *)
Definition RetransmitRtpPacket (packet : RtpPacket) (s : RtpSender S)
  : outcome (RtpSender S * list Effect) :=
  if negb (available s) || bool_decide (transport s = None) then mret (s, [])
  else SendRtpPacket s packet.

(** The inner loop of [ReceiveNack] over the retransmission container, up
    to its first null entry. *)
Fixpoint retransmit_container (container : list (option RtpPacket))
    (s : RtpSender S) : outcome (RtpSender S * list Effect) :=
  match container with
  | [] | None :: _ => mret (s, [])
  | Some packet :: rest =>
      '(s, effs) ← RetransmitRtpPacket packet s;
      '(s, effs') ← retransmit_container rest s;
      mret (s, effs ++ effs')
  end.

(** The outer loop of [ReceiveNack] over the items (packet id, bitmask of
    lost packets) of the NACK packet. *)
Fixpoint nack_items (items : list (Z * Z)) (s : RtpSender S)
  : outcome (RtpSender S * list Effect) :=
  match items with
  | [] => mret (s, [])
  | (packetId, lostPacketBitmask) :: rest =>
      stream ← deref NullPointer (rtpStream s);
      let '(container, stream) :=
        RequestRtpRetransmission packetId lostPacketBitmask stream in
      let s := set_rtpStream (Some stream) s in
      '(s, effs) ← retransmit_container container s;
      '(s, effs') ← nack_items rest s;
      mret (s, effs ++ effs')
  end.

(** [RtpSender::ReceiveNack] *)
Definition ReceiveNack (items : list (Z * Z)) (s : RtpSender S)
  : outcome (RtpSender S * list Effect) :=
  match rtpStream s with
  | None => mret (s, [])
  | Some _ => nack_items items s
  end.

(** What a loop of [ReceiveNack] leaves behind: a sender that differs in
    its stream at most and still has one, and packets of supported
    payload types handed to the transport, none if the sender is not
    available or has no transport. *)
Definition retransmitted (s s' : RtpSender S) (effs : list Effect) : Prop :=
  RoomInvariant.same_but_stream s s'
  ∧ is_Some (rtpStream s')
  ∧ Forall (λ e, ∃ q, e = TransportSend q
                      ∧ GetPayloadType q ∈ supportedPayloadTypes s) effs
  ∧ (available s = false ∨ transport s = None → effs = []).

End Methods.

End RtpSenderNack.

(** * Theorems *)

(** ** Outcomes and fixed-width arithmetic *)

Lemma bind_Ok {A B} (m : outcome A) (k : A → outcome B) (b : B) :
  m ≫= k = Ok b ↔ ∃ a, m = Ok a ∧ k a = Ok b.
Proof.
  destruct m as [a|f]; simpl.
  - split; [eauto | intros (a' & [= <-] & ?); done].
  - split; [done | intros (a' & [=] & _)].
Qed.

Lemma deref_Some {A} (f : fault) (o : option A) (a : A) :
  o = Some a → deref f o = Ok a.
Proof. by intros ->. Qed.

Lemma newer_after_add (w x d : Z) :
  0 < w → newer w x ((x + d) mod 2 ^ w) ↔ 0 < d mod 2 ^ w < 2 ^ (w - 1).
Proof.
  intros Hw. unfold newer.
  assert (((x + d) mod 2 ^ w - x) mod 2 ^ w = d mod 2 ^ w) as ->; [|done].
  rewrite Zminus_mod_idemp_l. f_equal. lia.
Qed.

Lemma not_older_after_add (w x d : Z) :
  0 < w → not_older w x ((x + d) mod 2 ^ w) ↔ d mod 2 ^ w < 2 ^ (w - 1).
Proof.
  intros Hw. unfold not_older.
  assert (((x + d) mod 2 ^ w - x) mod 2 ^ w = d mod 2 ^ w) as ->; [|done].
  rewrite Zminus_mod_idemp_l. f_equal. lia.
Qed.

(** ** RTC::Consumer *)

Module ConsumerFacts.

Import Consumer.

Section Facts.
Context {S : Type} `{!Collaborators S}.

Implicit Types (c : Consumer S) (packet : RtpPacket) (profile : Profile).

Lemma passes_checks_true c packet profile :
  passes_checks c packet profile = true ↔
  transport c ≠ None ∧ paused c = false ∧ sourcePaused c = false
  ∧ GetPayloadType packet ∈ supportedCodecPayloadTypes c
  ∧ profile = effectiveProfile c.
Proof.
  unfold passes_checks, IsEnabled, IsPaused.
  rewrite !andb_true_iff, negb_true_iff, orb_false_iff, !bool_decide_eq_true.
  tauto.
Qed.

Lemma advance_frame c packet now :
  transport (advance c packet now) = transport c
  ∧ rtpParameters (advance c packet now) = rtpParameters c
  ∧ rtpStream (advance c packet now) = rtpStream c
  ∧ transmittedCounter (advance c packet now) = transmittedCounter c
  ∧ lastRecvSeqNum (advance c packet now) = GetSequenceNumber packet
  ∧ lastRecvRtpTimestamp (advance c packet now) = GetTimestamp packet.
Proof.
  unfold advance. destruct (syncRequired c); [case_decide|]; done.
Qed.

Lemma advance_sync c packet now :
  syncRequired c = true →
  seqNum (advance c packet now) = wrap16 (seqNum c + 1)
  ∧ rtpTimestamp (advance c packet now) = Z.max (rtpTimestamp c) (wrap32 now)
  ∧ syncRequired (advance c packet now) = false.
Proof.
  intros Hsync. unfold advance. rewrite Hsync.
  generalize (wrap32 now) as n. intros n.
  case_decide as Hnow; simpl in Hnow |- *; (split; [done | split; [lia | done]]).
Qed.

Lemma advance_delta c packet now :
  syncRequired c = false →
  seqNum (advance c packet now)
  = wrap16 (seqNum c + (GetSequenceNumber packet - lastRecvSeqNum c))
  ∧ rtpTimestamp (advance c packet now)
    = wrap32 (rtpTimestamp c + wrap32 (GetTimestamp packet - lastRecvRtpTimestamp c)).
Proof. intros Hsync. unfold advance. by rewrite Hsync. Qed.

(** A packet that fails one of the four checks leaves everything as it
    is. *)
Lemma SendRtpPacket_dropped c packet profile now :
  passes_checks c packet profile = false →
  SendRtpPacket c packet profile now = Ok (c, packet, []).
Proof.
  unfold passes_checks, SendRtpPacket. intros Hdrop.
  destruct (IsEnabled c); [|done]. destruct (IsPaused c); [done|].
  simpl in *. repeat case_bool_decide; simpl in *; done.
Qed.

(** The forwarding path of [SendRtpPacket], written out. *)
Lemma SendRtpPacket_forwarded c packet profile now stream encoding :
  passes_checks c packet profile = true →
  rtpStream c = Some stream →
  encodings (rtpParameters c) !! 0%nat = Some encoding →
  let c1 := advance c packet now in
  let q := rewritten c1 encoding packet in
  let r := ReceivePacket q stream in
  SendRtpPacket c packet profile now
  = Ok (if r.1
        then set_transmittedCounter (Update q (transmittedCounter c1))
               (set_rtpStream (Some r.2) c1)
        else set_rtpStream (Some r.2) c1,
        packet,
        if r.1 then [TransportSend q] else []).
Proof.
  intros Hpass Hstream Henc.
  pose proof Hpass as (Ht & Hp & Hsp & Hpt & Hprof)%passes_checks_true.
  destruct (advance_frame c packet now) as (_ & Hps & Hst & _ & Hsq & Hts).
  unfold SendRtpPacket, IsEnabled, IsPaused.
  rewrite Hp, Hsp, (bool_decide_eq_true_2 _ Ht).
  cbn [negb orb].
  rewrite bool_decide_eq_false_2 by (intros Hn; by apply Hn).
  rewrite bool_decide_eq_false_2 by (intros Hn; by apply Hn).
  generalize dependent (advance c packet now). intros c1 Hps Hst Hsq Hts.
  rewrite Hps, Henc. cbn [deref mbind outcome_bind].
  rewrite Hst, Hstream. cbn [deref mbind outcome_bind].
  fold (rewritten c1 encoding packet).
  destruct (ReceivePacket (rewritten c1 encoding packet) stream) as [[] stream'];
    simpl; rewrite ?Hsq, ?Hts; by destruct packet.
Qed.

(** C4: a packet that arrives while the Consumer is not Enabled, or is
    paused (locally or by its source), or whose payload type is not
    supported, or whose profile is not the effective one, is not handed to
    the transport, and the whole Consumer (counters included) and the
    packet are left as they were. *)
Theorem SendRtpPacket_drop_checks c packet profile now :
  IsEnabled c = false ∨ paused c = true ∨ sourcePaused c = true
  ∨ GetPayloadType packet ∉ supportedCodecPayloadTypes c
  ∨ profile ≠ effectiveProfile c →
  SendRtpPacket c packet profile now = Ok (c, packet, []).
Proof.
  intros Hdrop. apply SendRtpPacket_dropped.
  destruct (passes_checks c packet profile) eqn:Hpass; [|done].
  apply passes_checks_true in Hpass as (Ht & Hp & Hsp & Hpt & Hprof).
  unfold IsEnabled in Hdrop. rewrite bool_decide_eq_false in Hdrop.
  destruct Hdrop as [?|[?|[?|[?|?]]]]; congruence || tauto.
Qed.

(** C5: a packet that passes the drop checks while a sync is pending moves
    the output sequence number on by exactly one, sets the output
    timestamp to the maximum of its value and the clock, and clears the
    pending sync. *)
Theorem SendRtpPacket_sync c packet profile now :
  bound c →
  passes_checks c packet profile = true →
  syncRequired c = true →
  ∃ c' effs,
    SendRtpPacket c packet profile now = Ok (c', packet, effs)
    ∧ seqNum c' = wrap16 (seqNum c + 1)
    ∧ rtpTimestamp c' = Z.max (rtpTimestamp c) (wrap32 now)
    ∧ syncRequired c' = false.
Proof.
  intros Hbound Hpass Hsync.
  pose proof Hpass as (Ht & _)%passes_checks_true.
  destruct (Hbound Ht) as [[stream Hstream] [encoding Henc]].
  rewrite (SendRtpPacket_forwarded _ _ _ now _ _ Hpass Hstream Henc).
  destruct (advance_sync c packet now Hsync) as (Hseq & Hts & Hclear).
  eexists _, _. split; [reflexivity|].
  destruct (ReceivePacket _ stream) as [[] stream']; simpl; auto.
Qed.

(** C3: when [SendRtpPacket] returns, the SSRC, the sequence number and the
    timestamp of the borrowed packet are the ones it had at entry, whether
    the packet was dropped, refused by the stream or transmitted. *)
Theorem SendRtpPacket_restores_packet c packet profile now :
  bound c →
  ∃ c' packet' effs,
    SendRtpPacket c packet profile now = Ok (c', packet', effs)
    ∧ GetSsrc packet' = GetSsrc packet
    ∧ GetSequenceNumber packet' = GetSequenceNumber packet
    ∧ GetTimestamp packet' = GetTimestamp packet.
Proof.
  intros Hbound.
  destruct (passes_checks c packet profile) eqn:Hpass.
  - pose proof Hpass as (Ht & _)%passes_checks_true.
    destruct (Hbound Ht) as [[stream Hstream] [encoding Henc]].
    rewrite (SendRtpPacket_forwarded _ _ _ now _ _ Hpass Hstream Henc).
    by eexists _, _, _.
  - rewrite (SendRtpPacket_dropped _ _ _ now Hpass). by eexists _, _, _.
Qed.

(** *** Runs: what the control operations leave alone *)

Lemma clear_buffer_Ok c c' :
  clear_buffer c = Ok c' → same_output c c'.
Proof.
  unfold clear_buffer. intros (s & _ & [= <-])%bind_Ok. done.
Qed.

Lemma RecalculateEffectiveProfile_output c c' effs :
  RecalculateEffectiveProfile c = Ok (c', effs) →
  same_output c c' ∧ sent effs = [].
Proof.
  unfold RecalculateEffectiveProfile.
  intros (newProfile & _ & Hrest)%bind_Ok.
  case_decide; [by injection Hrest as <- <-|].
  destruct (_ && _).
  - apply bind_Ok in Hrest as (c1 & [Hs Ht]%clear_buffer_Ok & [= <- <-]).
    split; [done|]. unfold RequestFullFrame. simpl.
    destruct (negb _); [done|]. destruct (_ || _); [done|].
    by induction (listeners c1).
  - by injection Hrest as <- <-.
Qed.

Lemma RequestFullFrame_sent c : sent (RequestFullFrame c) = [].
Proof.
  unfold RequestFullFrame. destruct (negb _); [done|].
  destruct (_ || _); [done|]. by induction (listeners c).
Qed.

Lemma step_control c i c' effs :
  (∀ packet profile now, i ≠ InRtpPacket packet profile now) →
  step c i = Ok (c', effs) →
  same_output c c' ∧ sent effs = [].
Proof.
  intros Hctl Hstep. destruct i; simpl in Hstep.
  - by destruct (Hctl packet profile now).
  - unfold Pause in Hstep. destruct (paused c); [by injection Hstep as <- <-|].
    destruct (_ && _).
    + by apply bind_Ok in Hstep as (c1 & ?%clear_buffer_Ok & [= <- <-]).
    + by injection Hstep as <- <-.
  - unfold Resume in Hstep. destruct (negb _); [by injection Hstep as <- <-|].
    destruct (_ && _); injection Hstep as <- <-; [|done].
    by rewrite RequestFullFrame_sent.
  - unfold SourcePause in Hstep.
    destruct (sourcePaused c); [by injection Hstep as <- <-|].
    destruct (_ && _).
    + by apply bind_Ok in Hstep as (c1 & ?%clear_buffer_Ok & [= <- <-]).
    + by injection Hstep as <- <-.
  - unfold SourceResume in Hstep.
    destruct (negb _); [by injection Hstep as <- <-|].
    destruct (_ && _); injection Hstep as <- <-; [|done].
    simpl. by rewrite RequestFullFrame_sent.
  - unfold SourceRtpParametersUpdated in Hstep.
    destruct (negb _); [by injection Hstep as <- <-|].
    by apply bind_Ok in Hstep as (c1 & ?%clear_buffer_Ok & [= <- <-]).
  - by apply RecalculateEffectiveProfile_output in Hstep.
  - by apply RecalculateEffectiveProfile_output in Hstep.
  - unfold SetPreferredProfile in Hstep.
    case_decide; [by injection Hstep as <- <-|].
    by apply RecalculateEffectiveProfile_output in Hstep.
Qed.

(** A packet that passes the four checks moves the output counters by
    its steps, and what is transmitted, if anything, carries them. *)
Lemma advance_moves c packet now :
  (seqNum (advance c packet now) - (seqNum c + seq_step c packet)) mod 2 ^ 16 = 0
  ∧ (rtpTimestamp (advance c packet now)
     - (rtpTimestamp c + ts_step c packet now)) mod 2 ^ 32 = 0.
Proof.
  unfold seq_step, ts_step. destruct (syncRequired c) eqn:Hsync.
  - destruct (advance_sync c packet now Hsync) as (-> & -> & _).
    unfold wrap16. rewrite Zminus_mod_idemp_l. split.
    + by rewrite Z.sub_diag.
    + by replace (_ - _) with 0 by lia.
  - destruct (advance_delta c packet now Hsync) as (-> & ->).
    unfold wrap16, wrap32. rewrite !Zminus_mod_idemp_l. split.
    + by rewrite Z.sub_diag.
    + match goal with
      | |- (?r + ?d mod ?m - (?r + ?d)) mod ?m = 0 =>
          replace (r + d mod m - (r + d)) with (d mod m - d) by lia
      end.
      by rewrite Zminus_mod_idemp_l, Z.sub_diag.
Qed.

Lemma SendRtpPacket_passed c packet profile now c' p' effs :
  passes_checks c packet profile = true →
  SendRtpPacket c packet profile now = Ok (c', p', effs) →
  seqNum c' = seqNum (advance c packet now)
  ∧ rtpTimestamp c' = rtpTimestamp (advance c packet now)
  ∧ (sent effs = []
     ∨ ∃ q, sent effs = [q] ∧ GetSequenceNumber q = seqNum c'
            ∧ GetTimestamp q = rtpTimestamp c').
Proof.
  intros Hpass Hsend.
  destruct (rtpStream c) as [stream|] eqn:Hstream; cycle 1.
  { exfalso. revert Hsend. unfold SendRtpPacket.
    apply passes_checks_true in Hpass as (Ht & Hp & Hsp & Hpt & Hprof).
    unfold IsEnabled, IsPaused. rewrite Hp, Hsp, (bool_decide_eq_true_2 _ Ht).
    cbn [negb orb].
    rewrite !bool_decide_eq_false_2 by (intros Hn; by apply Hn).
    destruct (advance_frame c packet now) as (_ & _ & -> & _).
    rewrite Hstream. by destruct (_ !! _). }
  destruct (encodings (rtpParameters c) !! 0%nat) as [encoding|] eqn:Henc; cycle 1.
  { exfalso. revert Hsend. unfold SendRtpPacket.
    apply passes_checks_true in Hpass as (Ht & Hp & Hsp & Hpt & Hprof).
    unfold IsEnabled, IsPaused. rewrite Hp, Hsp, (bool_decide_eq_true_2 _ Ht).
    cbn [negb orb].
    rewrite !bool_decide_eq_false_2 by (intros Hn; by apply Hn).
    destruct (advance_frame c packet now) as (_ & -> & _).
    by rewrite Henc. }
  rewrite (SendRtpPacket_forwarded _ _ _ now _ _ Hpass Hstream Henc) in Hsend.
  destruct (ReceivePacket _ stream) as [[] stream']; injection Hsend as <- _ <-.
  - split; [done|]. split; [done|]. right. by eexists.
  - split; [done|]. split; [done|]. by left.
Qed.

(** Shifting the older value by a multiple of [2^w] changes neither
    comparison. *)
Lemma mod_shift (w x y b : Z) :
  0 ≤ w → (x - y) mod 2 ^ w = 0 → (b - x) mod 2 ^ w = (b - y) mod 2 ^ w.
Proof.
  intros Hw Hxy. apply Z.mod_divide in Hxy as [k Hk]; [|lia].
  replace (b - x) with (b - y + (- k) * 2 ^ w) by lia.
  apply Z_mod_plus_full.
Qed.

Lemma HdRel_newer_shift x y l :
  (x - y) mod 2 ^ 16 = 0 → HdRel (newer 16) x l ↔ HdRel (newer 16) y l.
Proof.
  intros Hxy. destruct l as [|b l]; [split; constructor|].
  split; intros Hb%HdRel_inv; constructor; unfold newer in *.
  - by rewrite <- (mod_shift 16 x y b) by (lia || done).
  - by rewrite (mod_shift 16 x y b) by (lia || done).
Qed.

Lemma HdRel_not_older_shift x y l :
  (x - y) mod 2 ^ 32 = 0 → HdRel (not_older 32) x l ↔ HdRel (not_older 32) y l.
Proof.
  intros Hxy. destruct l as [|b l]; [split; constructor|].
  split; intros Hb%HdRel_inv; constructor; unfold not_older in *.
  - by rewrite <- (mod_shift 32 x y b) by (lia || done).
  - by rewrite (mod_shift 32 x y b) by (lia || done).
Qed.

(** What one input does to the output counters, to the distance covered
    and to the transport. *)
Lemma step_widen c i c' effs gap :
  step c i = Ok (c', effs) →
  (sent effs = []
   ∨ ∃ q, sent effs = [q] ∧ GetSequenceNumber q = seqNum c'
          ∧ GetTimestamp q = rtpTimestamp c')
  ∧ match gap with
    | None => widen c i gap = None
    | Some (dseq, dts) =>
        ∃ dseq' dts',
          widen c i gap = Some (dseq', dts')
          ∧ ((seqNum c' - dseq') - (seqNum c - dseq)) mod 2 ^ 16 = 0
          ∧ ((rtpTimestamp c' - dts') - (rtpTimestamp c - dts)) mod 2 ^ 32 = 0
    end.
Proof.
  intros Hstep.
  assert (∀ x d : Z, x - d - (x - d) = 0) as Hsame by (intros; lia).
  destruct i as [packet profile now| | | | | | | |];
    try (apply step_control in Hstep as [[-> ->] ->]; [|done];
         split; [by left|]; destruct gap as [[dseq dts]|]; [|done];
         eexists _, _; split; [done|]; by rewrite !Hsame).
  simpl in Hstep. apply bind_Ok in Hstep as ([[c1 p1] effs1] & Hsend & [= <- <-]).
  cbn [widen]. destruct (passes_checks c packet profile) eqn:Hpass.
  - destruct (SendRtpPacket_passed _ _ _ _ _ _ _ Hpass Hsend) as (Hs & Ht & Hsent).
    split; [done|]. destruct gap as [[dseq dts]|]; [|done].
    eexists _, _. split; [done|]. cbn [fst snd]. rewrite Hs, Ht.
    destruct (advance_moves c packet now) as [Hseq Hts]. split.
    + rewrite <- Hseq. f_equal. lia.
    + rewrite <- Hts. f_equal. lia.
  - rewrite (SendRtpPacket_dropped _ _ _ now Hpass) in Hsend.
    injection Hsend as <- <- <-. split; [by left|].
    destruct gap as [[dseq dts]|]; [|done].
    eexists _, _; split; [done|]; by rewrite !Hsame.
Qed.

(** A run is spaced exactly when what it transmits is in order, also with
    respect to the packet transmitted last before it. *)
Lemma spaced_iff gap c inputs :
  spaced gap c inputs ↔
  monotone_output c inputs
  ∧ match gap with
    | None => True
    | Some (dseq, dts) =>
        HdRel (newer 16) (seqNum c - dseq)
          (GetSequenceNumber <$> sent (trace c inputs))
        ∧ HdRel (not_older 32) (rtpTimestamp c - dts)
            (GetTimestamp <$> sent (trace c inputs))
    end.
Proof.
  revert gap c. induction inputs as [|i rest IH]; intros gap c.
  { unfold monotone_output. cbn [spaced trace sent omap fmap list_fmap].
    split; [intros _|done].
    split; [split; constructor|]. destruct gap as [[dseq dts]|]; [|done].
    split; constructor. }
  unfold monotone_output in *. cbn [spaced trace].
  destruct (step c i) as [[c' effs]|f] eqn:Hstep; cycle 1.
  { cbn [sent omap fmap list_fmap].
    split; [intros _|done].
    split; [split; constructor|]. destruct gap as [[dseq dts]|]; [|done].
    split; constructor. }
  destruct (step_widen c i c' effs gap Hstep) as [Hsent Hgap].
  unfold sent in *. rewrite omap_app, !fmap_app. fold (sent effs) in *.
  fold (sent (trace c' rest)) in *.
  destruct Hsent as [-> | (q & -> & Hq1 & Hq2)].
  - cbn [app fmap list_fmap]. rewrite IH.
    destruct gap as [[dseq dts]|]; [|by rewrite Hgap].
    destruct Hgap as (dseq' & dts' & -> & Hseq & Hts).
    by rewrite (HdRel_newer_shift _ _ _ Hseq), (HdRel_not_older_shift _ _ _ Hts).
  - cbn [app fmap list_fmap]. rewrite Hq1, Hq2, IH, !Z.sub_0_r.
    set (seqs := GetSequenceNumber <$> sent (trace c' rest)).
    set (tss := GetTimestamp <$> sent (trace c' rest)).
    assert (∀ A (R : A → A → Prop) x l,
              Sorted R (x :: l) ↔ Sorted R l ∧ HdRel R x l) as Hcons.
    { intros A R x l. split; [by intros ?%Sorted_inv|intros []; by constructor]. }
    rewrite !Hcons.
    destruct gap as [[dseq dts]|].
    + destruct Hgap as (dseq' & dts' & -> & Hseq & Hts).
      assert (HdRel (newer 16) (seqNum c - dseq) (seqNum c' :: seqs)
              ↔ 0 < wrap16 dseq' < 2 ^ 15) as ->.
      { rewrite <- (HdRel_newer_shift _ _ _ Hseq).
        split; [intros Hb%HdRel_inv|intros Hb; constructor];
          unfold newer, wrap16 in *;
          by replace (seqNum c' - (seqNum c' - dseq')) with dseq' in * by lia. }
      assert (HdRel (not_older 32) (rtpTimestamp c - dts) (rtpTimestamp c' :: tss)
              ↔ wrap32 dts' < 2 ^ 31) as ->.
      { rewrite <- (HdRel_not_older_shift _ _ _ Hts).
        split; [intros Hb%HdRel_inv|intros Hb; constructor];
          unfold not_older, wrap32 in *;
          by replace (rtpTimestamp c' - (rtpTimestamp c' - dts')) with dts' in *
            by lia. }
      tauto.
    + rewrite Hgap. tauto.
Qed.


(** The hypothesis of C2 as amended is the weakest one: a run whose
    output is monotone is spaced. *)
Lemma monotone_output_spaced c inputs :
  monotone_output c inputs → spaced None c inputs.
Proof. intros Hmono. by apply spaced_iff. Qed.

End Facts.

Lemma SendRtpPacket_drop_checks_paused :
  paused (set_paused true Scenario.consumer) = true
  ∧ SendRtpPacket (set_paused true Scenario.consumer) (Scenario.packet 101 9100)
      DEFAULT 0
    = Ok (set_paused true Scenario.consumer, Scenario.packet 101 9100, []).
Proof.
  split; [reflexivity|].
  apply SendRtpPacket_drop_checks. right; left. reflexivity.
Defined.

Lemma bound_scenario : bound Scenario.consumer.
Proof. intros _. split; eexists; reflexivity. Qed.

Lemma SendRtpPacket_sync_scenario :
  bound (set_syncRequired true Scenario.consumer)
  ∧ passes_checks (set_syncRequired true Scenario.consumer)
      (Scenario.packet 500 100) DEFAULT = true
  ∧ ∃ c' effs,
      SendRtpPacket (set_syncRequired true Scenario.consumer)
        (Scenario.packet 500 100) DEFAULT 6000
      = Ok (c', Scenario.packet 500 100, effs)
      ∧ seqNum c' = 1001 ∧ rtpTimestamp c' = 6000 ∧ syncRequired c' = false.
Proof.
  assert (bound (set_syncRequired true Scenario.consumer)) as Hbound
    by (intros _; split; eexists; reflexivity).
  split; [exact Hbound|]. split; [reflexivity|].
  apply (SendRtpPacket_sync (set_syncRequired true Scenario.consumer)
           (Scenario.packet 500 100) DEFAULT 6000 Hbound); reflexivity.
Defined.

Lemma SendRtpPacket_restores_packet_scenario :
  bound Scenario.consumer
  ∧ ∃ c' packet' effs,
      SendRtpPacket Scenario.consumer (Scenario.packet 101 9100) DEFAULT 0
      = Ok (c', packet', effs)
      ∧ GetSsrc packet' = 1000
      ∧ GetSequenceNumber packet' = 101
      ∧ GetTimestamp packet' = 9100.
Proof.
  split; [exact bound_scenario|].
  apply (SendRtpPacket_restores_packet Scenario.consumer
           (Scenario.packet 101 9100) DEFAULT 0 bound_scenario).
Defined.



(** C1 (the code departs from the claim and from its own comment): with
    LOW and HIGH available and MEDIUM preferred, the claim selects LOW,
    the greatest available profile not above MEDIUM;
    [RecalculateEffectiveProfile] makes HIGH the effective profile, which
    is above the preferred one. *)
Theorem RecalculateEffectiveProfile_overshoots_preferred :
  ∃ c' effs,
    RecalculateEffectiveProfile (Scenario.simulcast MEDIUM LOW {[ LOW; HIGH ]})
    = Ok (c', effs)
    ∧ preferredProfile c' = MEDIUM
    ∧ effectiveProfile c' = HIGH
    ∧ ¬ profile_le (effectiveProfile c') (preferredProfile c')
    ∧ LOW ∈ profiles c' ∧ profile_le LOW (preferredProfile c').
Proof.
  eexists _, _. split; [reflexivity|].
  repeat split; try (apply bool_decide_unpack; by vm_compute);
    unfold profile_le; simpl; lia.
Qed.

(** C10 (the code dereferences an invalid iterator): starting from the
    initial set {NONE}, adding LOW and removing it again leaves the set
    empty, and [RemoveProfile] dereferences [crbegin()] of the empty set;
    with only LOW available, preferring HIGH makes [lower_bound] return
    [end()], which [SetPreferredProfile] dereferences. *)
Theorem RemoveProfile_last_profile_invalid_iterator :
  (AddProfile LOW (Scenario.simulcast NONE NONE {[ NONE ]})
     ≫= λ '(c, _), RemoveProfile LOW c) = Fault InvalidIterator
  ∧ SetPreferredProfile HIGH (Scenario.simulcast NONE LOW {[ LOW ]})
    = Fault InvalidIterator.
Proof. split; reflexivity. Qed.

End ConsumerFacts.

(** ** RTC::Codecs::VP8 *)

Module VP8Facts.

Import VP8.

Lemma byte_cases (P : Z → Prop) `{!∀ b, Decision (P b)} :
  bool_decide (Forall P (seqZ 0 256)) = true → ∀ b, is_byte b → P b.
Proof.
  intros Hall%bool_decide_eq_true b Hb.
  rewrite Forall_forall in Hall. apply Hall, elem_of_seqZ.
  unfold is_byte in Hb. lia.
Qed.

Lemma byte_marker_set b :
  is_byte b → bit b 7 ≠ 0 → Z.lor (Z.land b 127) 128 = b.
Proof.
  revert b. apply (byte_cases (λ b, bit b 7 ≠ 0 → Z.lor (Z.land b 127) 128 = b)).
  by vm_compute.
Qed.

Lemma byte_marker_clear b :
  is_byte b → ¬ bit b 7 ≠ 0 → wrap8 (Z.land b 127) = b.
Proof.
  revert b. apply (byte_cases (λ b, ¬ bit b 7 ≠ 0 → wrap8 (Z.land b 127) = b)).
  by vm_compute.
Qed.

Lemma byte_wrap8 b : is_byte b → wrap8 b = b.
Proof. intros Hb. by apply Z.mod_small. Qed.

Lemma byte_low7 b : is_byte b → 0 ≤ Z.land b 127 < 128.
Proof.
  revert b. apply (byte_cases (λ b, 0 ≤ Z.land b 127 < 128)). by vm_compute.
Qed.

(** The two bytes [htons] writes for a parsed two-byte pictureId are the
    low seven bits of the first byte read and the second byte read. *)
Lemma two_byte_pictureId b low :
  is_byte b → is_byte low →
  let pictureId := wrap16 (wrap16 (Z.shiftl (Z.land b 127) 8) + low) in
  Z.land (Z.shiftr pictureId 8) 255 = Z.land b 127
  ∧ Z.land pictureId 255 = low.
Proof.
  intros Hb Hlow. pose proof (byte_low7 b Hb) as Hh.
  generalize dependent (Z.land b 127). intros h Hh. unfold is_byte in Hlow.
  cbv zeta. unfold wrap16.
  rewrite Z.shiftl_mul_pow2 by lia.
  rewrite (Z.mod_small (h * 2 ^ 8)) by lia.
  rewrite (Z.mod_small (h * 2 ^ 8 + low)) by lia.
  rewrite Z.shiftr_div_pow2 by lia.
  change 255 with (Z.ones 8). rewrite !Z.land_ones by lia.
  split.
  - rewrite Z.mod_small;
      [|split; [apply Z.div_pos; lia | apply Z.div_lt_upper_bound; lia]].
    symmetry. apply Z.div_unique with low; lia.
  - symmetry. apply Z.mod_unique with h; lia.
Qed.

Lemma store_in_bounds offset v data :
  (offset < length data)%nat → store offset v data = Ok (<[offset := v]> data).
Proof. intros Hlt. unfold store. by rewrite decide_True. Qed.

Ltac run_stores :=
  repeat (rewrite store_in_bounds by (rewrite ?length_insert; simpl; lia);
          cbn -[Z.land Z.shiftr Z.shiftl Z.lor wrap8 wrap16 store]).

Ltac split_on_bits H :=
  repeat
    (match type of H with
     | context [decide (bit ?b ?n = 0)] => destruct (decide (bit b n = 0))
     | context [decide (bit ?b ?n ≠ 0)] => destruct (decide (bit b n ≠ 0))
     | context [decide (?P ∨ ?Q)] => destruct (decide (P ∨ Q))
     end;
     cbn [lookup list_lookup mbind option_bind] in H; try discriminate H).

Ltac resolve_bits :=
  repeat
    (match goal with
     | |- context [decide (?P)] => destruct (decide P); try contradiction
     end).

(** C7: on a buffer of bytes from which [Parse] returns a descriptor,
    [Encode] with the descriptor's own pictureId and tl0PictureIndex (that
    is, [Restore]) writes inside the buffer and leaves every byte as
    [Parse] read it. *)
Theorem Parse_Encode_roundtrip data d :
  Forall is_byte data →
  Parse data = Some d →
  Encode d data (pictureId d) (tl0PictureIndex d) = Ok data
  ∧ Restore d data = Ok data.
Proof.
  intros Hbytes Hparse.
  enough (Encode d data (pictureId d) (tl0PictureIndex d) = Ok data) by done.
  unfold Parse in Hparse.
  destruct data as [|b0 [|b1 [|b2 [|b3 [|b4 [|b5 rest]]]]]];
    repeat match goal with
           | H : Forall _ (_ :: _) |- _ => apply Forall_cons in H as [? H]
           end;
    cbn [lookup list_lookup mbind option_bind] in Hparse;
    try discriminate Hparse;
    split_on_bits Hparse.
  all: injection Hparse as <-.
  all: unfold Encode;
    cbn [extended i l hasTwoBytesPictureId hasOneBytePictureId pictureId
         tl0PictureIndex].
  all: resolve_bits.
  all: unfold load; cbn -[Z.land Z.shiftr Z.shiftl Z.lor wrap8 wrap16 store].
  all: run_stores.
  all: repeat match goal with
              | Hb : is_byte ?b |- context [wrap8 ?b] =>
                  rewrite (byte_wrap8 b Hb)
              end.
  all: try done.
  all: try (rewrite byte_marker_clear by done; done).
  all: try (match goal with
            | Hb : is_byte ?b, Hlow : is_byte ?low
              |- context [wrap16 (wrap16 (Z.shiftl (Z.land ?b 127) 8) + ?low)] =>
                destruct (two_byte_pictureId b low Hb Hlow) as [-> ->]
            end; rewrite byte_marker_set by done; done).
Qed.

Lemma Parse_Encode_roundtrip_layered :
  Forall is_byte (Scenario.layered_payload 2 7 1)
  ∧ ∃ d, Parse (Scenario.layered_payload 2 7 1) = Some d
         ∧ pictureId d = 258 ∧ tl0PictureIndex d = 7 ∧ tlIndex d = 1
         ∧ Encode d (Scenario.layered_payload 2 7 1) 258 7
           = Ok (Scenario.layered_payload 2 7 1).
Proof.
  assert (Forall is_byte (Scenario.layered_payload 2 7 1)) as Hbytes
    by (repeat constructor; unfold is_byte; simpl; lia).
  split; [exact Hbytes|].
  eexists. split; [reflexivity|]. do 3 (split; [reflexivity|]).
  exact (proj1 (Parse_Encode_roundtrip _ _ Hbytes eq_refl)).
Defined.

(** [Encode] stays inside a buffer that holds the descriptor. *)
Lemma Encode_in_bounds d data pictureId' tl0PictureIndex' :
  (encoded_length d ≤ length data)%nat →
  ∃ data', Encode d data pictureId' tl0PictureIndex' = Ok data'.
Proof.
  unfold encoded_length, Encode. intros Hlen.
  destruct (decide (extended d = 0)); [by eexists|].
  destruct (decide (i d = 0)) as [Hi|Hi], (decide (l d = 0)) as [Hl|Hl];
    destruct (decide (i d ≠ 0)); try contradiction;
    destruct (decide (l d ≠ 0)); try contradiction;
    cbn [mbind outcome_bind].
  1: by eexists.
  1: rewrite store_in_bounds by lia; by eexists.
  all: destruct (hasTwoBytesPictureId d); [|destruct (hasOneBytePictureId d)];
    unfold load; run_stores; cbn [mbind outcome_bind]; run_stores;
    try (by eexists).
  all: match goal with
       | |- context [deref _ (?buf !! ?n)] =>
           destruct (lookup_lt_is_Some_2 buf n) as [byte ->];
           [rewrite !length_insert; lia|]
       end;
    cbn [deref mbind outcome_bind]; run_stores; by eexists.
Qed.

Section Handler.
Context {M16 M8 : Type} `{!SeqManager M16, !SeqManager M8}.

Implicit Types (d : PayloadDescriptor) (context : EncodingContext M16 M8).

(** With no sync pending and no key frame, the head of [Process] changes
    nothing; it never changes the target temporal layer. *)
Lemma prepare_idle d context :
  syncRequired context = false → isKeyFrame d = false →
  prepare d context = context.
Proof. unfold prepare. by intros -> ->. Qed.

Lemma prepare_target d context :
  GetTargetTemporalLayer (prepare d context) = GetTargetTemporalLayer context.
Proof.
  unfold prepare. destruct (_ && _), (isKeyFrame d); done.
Qed.

Lemma prepare_current d context :
  GetCurrentTemporalLayer (prepare d context)
  = if isKeyFrame d then GetTargetTemporalLayer context
    else GetCurrentTemporalLayer context.
Proof.
  unfold prepare. destruct (_ && _), (isKeyFrame d); done.
Qed.

(** C6, as amended: for a descriptor that carries pictureId, tlIndex and
    tl0PictureIndex, under the asserted precondition that the target
    temporal layer is not negative.  [Process] first syncs both managers
    if a sync is pending and, on a key frame, raises the current temporal
    layer to the target one; [pm], [tm] and [current] are the managers and
    the current layer after these two steps, and the pictureId is newer
    than the maximum input of [pm].
    (1) A tlIndex above the target temporal layer: the result is false,
    the buffer is untouched and the managers are [Drop] of the pictureId
    on [pm] and [Drop] of the tl0PictureIndex on [tm].  (2) A tlIndex above
    [current] with y = 0: the same.  (3) Otherwise the pictureId goes
    through [Input] on [pm]; if that reports it dropped the result is
    false and [tm] is not consulted; else the tl0PictureIndex goes through
    [Input] on [tm]; if that reports it dropped the result is false; else
    the result is true, the remapped values are encoded into the buffer
    and the current temporal layer is raised to the tlIndex, up to the
    target. *)
Theorem Process_temporal_layers d context data :
  0 ≤ GetTargetTemporalLayer context →
  hasPictureId d = true → hasTlIndex d = true → hasTl0PictureIndex d = true →
  let target := GetTargetTemporalLayer context in
  let current :=
    if isKeyFrame d then target else GetCurrentTemporalLayer context in
  let pm :=
    if syncRequired context
    then Sync (wrap16 (pictureId d - 1)) (pictureIdManager context)
    else pictureIdManager context in
  let tm :=
    if syncRequired context
    then Sync (wrap8 (tl0PictureIndex d - 1)) (tl0PictureIndexManager context)
    else tl0PictureIndexManager context in
  IsSeqHigherThan (M := M16) (pictureId d) (GetMaxInput pm) = true →
  (tlIndex d > target →
   ∃ context',
     Process d context data = Ok (false, context', data)
     ∧ pictureIdManager context' = Drop (pictureId d) pm
     ∧ tl0PictureIndexManager context' = Drop (tl0PictureIndex d) tm
     ∧ GetTargetTemporalLayer context' = target
     ∧ GetCurrentTemporalLayer context' = current)
  ∧ (tlIndex d > current → y d = 0 →
     ∃ context',
       Process d context data = Ok (false, context', data)
       ∧ pictureIdManager context' = Drop (pictureId d) pm
       ∧ tl0PictureIndexManager context' = Drop (tl0PictureIndex d) tm
       ∧ GetTargetTemporalLayer context' = target
       ∧ GetCurrentTemporalLayer context' = current)
  ∧ (¬ tlIndex d > target →
     ¬ (tlIndex d > current ∧ y d = 0) →
     (encoded_length d ≤ length data)%nat →
     match Input (pictureId d) pm with
     | (None, pm') =>
         ∃ context',
           Process d context data = Ok (false, context', data)
           ∧ pictureIdManager context' = pm'
           ∧ tl0PictureIndexManager context' = tm
     | (Some pictureId', pm') =>
         match Input (tl0PictureIndex d) tm with
         | (None, tm') =>
             ∃ context',
               Process d context data = Ok (false, context', data)
               ∧ pictureIdManager context' = pm'
               ∧ tl0PictureIndexManager context' = tm'
         | (Some tl0PictureIndex', tm') =>
             ∃ context' data',
               Process d context data = Ok (true, context', data')
               ∧ Encode d data pictureId' tl0PictureIndex' = Ok data'
               ∧ pictureIdManager context' = pm'
               ∧ tl0PictureIndexManager context' = tm'
               ∧ GetCurrentTemporalLayer context'
                 = Z.min (Z.max current (tlIndex d)) target
         end
     end).
Proof.
  intros Htarget Hpid Htl Htl0 target current pm tm Hnewer.
  set (ctx := prepare d context).
  assert (pictureIdManager ctx = pm ∧ tl0PictureIndexManager ctx = tm
          ∧ GetTargetTemporalLayer ctx = target
          ∧ GetCurrentTemporalLayer ctx = current) as (Hpm & Htm & Htgt & Hcur).
  { unfold ctx, prepare, pm, tm, current, target. rewrite Hpid, Htl0.
    by destruct (syncRequired context), (isKeyFrame d). }
  assert (newer_picture d ctx = true) as Hpicture.
  { unfold newer_picture. by rewrite Hpid, Htl, Htl0, Hpm, Hnewer. }
  assert (∃ context',
            Ok (false, drop_both d ctx, data) = Ok (false, context', data)
            ∧ pictureIdManager context' = Drop (pictureId d) pm
            ∧ tl0PictureIndexManager context' = Drop (tl0PictureIndex d) tm
            ∧ GetTargetTemporalLayer context' = target
            ∧ GetCurrentTemporalLayer context' = current) as Hdropped.
  { exists (drop_both d ctx). unfold drop_both.
    cbn [pictureIdManager tl0PictureIndexManager GetTargetTemporalLayer
         GetCurrentTemporalLayer set_managers].
    by rewrite Hpm, Htm. }
  unfold Process. rewrite decide_False by lia. fold ctx.
  rewrite Hpicture, Htgt, Hcur. cbn [andb].
  split; [|split].
  - intros Hover. by rewrite bool_decide_eq_true_2.
  - intros Hover Hy. destruct (bool_decide (tlIndex d > target)); [done|].
    by rewrite !bool_decide_eq_true_2.
  - intros Hnot Hkeep Hfits.
    rewrite (bool_decide_eq_false_2 _ Hnot).
    assert (bool_decide (tlIndex d > current) && bool_decide (y d = 0) = false)
      as ->.
    { apply andb_false_iff. rewrite !bool_decide_eq_false.
      destruct (decide (tlIndex d > current)); tauto. }
    rewrite Hpid, Htl0, Hpm.
    destruct (Input (pictureId d) pm) as [[pictureId'|] pm'];
      [|by eexists].
    cbn [tl0PictureIndexManager set_managers]. rewrite Htm.
    destruct (Input (tl0PictureIndex d) tm) as [[tl0PictureIndex'|] tm'];
      [|by eexists].
    unfold finish. rewrite Hpid, Htl0. cbn [andb].
    destruct (Encode_in_bounds d data pictureId' tl0PictureIndex' Hfits)
      as [data' Hencode].
    rewrite Hencode. cbn [mbind outcome_bind mret outcome_ret].
    eexists _, _. split; [reflexivity|]. split; [done|].
    cbn [GetCurrentTemporalLayer GetTargetTemporalLayer set_managers
         SetCurrentTemporalLayer].
    rewrite Hcur.
    destruct (decide (tlIndex d > current));
      cbn [pictureIdManager tl0PictureIndexManager GetCurrentTemporalLayer
           GetTargetTemporalLayer set_managers SetCurrentTemporalLayer];
      rewrite ?Htgt, ?Hcur;
      destruct (decide _);
      cbn [pictureIdManager tl0PictureIndexManager GetCurrentTemporalLayer
           GetTargetTemporalLayer set_managers SetCurrentTemporalLayer];
      rewrite ?Htgt, ?Hcur;
      (split; [done|]); (split; [done|]); lia.
Qed.

End Handler.

Lemma Process_temporal_layers_scenario :
  ∃ d,
    Parse Scenario.distant_payload = Some d
    ∧ tlIndex d = 1 ∧ pictureId d = 513 ∧ tl0PictureIndex d = 7
    ∧ isKeyFrame d = false
    ∧ GetTargetTemporalLayer Scenario.context0 = 0
    ∧ syncRequired Scenario.context0 = false
    ∧ GetMaxInput (pictureIdManager Scenario.context0) = 257
    ∧ IsSeqHigherThan (M := Scenario.M16) 513 257 = true
    ∧ IsSeqHigherThan (M := Scenario.M8) 513 257 = false
    ∧ ∃ context',
        Process d Scenario.context0 Scenario.distant_payload
        = Ok (false, context', Scenario.distant_payload)
        ∧ pictureIdManager context'
          = Drop 513 (pictureIdManager Scenario.context0)
        ∧ tl0PictureIndexManager context'
          = Drop 7 (tl0PictureIndexManager Scenario.context0)
        ∧ Scenario.dropped (pictureIdManager context') = {[ 513 ]}
        ∧ Scenario.dropped (tl0PictureIndexManager context') = {[ 7 ]}.
Proof.
  eexists. split; [reflexivity|]. do 9 (split; [by vm_compute|]).
  match goal with
  | |- ∃ context', Process ?d _ _ = _ ∧ _ =>
      destruct (proj1 (Process_temporal_layers d Scenario.context0
                         Scenario.distant_payload
                         ltac:(by vm_compute) eq_refl eq_refl eq_refl eq_refl)
                  ltac:(by vm_compute))
        as (context' & Hprocess & Hpm & Htm & _)
  end.
  exists context'. split; [exact Hprocess|].
  split; [exact Hpm|]. split; [exact Htm|].
  rewrite Hpm, Htm. split; by vm_compute.
Defined.

(** C6, as stated, fails in two ways.  A key frame whose tlIndex (1) is
    above the current temporal layer (0) with y = 0 is not dropped when
    the target temporal layer is 1: the key frame raises the current layer
    to the target one before the layers are compared, and [Process]
    returns true.  With a negative target temporal layer, [Process] fails
    its assertion instead of returning false. *)
Lemma Process_compares_layers_late :
  (∃ d,
     Parse Scenario.key_payload = Some d
     ∧ hasPictureId d = true ∧ hasTlIndex d = true
     ∧ hasTl0PictureIndex d = true
     ∧ IsSeqHigherThan (M := Scenario.M16) (pictureId d)
         (GetMaxInput (pictureIdManager (Scenario.context_with 1 0))) = true
     ∧ tlIndex d > GetCurrentTemporalLayer (Scenario.context_with 1 0)
     ∧ y d = 0
     ∧ ∃ context' data',
         Process d (Scenario.context_with 1 0) Scenario.key_payload
         = Ok (true, context', data'))
  ∧ (∃ d,
       Parse Scenario.distant_payload = Some d
       ∧ hasPictureId d = true ∧ hasTlIndex d = true
       ∧ hasTl0PictureIndex d = true
       ∧ IsSeqHigherThan (M := Scenario.M16) (pictureId d)
           (GetMaxInput (pictureIdManager (Scenario.context_with (-1) 0))) = true
       ∧ tlIndex d > GetTargetTemporalLayer (Scenario.context_with (-1) 0)
       ∧ Process d (Scenario.context_with (-1) 0) Scenario.distant_payload
         = Fault AssertionFailed).
Proof.
  split; eexists; (split; [reflexivity|]); repeat split; try (by vm_compute).
  eexists _, _. by vm_compute.
Qed.

(** Scenario S5 of the spec: with target temporal layer 0, three pictures
    with tlIndex 0, 1, 0 are kept, dropped, kept; the dropped pictureId
    259 is skipped in the output, where the third picture (260) follows
    the first (258) as 259. *)
Example temporal_drop_scenario :
  Scenario.feed_all Scenario.context0
    [ Scenario.layered_payload 2 7 0; Scenario.layered_payload 3 7 1;
      Scenario.layered_payload 4 8 0 ]
  = [ Some (true, Scenario.layered_payload 2 7 0);
      Some (false, Scenario.layered_payload 3 7 1);
      Some (true, Scenario.layered_payload 3 8 0) ].
Proof. by vm_compute. Qed.

End VP8Facts.

(** ** RTC::Room and RTC::RtpSender *)

Module RoomFacts.

Import RtpSender Room.

Section Facts.
Context {S P : Type} `{!Collaborators S, !PeerCollaborators S P, !Iteration}.

Implicit Types (w : World S P) (senders : gset Z).

Lemma iterate_NoDup senders : NoDup (iterate senders).
Proof. rewrite iterate_Permutation. apply NoDup_elements. Qed.

Lemma elem_of_iterate senders s : s ∈ iterate senders ↔ s ∈ senders.
Proof. rewrite iterate_Permutation. apply elem_of_elements. Qed.

Lemma close_events_agree w w' (l : list Z) :
  (∀ s, s ∈ l → rtpSenders w' !! s = rtpSenders w !! s) →
  close_events w' l = close_events w l.
Proof.
  unfold close_events. induction l as [|s l IH]; intros Hagree; [done|].
  cbn [omap list_omap].
  rewrite IH by (intros s' Hs'; apply Hagree; set_solver).
  unfold close_event. by rewrite (Hagree s) by set_solver.
Qed.

Lemma close_events_length w (l : list Z) :
  (∀ s, s ∈ l → is_Some (rtpSenders w !! s)) →
  length (close_events w l) = length l.
Proof.
  unfold close_events. induction l as [|s l IH]; intros Hlive; [done|].
  cbn [omap list_omap]. unfold close_event at 1.
  destruct (Hlive s) as [this ->]; [set_solver|].
  cbn [mbind option_bind length]. rewrite IH; [done|].
  intros s' Hs'. apply Hlive. set_solver.
Qed.

(** Closing a list of distinct live senders closes each of them once, in
    order, and deletes exactly them. *)
Lemma close_each_spec (l : list Z) :
  NoDup l → ∀ w,
  (∀ s, s ∈ l → is_Some (rtpSenders w !! s)) →
  ∃ w',
    close_each l w = Ok (w', close_events w l)
    ∧ ∀ s, rtpSenders w' !! s
           = if decide (s ∈ l) then None else rtpSenders w !! s.
Proof.
  induction 1 as [|s l Hfresh Hnodup IH]; intros w Hlive.
  { exists w. split; [done|]. intros s. by rewrite decide_False by set_solver. }
  destruct (Hlive s) as [this Hthis]; [set_solver|].
  cbn [close_each]. unfold Close_RtpSender. rewrite Hthis.
  cbn [deref mbind outcome_bind mret outcome_ret].
  set (w1 := set_rtpSenders _ _).
  assert (∀ s', s' ∈ l → rtpSenders w1 !! s' = rtpSenders w !! s') as Hagree.
  { intros s' Hs'. unfold w1. cbn [rtpSenders set_rtpSenders Peer_onRtpSenderClosed set_room].
    apply lookup_delete_ne. set_solver. }
  destruct (IH w1) as (w' & Hclose & Hheap).
  { intros s' Hs'. rewrite Hagree by done. apply Hlive. set_solver. }
  exists w'. rewrite Hclose. cbn [mbind outcome_bind mret outcome_ret]. split.
  - unfold close_events at 2. cbn [omap list_omap]. unfold close_event at 1.
    rewrite Hthis. cbn [mbind option_bind].
    fold (close_events w l). by rewrite (close_events_agree w w1).
  - intros s'. rewrite Hheap. destruct (decide (s' = s)) as [->|Hne].
    + rewrite decide_False by done. rewrite decide_True by set_solver.
      unfold w1. cbn [rtpSenders set_rtpSenders Peer_onRtpSenderClosed set_room].
      apply lookup_delete_eq.
    + destruct (decide (s' ∈ l)).
      * by rewrite decide_True by set_solver.
      * rewrite decide_False by set_solver.
        unfold w1. cbn [rtpSenders set_rtpSenders Peer_onRtpSenderClosed set_room].
        by apply lookup_delete_ne.
Qed.

(** C8: when a receiver that has an entry in the fan-out map is closed and
    the senders of its entry are live objects, [Close] runs once on each
    sender of the (copied) set, in whatever order the set is iterated: the
    effects are, up to their order, one close notification per sender;
    every one of these senders is deleted, no other sender is, and the map
    no longer has the receiver's entry. *)
Theorem onPeerRtpReceiverClosed_closes_senders w rtpReceiver senders :
  mapRtpReceiverRtpSenders (room w) !! rtpReceiver = Some senders →
  (∀ s, s ∈ senders → is_Some (rtpSenders w !! s)) →
  ∃ w' effs,
    onPeerRtpReceiverClosed rtpReceiver w = Ok (w', effs)
    ∧ effs ≡ₚ close_events w (elements senders)
    ∧ length effs = size senders
    ∧ (∀ s, rtpSenders w' !! s
            = if decide (s ∈ senders) then None else rtpSenders w !! s)
    ∧ mapRtpReceiverRtpSenders (room w') !! rtpReceiver = None.
Proof.
  intros Hentry Hlive.
  destruct (close_each_spec (iterate senders) (iterate_NoDup senders) w)
    as (w1 & Hclose & Hheap).
  { intros s Hs%elem_of_iterate. by apply Hlive. }
  unfold onPeerRtpReceiverClosed. rewrite Hentry, Hclose.
  cbn [mbind outcome_bind mret outcome_ret].
  eexists _, _. split; [reflexivity|]. split; [|split; [|split]].
  - unfold close_events. by rewrite iterate_Permutation.
  - rewrite close_events_length.
    + by rewrite iterate_Permutation.
    + intros s Hs%elem_of_iterate. by apply Hlive.
  - intros s. cbn [rtpSenders set_room]. rewrite Hheap.
    destruct (decide (s ∈ senders)) as [Hs|Hs].
    + by rewrite decide_True by (by apply elem_of_iterate).
    + by rewrite decide_False by (by rewrite elem_of_iterate).
  - cbn [room set_room mapRtpReceiverRtpSenders set_map]. apply lookup_delete_eq.
Qed.

(** C9: a request whose method has no [case] label in the [HandleRequest]
    of a Consumer, of an RtpSender or of a Room is rejected with the reason
    "unknown method", the entity being left as it was (and, for a room,
    nothing being emitted). *)
Theorem unknown_method_rejected (c : Consumer.Consumer S) (s : RtpSender S) w
    (request : Request) :
  (methodId request ≠ CONSUMER_DUMP →
   Consumer.HandleRequest c request = (c, Reject "unknown method"))
  ∧ (methodId request ≠ rtpSender_dump →
     RtpSender.HandleRequest s request = (s, Reject "unknown method"))
  ∧ (methodId request ∉ recognised →
     Room.HandleRequest w request = Ok (Some w, Reject "unknown method", [])).
Proof.
  unfold Consumer.HandleRequest, RtpSender.HandleRequest, Room.HandleRequest,
    recognised.
  repeat split; intros Hunknown;
    destruct (methodId request); try done; exfalso; apply Hunknown;
    set_solver.
Qed.

End Facts.

Lemma onPeerRtpReceiverClosed_scenario :
  mapRtpReceiverRtpSenders (room Scenario.world) !! 10 = Some {[ 21; 22 ]}
  ∧ ∃ w' effs,
      onPeerRtpReceiverClosed 10 Scenario.world = Ok (w', effs)
      ∧ effs ≡ₚ [ Emit 10000021 "close" [("class", JStr "RtpSender")];
                  Emit 10000022 "close" [("class", JStr "RtpSender")] ]
      ∧ length effs = 2%nat
      ∧ rtpSenders w' !! 21 = None ∧ rtpSenders w' !! 22 = None
      ∧ rtpSenders w' !! 23 = Some (Scenario.sender 10000023)
      ∧ mapRtpReceiverRtpSenders (room w') !! 10 = None.
Proof.
  assert (mapRtpReceiverRtpSenders (room Scenario.world) !! 10
          = Some {[ 21; 22 ]}) as Hentry by (by vm_compute).
  split; [exact Hentry|].
  destruct (onPeerRtpReceiverClosed_closes_senders Scenario.world 10 {[ 21; 22 ]}
              Hentry)
    as (w' & effs & Hclose & Hperm & Hlen & Hheap & Hmap).
  - intros s Hs. assert (s = 21 ∨ s = 22) as [-> | ->] by set_solver;
      eexists; by vm_compute.
  - exists w', effs. split; [exact Hclose|].
    split.
    { rewrite Hperm. unfold close_events.
      rewrite <- (iterate_Permutation (Iteration := Scenario.ascending_iteration)).
      by vm_compute. }
    split; [exact Hlen|].
    split; [by rewrite Hheap|]. split; [by rewrite Hheap|].
    split; [by rewrite Hheap|]. exact Hmap.
Defined.

Lemma unknown_method_rejected_scenario :
  Consumer.HandleRequest Scenario.consumer Scenario.unknown_request
  = (Scenario.consumer, Reject "unknown method")
  ∧ RtpSender.HandleRequest (Scenario.sender 10000021) Scenario.unknown_request
    = (Scenario.sender 10000021, Reject "unknown method")
  ∧ Room.HandleRequest Scenario.world Scenario.unknown_request
    = Ok (Some Scenario.world, Reject "unknown method", []).
Proof.
  destruct (unknown_method_rejected Scenario.consumer (Scenario.sender 10000021)
              Scenario.world Scenario.unknown_request) as (Hc & Hs & Hr).
  split; [by apply Hc|]. split; [by apply Hs|].
  apply Hr. unfold recognised. set_solver.
Defined.

End RoomFacts.

(** ** RTC::Consumer: profile selection, pause and resume, bookkeeping *)

Module ConsumerMore.

Import Consumer.

(** The in-order traversal of a set of profiles, by cases on which of the
    five profiles it holds. *)
Ltac by_profiles s :=
  unfold set_crbegin, set_lower_bound, set_begin, in_order, all_profiles;
  rewrite ?filter_cons, ?filter_nil;
  destruct (decide (NONE ∈ s)), (decide (DEFAULT ∈ s)), (decide (LOW ∈ s)),
    (decide (MEDIUM ∈ s)), (decide (HIGH ∈ s)).

Lemma set_crbegin_Some s p :
  set_crbegin s = Some p ↔ p ∈ s ∧ ∀ q, q ∈ s → profile_le q p.
Proof.
  split.
  - by_profiles s; cbn [last]; intros [= <-]; (split; [done|]);
      intros []; unfold profile_le; simpl; intros; (lia || done).
  - intros [Hp Hmax]. destruct p; by_profiles s; cbn [last];
      try contradiction;
      repeat match goal with
             | H : ?q ∈ s |- _ => apply Hmax in H; unfold profile_le in H
             end;
      simpl in *; first [done | lia].
Qed.

Lemma set_crbegin_None s : set_crbegin s = None ↔ ∀ q, q ∉ s.
Proof.
  split.
  - by_profiles s; cbn [last]; intros [=]; by intros [].
  - intros Hempty. by_profiles s; cbn [last]; try done;
      exfalso; eapply Hempty; eassumption.
Qed.

Lemma set_lower_bound_Some k s p :
  set_lower_bound k s = Some p ↔
  p ∈ s ∧ profile_le k p ∧ ∀ q, q ∈ s → profile_le k q → profile_le p q.
Proof.
  unfold profile_le. split.
  - destruct k; by_profiles s; cbn; intros [= <-];
      (split; [done|]); (split; [simpl; lia|]);
      intros []; simpl; intros; (lia || done).
  - intros (Hp & Hk & Hmin).
    destruct k, p; simpl in Hk; try lia; by_profiles s; cbn;
      try contradiction; try done;
      repeat match goal with
             | H : ?q ∈ s |- _ => apply Hmin in H; simpl in H; [|simpl; lia]
             end;
      simpl in *; lia.
Qed.

Lemma set_lower_bound_None k s :
  set_lower_bound k s = None ↔ ∀ q, q ∈ s → ¬ profile_le k q.
Proof.
  unfold profile_le. split.
  - destruct k; by_profiles s; cbn; intros [=]; intros []; simpl; intros;
      (lia || done).
  - intros Hnone. destruct k; by_profiles s; cbn; try done;
      repeat match goal with
             | H : ?q ∈ s |- _ => apply Hnone in H; simpl in H
             end;
      lia.
Qed.

Section Facts.
Context {S : Type} `{!Collaborators S}.

Implicit Types (c : Consumer S) (packet : RtpPacket) (profile : Profile).

(** The profile [RecalculateEffectiveProfile] dereferences, read with the
    set operations. *)
Lemma RecalculateEffectiveProfile_inv c c' effs :
  RecalculateEffectiveProfile c = Ok (c', effs) →
  ∃ newProfile,
    (if decide (preferredProfile c = NONE) then set_crbegin (profiles c)
     else set_lower_bound (preferredProfile c) (profiles c)) = Some newProfile
    ∧ effectiveProfile c' = newProfile
    ∧ profiles c' = profiles c
    ∧ preferredProfile c' = preferredProfile c.
Proof.
  unfold RecalculateEffectiveProfile. intros (newProfile & Hnew & Hrest)%bind_Ok.
  exists newProfile. split.
  { destruct (decide (preferredProfile c = NONE));
      [destruct (set_crbegin _)|destruct (set_lower_bound _ _)];
      simpl in Hnew; congruence. }
  case_decide as Hsame; [injection Hrest as <- <-; by rewrite Hsame|].
  destruct (_ && _).
  - apply bind_Ok in Hrest as (c1 & Hclear & [= <- <-]).
    unfold clear_buffer in Hclear.
    by apply bind_Ok in Hclear as (s & _ & [= <-]).
  - by injection Hrest as <- <-.
Qed.

(** With no preferred profile, [RecalculateEffectiveProfile] selects the
    greatest available profile. *)
Lemma RecalculateEffectiveProfile_greatest c c' effs :
  RecalculateEffectiveProfile c = Ok (c', effs) →
  preferredProfile c = NONE →
  profiles c' = profiles c
  ∧ effectiveProfile c' ∈ profiles c
  ∧ ∀ p, p ∈ profiles c → profile_le p (effectiveProfile c').
Proof.
  intros (newProfile & Hnew & -> & Hps & Hpref)%RecalculateEffectiveProfile_inv
    Hnone.
  split; [done|]. rewrite decide_True in Hnew by done.
  by apply set_crbegin_Some in Hnew as [Hin Hmax].
Qed.

(** X1: when [RecalculateEffectiveProfile] returns, the effective profile
    is an available profile; with no preferred profile it is the greatest
    available one, and otherwise it is the least available profile that is
    not below the preferred one.  The set of profiles and the preference
    are left as they were. *)
Theorem RecalculateEffectiveProfile_selects c c' effs :
  RecalculateEffectiveProfile c = Ok (c', effs) →
  profiles c' = profiles c
  ∧ preferredProfile c' = preferredProfile c
  ∧ effectiveProfile c' ∈ profiles c
  ∧ (preferredProfile c = NONE →
     ∀ p, p ∈ profiles c → profile_le p (effectiveProfile c'))
  ∧ (preferredProfile c ≠ NONE →
     profile_le (preferredProfile c) (effectiveProfile c')
     ∧ ∀ p, p ∈ profiles c → profile_le (preferredProfile c) p →
            profile_le (effectiveProfile c') p).
Proof.
  intros (newProfile & Hnew & -> & Hps & Hpref)%RecalculateEffectiveProfile_inv.
  split; [done|]. split; [done|].
  destruct (decide (preferredProfile c = NONE)) as [Hnone|Hsome].
  - apply set_crbegin_Some in Hnew as [Hin Hmax]. split; [done|]. by split.
  - apply set_lower_bound_Some in Hnew as (Hin & Hle & Hmin).
    split; [done|]. by split.
Qed.

(** [RecalculateEffectiveProfile] returns when some available profile is
    at or above the preferred one. *)
Lemma RecalculateEffectiveProfile_returns c :
  bound c →
  (∃ p, p ∈ profiles c ∧ profile_le (preferredProfile c) p) →
  is_Ok (RecalculateEffectiveProfile c).
Proof.
  unfold RecalculateEffectiveProfile.
  intros Hbound (p & Hp & Hle).
  assert (∃ newProfile,
    (if decide (preferredProfile c = NONE)
     then deref InvalidIterator (set_crbegin (profiles c))
     else deref InvalidIterator
            (set_lower_bound (preferredProfile c) (profiles c)))
    = Ok newProfile) as [newProfile ->].
  { destruct (decide (preferredProfile c = NONE)).
    - destruct (set_crbegin (profiles c)) eqn:Hlast; [by eexists|].
      rewrite set_crbegin_None in Hlast. by destruct (Hlast p).
    - destruct (set_lower_bound _ _) eqn:Hlow; [by eexists|].
      rewrite set_lower_bound_None in Hlow. by destruct (Hlow p Hp). }
  cbn [mbind outcome_bind]. case_decide; [done|].
  destruct (IsEnabled _ && _) eqn:Hon; [|done].
  apply andb_true_iff in Hon as [Hen _].
  unfold IsEnabled in Hen. apply bool_decide_eq_true in Hen.
  destruct (Hbound Hen) as [[stream Hstream] _].
  unfold clear_buffer. cbn [rtpStream set_effectiveProfile].
  by rewrite Hstream.
Qed.

(** X2: [RecalculateEffectiveProfile] dereferences an invalid iterator
    exactly when no available profile is at or above the preferred one
    (with no preference: when the set is empty); otherwise, on a consumer
    that owns its stream whenever it is Enabled, it returns. *)
Theorem RecalculateEffectiveProfile_defined c :
  ((∀ p, p ∈ profiles c → ¬ profile_le (preferredProfile c) p) →
   RecalculateEffectiveProfile c = Fault InvalidIterator)
  ∧ (bound c →
     (∃ p, p ∈ profiles c ∧ profile_le (preferredProfile c) p) →
     is_Ok (RecalculateEffectiveProfile c)).
Proof.
  split; [|apply RecalculateEffectiveProfile_returns].
  unfold RecalculateEffectiveProfile.
  intros Hnone. destruct (decide (preferredProfile c = NONE)) as [Heq|Hne].
  - assert (set_crbegin (profiles c) = None) as ->; [|done].
    apply set_crbegin_None. intros q Hq. apply (Hnone q Hq).
    rewrite Heq. unfold profile_le. simpl. lia.
  - assert (set_lower_bound (preferredProfile c) (profiles c) = None) as ->;
      [|done].
    by apply set_lower_bound_None.
Qed.

(** X3: what a change of the effective profile does: nothing at all when
    the selected profile is the effective one already; otherwise one
    "effectiveprofilechange" notification naming the new profile, followed
    by nothing but full-frame requests, and a pending sync. *)
Theorem RecalculateEffectiveProfile_notifies c c' effs :
  RecalculateEffectiveProfile c = Ok (c', effs) →
  (effectiveProfile c' = effectiveProfile c ∧ c' = c ∧ effs = [])
  ∨ (effectiveProfile c' ≠ effectiveProfile c
     ∧ syncRequired c' = true
     ∧ ∃ requests,
         effs = Emit (consumerId c) "effectiveprofilechange"
                  [("profile", JStr (profile2String (effectiveProfile c')))]
                :: requests
         ∧ Forall (λ e, ∃ l, e = FullFrameRequired l (consumerId c)) requests).
Proof.
  unfold RecalculateEffectiveProfile. intros (newProfile & _ & Hrest)%bind_Ok.
  case_decide as Hsame; [left; by injection Hrest as <- <-|right].
  destruct (_ && _).
  - apply bind_Ok in Hrest as (c1 & Hclear & [= <- <-]).
    unfold clear_buffer in Hclear.
    apply bind_Ok in Hclear as (s & _ & [= <-]).
    split; [done|]. split; [done|]. eexists. split; [reflexivity|].
    unfold RequestFullFrame. destruct (negb _); [done|].
    destruct (_ || _); [done|]. cbn [consumerId set_rtpStream set_effectiveProfile listeners].
    induction (listeners c); constructor; eauto.
  - injection Hrest as <- <-. split; [done|]. split; [done|].
    by eexists.
Qed.

Lemma placeholder_only (ps : gset Profile) :
  bool_decide (size ps = 1%nat) && bool_decide (set_begin ps = Some NONE)
  = bool_decide (ps = {[ NONE ]}).
Proof.
  destruct (decide (ps = {[ NONE ]})) as [->|Hne].
  - rewrite size_singleton. by rewrite !bool_decide_eq_true_2.
  - rewrite (bool_decide_eq_false_2 _ Hne). apply andb_false_iff.
    rewrite !bool_decide_eq_false.
    destruct (decide (size ps = 1%nat)) as [Hone|]; [right|by left].
    apply size_1_elem_of in Hone as [x Hx]. apply leibniz_equiv in Hx as ->.
    destruct x; try done; by vm_compute.
Qed.

(** X4: with no preferred profile, on a consumer that owns its stream
    whenever it is Enabled, [AddProfile] always returns: the NONE
    placeholder, if it was the only entry, is replaced by the new profile,
    otherwise the profile is added; the effective profile becomes the
    greatest available one. *)
Theorem AddProfile_without_preference c profile :
  bound c →
  preferredProfile c = NONE →
  ∃ c' effs,
    AddProfile profile c = Ok (c', effs)
    ∧ profiles c'
      = (if decide (profiles c = {[ NONE ]}) then ∅ else profiles c) ∪ {[ profile ]}
    ∧ effectiveProfile c' ∈ profiles c'
    ∧ ∀ q, q ∈ profiles c' → profile_le q (effectiveProfile c').
Proof.
  intros Hbound Hnone. unfold AddProfile. rewrite placeholder_only.
  set (ps := (if bool_decide _ then _ else _) ∪ _).
  assert (ps = (if decide (profiles c = {[ NONE ]}) then ∅ else profiles c)
               ∪ {[ profile ]}) as Hps.
  { unfold ps. by destruct (decide (profiles c = {[ NONE ]}));
      [rewrite bool_decide_eq_true_2|rewrite bool_decide_eq_false_2]. }
  pose proof (RecalculateEffectiveProfile_returns (set_profiles ps c)) as Hok.
  destruct (RecalculateEffectiveProfile (set_profiles ps c))
    as [[c' effs]|f] eqn:Hrecal; cycle 1.
  { exfalso. apply Hok; [done|]. exists profile. split.
    - cbn [profiles set_profiles]. unfold ps. set_solver.
    - cbn [preferredProfile set_profiles]. rewrite Hnone.
      unfold profile_le. simpl. lia. }
  exists c', effs. split; [done|].
  destruct (RecalculateEffectiveProfile_greatest _ _ _ Hrecal)
    as (Hprofiles & Hin & Hmax); [done|].
  cbn [profiles preferredProfile set_profiles] in *.
  rewrite Hprofiles, <- Hps. by repeat split.
Qed.

(** X5: the four flag transitions are idempotent: once [Pause]
    ([SourcePause], [Resume], [SourceResume]) has returned, calling it
    again changes nothing and has no effect. *)
Theorem pause_resume_idempotent c c' effs :
  (Pause c = Ok (c', effs) → Pause c' = Ok (c', []))
  ∧ (SourcePause c = Ok (c', effs) → SourcePause c' = Ok (c', []))
  ∧ (Resume c = Ok (c', effs) → Resume c' = Ok (c', []))
  ∧ (SourceResume c = Ok (c', effs) → SourceResume c' = Ok (c', [])).
Proof.
  repeat split.
  - unfold Pause. destruct (paused c) eqn:Hp.
    + intros [= <- <-]. by rewrite Hp.
    + destruct (_ && _); [|by intros [= <- <-]].
      unfold clear_buffer.
      by intros (c1 & (s & _ & [= <-])%bind_Ok & [= <- <-])%bind_Ok.
  - unfold SourcePause. destruct (sourcePaused c) eqn:Hp.
    + intros [= <- <-]. by rewrite Hp.
    + destruct (_ && _); [|by intros [= <- <-]].
      unfold clear_buffer.
      by intros (c1 & (s & _ & [= <-])%bind_Ok & [= <- <-])%bind_Ok.
  - unfold Resume. destruct (paused c) eqn:Hp; cbn [negb].
    + by destruct (_ && _); intros [= <- <-].
    + intros [= <- <-]. by rewrite Hp.
  - unfold SourceResume. destruct (sourcePaused c) eqn:Hp; cbn [negb].
    + by destruct (_ && _); intros [= <- <-].
    + intros [= <- <-]. by rewrite Hp.
Qed.

(** X6: after [Pause] or [SourcePause] has returned, nothing was handed to
    the transport, and every packet offered to the consumer is dropped
    without a trace. *)
Theorem pause_stops_forwarding c c' effs packet profile now :
  Pause c = Ok (c', effs) ∨ SourcePause c = Ok (c', effs) →
  sent effs = []
  ∧ SendRtpPacket c' packet profile now = Ok (c', packet, []).
Proof.
  intros Hpause.
  assert (sent effs = [] ∧ (paused c' = true ∨ sourcePaused c' = true))
    as [Hsent Hflag].
  { destruct Hpause as [Hpause|Hpause]; revert Hpause.
    - unfold Pause. destruct (paused c) eqn:Hp.
      + intros [= <- <-]. auto.
      + destruct (_ && _).
        * unfold clear_buffer.
          intros (c1 & (s & _ & [= <-])%bind_Ok & [= <- <-])%bind_Ok. auto.
        * intros [= <- <-]. auto.
    - unfold SourcePause. destruct (sourcePaused c) eqn:Hp.
      + intros [= <- <-]. auto.
      + destruct (_ && _).
        * unfold clear_buffer.
          intros (c1 & (s & _ & [= <-])%bind_Ok & [= <- <-])%bind_Ok. auto.
        * intros [= <- <-]. auto. }
  split; [done|]. apply ConsumerFacts.SendRtpPacket_dropped.
  destruct (passes_checks c' packet profile) eqn:Hpass; [|done].
  apply ConsumerFacts.passes_checks_true in Hpass as (_ & Hp & Hsp & _).
  destruct Hflag; congruence.
Qed.

(** What every operation leaves alone. *)
Lemma step_frame c i c' effs :
  step c i = Ok (c', effs) →
  consumerId c' = consumerId c ∧ kind c' = kind c
  ∧ listeners c' = listeners c ∧ transport c' = transport c
  ∧ rtpParameters c' = rtpParameters c
  ∧ (is_Some (rtpStream c) → is_Some (rtpStream c')).
Proof.
  assert (∀ c c', clear_buffer c = Ok c' →
            consumerId c' = consumerId c ∧ kind c' = kind c
            ∧ listeners c' = listeners c ∧ transport c' = transport c
            ∧ rtpParameters c' = rtpParameters c
            ∧ (is_Some (rtpStream c) → is_Some (rtpStream c'))) as Hclear.
  { intros c0 c1. unfold clear_buffer. intros (s & _ & [= <-])%bind_Ok.
    repeat split; eauto. }
  assert (∀ c c' effs, RecalculateEffectiveProfile c = Ok (c', effs) →
            consumerId c' = consumerId c ∧ kind c' = kind c
            ∧ listeners c' = listeners c ∧ transport c' = transport c
            ∧ rtpParameters c' = rtpParameters c
            ∧ (is_Some (rtpStream c) → is_Some (rtpStream c'))) as Hrecal.
  { intros c0 c1 effs1. unfold RecalculateEffectiveProfile.
    intros (newProfile & _ & Hrest)%bind_Ok.
    case_decide; [by injection Hrest as <- <-|].
    destruct (_ && _).
    - apply bind_Ok in Hrest as (c2 & Hc2%Hclear & [= <- <-]). done.
    - by injection Hrest as <- <-. }
  intros Hstep. destruct i; simpl in Hstep.
  - apply bind_Ok in Hstep as ([[c1 p1] effs1] & Hsend & [= <- <-]).
    destruct (passes_checks c packet profile) eqn:Hpass.
    + revert Hsend. unfold SendRtpPacket.
      pose proof Hpass as (Ht & Hp & Hsp & Hpt & Hprof)%ConsumerFacts.passes_checks_true.
      unfold IsEnabled, IsPaused. rewrite Hp, Hsp, (bool_decide_eq_true_2 _ Ht).
      cbn [negb orb].
      rewrite !bool_decide_eq_false_2 by (intros Hn; by apply Hn).
      unfold advance.
      intros (encoding & _ & (stream & _ & Hrest)%bind_Ok)%bind_Ok.
      destruct (ReceivePacket _ stream) as [[] stream'];
        injection Hrest as <- _ _;
        destruct (syncRequired c); [case_decide| |case_decide|];
        repeat split; eauto.
    + rewrite (ConsumerFacts.SendRtpPacket_dropped _ _ _ now Hpass) in Hsend.
      by injection Hsend as <- _ _.
  - unfold Pause in Hstep. destruct (paused c); [by injection Hstep as <- <-|].
    destruct (_ && _).
    + by apply bind_Ok in Hstep as (c1 & ?%Hclear & [= <- <-]).
    + by injection Hstep as <- <-.
  - unfold Resume in Hstep. destruct (negb _); [by injection Hstep as <- <-|].
    by destruct (_ && _); injection Hstep as <- <-.
  - unfold SourcePause in Hstep.
    destruct (sourcePaused c); [by injection Hstep as <- <-|].
    destruct (_ && _).
    + by apply bind_Ok in Hstep as (c1 & ?%Hclear & [= <- <-]).
    + by injection Hstep as <- <-.
  - unfold SourceResume in Hstep.
    destruct (negb _); [by injection Hstep as <- <-|].
    by destruct (_ && _); injection Hstep as <- <-.
  - unfold SourceRtpParametersUpdated in Hstep.
    destruct (negb _); [by injection Hstep as <- <-|].
    by apply bind_Ok in Hstep as (c1 & ?%Hclear & [= <- <-]).
  - by apply Hrecal in Hstep.
  - by apply Hrecal in Hstep.
  - unfold SetPreferredProfile in Hstep.
    case_decide; [by injection Hstep as <- <-|]. by apply Hrecal in Hstep.
Qed.

(** X7: the invariant the forwarding path relies on is kept by every
    operation: a consumer that owns its stream and has a first encoding
    whenever it is Enabled still does after any input that returns. *)
Theorem step_keeps_bound c i c' effs :
  bound c → step c i = Ok (c', effs) → bound c'.
Proof.
  intros Hbound (_ & _ & _ & Ht & Hps & Hstream)%step_frame Hen.
  rewrite Ht in Hen. destruct (Hbound Hen) as [Hs Henc].
  rewrite Hps. auto.
Qed.

Lemma RequestFullFrame_silent c :
  kind c = AUDIO ∨ transport c = None → RequestFullFrame c = [].
Proof.
  unfold RequestFullFrame, IsEnabled. intros [Haudio|Hoff].
  - destruct (negb _); [done|]. by rewrite (bool_decide_eq_true_2 _ Haudio).
  - rewrite bool_decide_eq_false_2; [done|]. by intros Hn.
Qed.

Lemma step_silent c i c' effs :
  kind c = AUDIO ∨ transport c = None →
  step c i = Ok (c', effs) →
  ∀ l id, FullFrameRequired l id ∉ effs.
Proof.
  intros Hsilent Hstep l id.
  assert (∀ c c' effs, kind c = AUDIO ∨ transport c = None →
            RecalculateEffectiveProfile c = Ok (c', effs) →
            FullFrameRequired l id ∉ effs) as Hrecal.
  { intros c0 c1 effs1 Hs. unfold RecalculateEffectiveProfile.
    intros (newProfile & _ & Hrest)%bind_Ok.
    case_decide; [injection Hrest as <- <-; set_solver|].
    destruct (_ && _).
    - apply bind_Ok in Hrest as (c2 & Hclear & [= <- <-]).
      unfold clear_buffer in Hclear.
      apply bind_Ok in Hclear as (s & _ & [= <-]).
      rewrite RequestFullFrame_silent by done. set_solver.
    - injection Hrest as <- <-. set_solver. }
  destruct i; simpl in Hstep.
  - apply bind_Ok in Hstep as ([[c1 p1] effs1] & Hsend & [= <- <-]).
    destruct (passes_checks c packet profile) eqn:Hpass.
    + revert Hsend. unfold SendRtpPacket.
      pose proof Hpass as (Ht & Hp & Hsp & Hpt & Hprof)%ConsumerFacts.passes_checks_true.
      unfold IsEnabled, IsPaused. rewrite Hp, Hsp, (bool_decide_eq_true_2 _ Ht).
      cbn [negb orb].
      rewrite !bool_decide_eq_false_2 by (intros Hn; by apply Hn).
      intros (encoding & _ & (stream & _ & Hrest)%bind_Ok)%bind_Ok.
      destruct (ReceivePacket _ stream) as [[] stream'];
        injection Hrest as _ _ <-; set_solver.
    + rewrite (ConsumerFacts.SendRtpPacket_dropped _ _ _ now Hpass) in Hsend.
      injection Hsend as _ _ <-. set_solver.
  - unfold Pause in Hstep.
    destruct (paused c); [injection Hstep as <- <-; set_solver|].
    destruct (_ && _).
    + apply bind_Ok in Hstep as (c1 & _ & [= <- <-]). set_solver.
    + injection Hstep as <- <-. set_solver.
  - unfold Resume in Hstep.
    destruct (negb _); [injection Hstep as <- <-; set_solver|].
    destruct (_ && _); injection Hstep as <- <-; [|set_solver].
    rewrite RequestFullFrame_silent by done. set_solver.
  - unfold SourcePause in Hstep.
    destruct (sourcePaused c); [injection Hstep as <- <-; set_solver|].
    destruct (_ && _).
    + apply bind_Ok in Hstep as (c1 & _ & [= <- <-]). set_solver.
    + injection Hstep as <- <-. set_solver.
  - unfold SourceResume in Hstep.
    destruct (negb _); [injection Hstep as <- <-; set_solver|].
    destruct (_ && _); injection Hstep as <- <-; [|set_solver].
    rewrite RequestFullFrame_silent by done. set_solver.
  - unfold SourceRtpParametersUpdated in Hstep.
    destruct (negb _); [injection Hstep as <- <-; set_solver|].
    apply bind_Ok in Hstep as (c1 & _ & [= <- <-]). set_solver.
  - by eapply Hrecal; [|exact Hstep].
  - by eapply Hrecal; [|exact Hstep].
  - unfold SetPreferredProfile in Hstep.
    case_decide; [injection Hstep as <- <-; set_solver|].
    by eapply Hrecal; [|exact Hstep].
Qed.

(** X8: a consumer of kind AUDIO, and a consumer with no transport, never
    asks its listeners for a full frame, whatever it is fed. *)
Theorem audio_never_requests_full_frame c inputs :
  kind c = AUDIO ∨ transport c = None →
  ∀ l id, FullFrameRequired l id ∉ trace c inputs.
Proof.
  revert c. induction inputs as [|i rest IH]; intros c Hsilent l id;
    cbn [trace]; [set_solver|].
  destruct (step c i) as [[c' effs]|] eqn:Hstep; [|set_solver].
  rewrite elem_of_app. intros [Hin|Hin].
  - by eapply step_silent.
  - eapply (IH c'); [|exact Hin].
    apply step_frame in Hstep as (_ & -> & _ & -> & _). done.
Qed.

(** X9: [Disable] unbinds the consumer: the transport and the stream are
    gone, the supported payload types and both counters are reset, the
    profile state and the output counters are kept; a second [Disable]
    changes nothing, and every packet offered afterwards is dropped. *)
Theorem Disable_unbinds c packet profile now :
  transport (Disable c) = None
  ∧ rtpStream (Disable c) = None
  ∧ supportedCodecPayloadTypes (Disable c) = ∅
  ∧ packets (transmittedCounter (Disable c)) = 0
  ∧ packets (retransmittedCounter (Disable c)) = 0
  ∧ seqNum (Disable c) = seqNum c
  ∧ rtpTimestamp (Disable c) = rtpTimestamp c
  ∧ effectiveProfile (Disable c) = effectiveProfile c
  ∧ profiles (Disable c) = profiles c
  ∧ Disable (Disable c) = Disable c
  ∧ SendRtpPacket (Disable c) packet profile now = Ok (Disable c, packet, []).
Proof.
  do 9 (split; [reflexivity|]). split; [destruct c; by vm_compute|].
  by apply ConsumerFacts.SendRtpPacket_dropped.
Qed.

(** A forwarded packet that returns went through the stream and the first
    encoding. *)
Lemma SendRtpPacket_Ok_bound c packet profile now r :
  passes_checks c packet profile = true →
  SendRtpPacket c packet profile now = Ok r →
  ∃ stream encoding,
    rtpStream c = Some stream
    ∧ encodings (rtpParameters c) !! 0%nat = Some encoding.
Proof.
  intros Hpass. unfold SendRtpPacket.
  pose proof Hpass as (Ht & Hp & Hsp & Hpt & Hprof)%ConsumerFacts.passes_checks_true.
  unfold IsEnabled, IsPaused. rewrite Hp, Hsp, (bool_decide_eq_true_2 _ Ht).
  cbn [negb orb].
  rewrite !bool_decide_eq_false_2 by (intros Hn; by apply Hn).
  destruct (ConsumerFacts.advance_frame c packet now) as (_ & -> & -> & _).
  intros (encoding & Henc & (stream & Hstream & _)%bind_Ok)%bind_Ok.
  exists stream, encoding.
  destruct (rtpStream c); [|done].
  destruct (encodings _ !! _); [|done].
  simpl in *. split; congruence.
Qed.

(** X10: between syncs the consumer maps the producer's numbering onto
    its own by a fixed offset: a packet forwarded with no sync pending
    leaves the difference between the output and the received sequence
    numbers (modulo 2^16) and timestamps (modulo 2^32) as it was. *)
Theorem SendRtpPacket_keeps_offset c packet profile now c' packet' effs :
  passes_checks c packet profile = true →
  syncRequired c = false →
  SendRtpPacket c packet profile now = Ok (c', packet', effs) →
  wrap16 (seqNum c' - lastRecvSeqNum c') = wrap16 (seqNum c - lastRecvSeqNum c)
  ∧ wrap32 (rtpTimestamp c' - lastRecvRtpTimestamp c')
    = wrap32 (rtpTimestamp c - lastRecvRtpTimestamp c).
Proof.
  intros Hpass Hsync Hsend.
  destruct (SendRtpPacket_Ok_bound _ _ _ _ _ Hpass Hsend)
    as (stream & encoding & Hstream & Henc).
  rewrite (ConsumerFacts.SendRtpPacket_forwarded _ _ _ now _ _ Hpass Hstream Henc)
    in Hsend.
  destruct (ConsumerFacts.advance_frame c packet now) as (_ & _ & _ & _ & Hsq & Hts).
  destruct (ConsumerFacts.advance_delta c packet now Hsync) as (Hseq & Htime).
  assert (seqNum c' = seqNum (advance c packet now)
          ∧ rtpTimestamp c' = rtpTimestamp (advance c packet now)
          ∧ lastRecvSeqNum c' = lastRecvSeqNum (advance c packet now)
          ∧ lastRecvRtpTimestamp c' = lastRecvRtpTimestamp (advance c packet now))
    as (-> & -> & -> & ->).
  { destruct (ReceivePacket _ stream) as [[] stream'];
      by injection Hsend as <- _ _. }
  rewrite Hseq, Htime, Hsq, Hts. unfold wrap16, wrap32. split.
  - rewrite Zminus_mod_idemp_l. f_equal. lia.
  - rewrite Zminus_mod_idemp_l.
    set (d := GetTimestamp packet - lastRecvRtpTimestamp c).
    replace (rtpTimestamp c + d mod 2 ^ 32 - GetTimestamp packet)
      with (d mod 2 ^ 32 + (rtpTimestamp c - GetTimestamp packet)) by lia.
    rewrite Zplus_mod_idemp_l. f_equal. lia.
Qed.


End Facts.

Lemma RecalculateEffectiveProfile_selects_scenario :
  ∃ c' effs,
    RecalculateEffectiveProfile (Scenario.simulcast LOW NONE {[ DEFAULT; MEDIUM; HIGH ]})
    = Ok (c', effs)
    ∧ effectiveProfile c' = MEDIUM
    ∧ (LOW ≠ NONE →
       profile_le LOW (effectiveProfile c')
       ∧ ∀ p, p ∈ ({[ DEFAULT; MEDIUM; HIGH ]} : gset Profile) →
              profile_le LOW p → profile_le (effectiveProfile c') p).
Proof.
  eexists _, _. split; [reflexivity|]. split; [reflexivity|].
  exact (proj2 (proj2 (proj2 (proj2
    (RecalculateEffectiveProfile_selects
       (Scenario.simulcast LOW NONE {[ DEFAULT; MEDIUM; HIGH ]}) _ _ eq_refl))))).
Defined.

Lemma RecalculateEffectiveProfile_notifies_scenario :
  ∃ c' effs,
    RecalculateEffectiveProfile (Scenario.simulcast NONE LOW {[ LOW; HIGH ]})
    = Ok (c', effs)
    ∧ ((effectiveProfile c' = LOW ∧ c' = Scenario.simulcast NONE LOW {[ LOW; HIGH ]}
        ∧ effs = [])
       ∨ (effectiveProfile c' ≠ LOW
          ∧ syncRequired c' = true
          ∧ ∃ requests,
              effs = Emit 7 "effectiveprofilechange"
                       [("profile", JStr (profile2String (effectiveProfile c')))]
                     :: requests
              ∧ Forall (λ e, ∃ l, e = FullFrameRequired l 7) requests)).
Proof.
  eexists _, _. split; [reflexivity|].
  exact (RecalculateEffectiveProfile_notifies
           (Scenario.simulcast NONE LOW {[ LOW; HIGH ]}) _ _ eq_refl).
Defined.

Lemma AddProfile_without_preference_scenario :
  bound (Scenario.simulcast NONE NONE {[ NONE ]})
  ∧ ∃ c' effs,
      AddProfile LOW (Scenario.simulcast NONE NONE {[ NONE ]}) = Ok (c', effs)
      ∧ profiles c'
        = (if decide (({[ NONE ]} : gset Profile) = {[ NONE ]}) then ∅ else {[ NONE ]})
          ∪ {[ LOW ]}
      ∧ effectiveProfile c' ∈ profiles c'
      ∧ ∀ q, q ∈ profiles c' → profile_le q (effectiveProfile c').
Proof.
  assert (bound (Scenario.simulcast NONE NONE {[ NONE ]})) as Hbound
    by (intros _; split; eexists; reflexivity).
  split; [exact Hbound|].
  exact (AddProfile_without_preference
           (Scenario.simulcast NONE NONE {[ NONE ]}) LOW Hbound eq_refl).
Defined.

Lemma pause_stops_forwarding_scenario :
  ∃ c' effs,
    Pause Scenario.consumer = Ok (c', effs)
    ∧ sent effs = []
    ∧ SendRtpPacket c' (Scenario.packet 101 12600) DEFAULT 0
      = Ok (c', Scenario.packet 101 12600, []).
Proof.
  eexists _, _. split; [reflexivity|].
  exact (pause_stops_forwarding Scenario.consumer _ _
           (Scenario.packet 101 12600) DEFAULT 0 (or_introl eq_refl)).
Defined.

Lemma step_keeps_bound_scenario :
  bound Scenario.consumer
  ∧ ∃ c' effs,
      step Scenario.consumer (InAddProfile HIGH) = Ok (c', effs) ∧ bound c'.
Proof.
  split; [exact ConsumerFacts.bound_scenario|].
  eexists _, _. split; [reflexivity|].
  exact (step_keeps_bound Scenario.consumer (InAddProfile HIGH) _ _
           ConsumerFacts.bound_scenario eq_refl).
Defined.

Lemma audio_never_requests_full_frame_scenario :
  transport (Disable Scenario.consumer) = None
  ∧ ∀ l id,
      FullFrameRequired l id
      ∉ trace (Disable Scenario.consumer) [InResume; InAddProfile HIGH; InSourceResume].
Proof.
  split; [reflexivity|].
  exact (audio_never_requests_full_frame (Disable Scenario.consumer)
           [InResume; InAddProfile HIGH; InSourceResume] (or_intror eq_refl)).
Defined.

Lemma SendRtpPacket_keeps_offset_scenario :
  passes_checks Scenario.consumer (Scenario.packet 103 9300) DEFAULT = true
  ∧ syncRequired Scenario.consumer = false
  ∧ ∃ c' packet' effs,
      SendRtpPacket Scenario.consumer (Scenario.packet 103 9300) DEFAULT 0
      = Ok (c', packet', effs)
      ∧ wrap16 (seqNum c' - lastRecvSeqNum c') = wrap16 (1000 - 100)
      ∧ wrap32 (rtpTimestamp c' - lastRecvRtpTimestamp c') = wrap32 (5000 - 9000).
Proof.
  assert (passes_checks Scenario.consumer (Scenario.packet 103 9300) DEFAULT = true)
    as Hpass by (by vm_compute).
  split; [exact Hpass|]. split; [reflexivity|].
  destruct (SendRtpPacket Scenario.consumer (Scenario.packet 103 9300) DEFAULT 0)
    as [[[c' packet'] effs]|f] eqn:Hsend; [|by vm_compute in Hsend].
  exists c', packet', effs. split; [reflexivity|].
  exact (SendRtpPacket_keeps_offset Scenario.consumer (Scenario.packet 103 9300)
           DEFAULT 0 c' packet' effs Hpass eq_refl Hsend).
Defined.


End ConsumerMore.

(** ** RTC::Consumer: NACK handling *)

Module ConsumerNackFacts.

Import Consumer ConsumerNack.

Section Facts.
Context {S : Type} `{!Collaborators S, !Retransmission S}.

Implicit Types (c : Consumer S) (container : list (option RtpPacket)).

Lemma same_but_retransmission_refl c : same_but_retransmission c c.
Proof. unfold same_but_retransmission. by destruct c. Qed.

Lemma same_but_retransmission_trans c1 c2 c3 :
  same_but_retransmission c1 c2 → same_but_retransmission c2 c3 →
  same_but_retransmission c1 c3.
Proof.
  unfold same_but_retransmission. destruct c1, c2, c3. cbn.
  intros [= -> -> -> -> -> -> -> -> -> -> -> -> -> -> -> -> -> -> -> ->].
  by intros [= -> -> -> -> -> -> -> -> -> -> -> -> -> -> -> -> -> -> -> ->].
Qed.

Lemma same_but_retransmission_stream c (stream : option S) :
  same_but_retransmission c (set_rtpStream stream c).
Proof. unfold same_but_retransmission. by destruct c. Qed.

(** One retransmission: one packet to the transport, counted once. *)
Lemma RetransmitRtpPacket_Ok packet c c' effs :
  RetransmitRtpPacket packet c = Ok (c', effs) →
  same_but_retransmission c c'
  ∧ is_Some (rtpStream c')
  ∧ packets (retransmittedCounter c') = packets (retransmittedCounter c) + 1
  ∧ ∃ q, effs = [TransportSend q]
         ∧ (q = packet ∨ ∃ stream, q = (RtxEncode packet stream).1).
Proof.
  unfold RetransmitRtpPacket. intros (stream & _ & Hrest)%bind_Ok.
  destruct (HasRtx stream) eqn:Hrtx.
  - destruct (RtxEncode packet stream) as [rtxPacket stream'] eqn:Hencode.
    apply bind_Ok in Hrest as (t & _ & [= <- <-]).
    split; [unfold same_but_retransmission; by destruct c|].
    split; [by eexists|]. split; [done|].
    eexists. split; [done|]. right. exists stream. by rewrite Hencode.
  - apply bind_Ok in Hrest as (t & _ & [= <- <-]).
    split; [unfold same_but_retransmission; by destruct c|].
    split; [by eexists|]. split; [done|]. eexists. split; [done|]. by left.
Qed.

Lemma retransmit_container_Ok container c c' effs :
  retransmit_container container c = Ok (c', effs) →
  same_but_retransmission c c'
  ∧ (is_Some (rtpStream c) → is_Some (rtpStream c'))
  ∧ packets (retransmittedCounter c')
    = packets (retransmittedCounter c) + Z.of_nat (length effs)
  ∧ Forall2 (λ p e, ∃ q, e = TransportSend q
                        ∧ (q = p ∨ ∃ stream, q = (RtxEncode p stream).1))
      (before_null container) effs.
Proof.
  revert c c' effs.
  induction container as [|[packet|] rest IH]; intros c c' effs; cbn.
  - intros [= <- <-]. split; [apply same_but_retransmission_refl|].
    split; [done|]. split; [simpl; lia|constructor].
  - intros ([c1 effs1] & Hone & ([c2 effs2] & Hrest & [= <- <-])%bind_Ok)%bind_Ok.
    apply RetransmitRtpPacket_Ok in Hone as (Hsame1 & Hs1 & Hcount1 & q & -> & Hq).
    apply IH in Hrest as (Hsame2 & Hs2 & Hcount2 & Hall).
    split; [by eapply same_but_retransmission_trans|].
    split; [auto|]. split; [simpl length; lia|].
    constructor; [by exists q|done].
  - intros [= <- <-]. split; [apply same_but_retransmission_refl|].
    split; [done|]. split; [simpl; lia|constructor].
Qed.

Lemma nack_items_Ok (items : list (Z * Z)) c c' effs :
  nack_items items c = Ok (c', effs) →
  same_but_retransmission c c'
  ∧ packets (retransmittedCounter c')
    = packets (retransmittedCounter c) + Z.of_nat (length effs)
  ∧ Forall (λ e, ∃ q, e = TransportSend q) effs.
Proof.
  revert c c' effs.
  induction items as [|[packetId lostPacketBitmask] rest IH]; intros c c' effs; cbn.
  - intros [= <- <-]. split; [apply same_but_retransmission_refl|].
    split; [simpl; lia|constructor].
  - intros (stream & _ & Hrest)%bind_Ok.
    destruct (RequestRtpRetransmission _ _ stream) as [container stream'].
    apply bind_Ok in Hrest
      as ([c1 effs1] & Hone & ([c2 effs2] & Hnext & [= <- <-])%bind_Ok).
    apply retransmit_container_Ok in Hone as (Hsame1 & _ & Hcount1 & Hall1).
    apply IH in Hnext as (Hsame2 & Hcount2 & Hall2).
    split.
    + eapply same_but_retransmission_trans; [|exact Hsame2].
      eapply same_but_retransmission_trans; [|exact Hsame1].
      apply same_but_retransmission_stream.
    + split.
      * rewrite length_app. cbn [retransmittedCounter set_rtpStream] in Hcount1. lia.
      * apply Forall_app. split; [|done].
        clear -Hall1. induction Hall1 as [|p e ps es (q & -> & _) _ IHall];
          constructor; eauto.
Qed.

(** X12: [ReceiveNack] does nothing on a consumer that is not Enabled.
    When it returns, it has touched nothing of the consumer but the stream
    and the retransmitted counter (the output sequence number and
    timestamp, the transmitted counter and the flags are as before),
    everything it did to the outside was handing packets to the transport,
    and the retransmitted counter has counted exactly those packets. *)
Theorem ReceiveNack_retransmits_only (items : list (Z * Z)) c :
  (transport c = None → ReceiveNack items c = Ok (c, []))
  ∧ ∀ c' effs,
      ReceiveNack items c = Ok (c', effs) →
      same_but_retransmission c c'
      ∧ Forall (λ e, ∃ q, e = TransportSend q) effs
      ∧ packets (retransmittedCounter c')
        = packets (retransmittedCounter c) + Z.of_nat (length effs).
Proof.
  unfold ReceiveNack, IsEnabled. split.
  - intros Hoff. by rewrite bool_decide_eq_false_2 by (by intros Hn).
  - intros c' effs. destruct (negb _).
    + intros [= <- <-]. split; [apply same_but_retransmission_refl|].
      split; [constructor|simpl; lia].
    + intros (Hsame & Hcount & Hall)%nack_items_Ok. done.
Qed.

(** The inner loop of [ReceiveNack] on an Enabled consumer that owns its
    stream. *)
Lemma retransmit_container_exact container :
  ∀ c stream,
    transport c ≠ None →
    rtpStream c = Some stream →
    ∃ c',
      retransmit_container container c
      = Ok (c', TransportSend <$> (rtx_encoded (before_null container) stream).1)
      ∧ transport c' = transport c
      ∧ rtpStream c' = Some (rtx_encoded (before_null container) stream).2
      ∧ packets (retransmittedCounter c')
        = packets (retransmittedCounter c)
          + Z.of_nat (length (before_null container)).
Proof.
  induction container as [|[packet|] rest IH]; intros c stream Hon Hstream;
    cbn [retransmit_container before_null rtx_encoded fst snd fmap list_fmap length].
  - exists c. rewrite Z.add_0_r. by cbn [mret outcome_ret].
  - unfold RetransmitRtpPacket. rewrite Hstream. cbn [deref mbind outcome_bind].
    destruct (if HasRtx stream then RtxEncode packet stream else (packet, stream))
      as [rtxPacket stream1].
    cbn [transport set_retransmittedCounter set_rtpStream fst snd].
    destruct (transport c) as [t|] eqn:Ht; [|done].
    cbn [deref mbind outcome_bind mret outcome_ret].
    match goal with
    | |- context [retransmit_container rest ?c1] =>
        destruct (IH c1 stream1) as (c' & -> & Ht' & Hs' & Hcount);
          [cbn [transport set_retransmittedCounter set_rtpStream]; by rewrite Ht
          |reflexivity|]
    end.
    cbn [mbind outcome_bind mret outcome_ret app]. exists c'.
    split; [done|]. split; [rewrite Ht'; by destruct c|]. split; [done|].
    rewrite Hcount. destruct c. cbn -[Z.of_nat]. lia.
  - exists c. rewrite Z.add_0_r. by cbn [mret outcome_ret].
Qed.

(** X13: for one NACK item, on an Enabled consumer that owns its stream,
    [ReceiveNack] returns and retransmits exactly the packets of the
    container that precede its first null entry, in order: each is handed
    to the transport as it is when the stream, as it is by then, has no
    RTX, and as [RtxEncode] returned it when the stream has RTX.  The
    entries after the first null entry are never sent; the consumer keeps
    the stream as the last retransmission left it and has counted one
    retransmitted packet for each packet sent. *)
Theorem ReceiveNack_stops_at_null packetId lostPacketBitmask c stream :
  transport c ≠ None →
  rtpStream c = Some stream →
  let requested := RequestRtpRetransmission packetId lostPacketBitmask stream in
  let retransmitted := rtx_encoded (before_null requested.1) requested.2 in
  ∃ c',
    ReceiveNack [(packetId, lostPacketBitmask)] c
    = Ok (c', TransportSend <$> retransmitted.1)
    ∧ rtpStream c' = Some retransmitted.2
    ∧ packets (retransmittedCounter c')
      = packets (retransmittedCounter c)
        + Z.of_nat (length (before_null requested.1)).
Proof.
  intros Hon Hstream requested retransmitted. unfold ReceiveNack, IsEnabled.
  rewrite (bool_decide_eq_true_2 _ Hon). cbn [negb nack_items].
  rewrite Hstream. cbn [deref mbind outcome_bind].
  subst retransmitted requested.
  destruct (RequestRtpRetransmission _ _ stream) as [container stream1].
  cbn [fst snd].
  destruct (retransmit_container_exact container
              (set_rtpStream (Some stream1) c) stream1)
    as (c' & -> & _ & Hs' & Hcount); [by destruct c|by destruct c|].
  cbn [mbind outcome_bind mret outcome_ret]. rewrite app_nil_r.
  exists c'. split; [done|]. split; [done|]. rewrite Hcount. by destruct c.
Qed.

End Facts.

Lemma ReceiveNack_stops_at_null_scenario :
  transport ScenarioNack.rtx_after_two ≠ None
  ∧ HasRtx <$> rtpStream ScenarioNack.rtx_after_two = Some true
  ∧ fst <$> (RequestRtpRetransmission 1001 1
               <$> rtpStream ScenarioNack.rtx_after_two)
    = Some [ Some (ScenarioNack.forwarded 1001 8600 (Scenario.packet 101 12600));
             Some (ScenarioNack.forwarded 1002 12200 (Scenario.packet 102 16200));
             None;
             Some (Scenario.packet 0 0) ]
  ∧ ∃ c',
      ReceiveNack [(1001, 1)] ScenarioNack.rtx_after_two
      = Ok (c', [ TransportSend (ScenarioNack.rtx_clone 1 1001 8600);
                  TransportSend (ScenarioNack.rtx_clone 2 1002 12200) ])
      ∧ ScenarioNack.rtxSeq <$> rtpStream c' = Some 2
      ∧ packets (retransmittedCounter c') = 2.
Proof.
  assert (transport ScenarioNack.rtx_after_two ≠ None) as Hon by done.
  split; [exact Hon|]. split; [reflexivity|]. split; [by vm_compute|].
  destruct (ReceiveNack_stops_at_null 1001 1 ScenarioNack.rtx_after_two _ Hon
              eq_refl) as (c' & Hnack & Hstream & Hcount).
  exists c'. split; [exact Hnack|]. split; [by rewrite Hstream|exact Hcount].
Defined.

End ConsumerNackFacts.

(** ** RTC::Codecs::VP8: parsing, rewriting, packets *)

Module VP8More.

Import VP8 VP8Packet VP8Facts.

Lemma bit_range b n : bit b n = 0 ∨ bit b n = 1.
Proof.
  unfold bit. change 1 with (Z.ones 1) at 1 2. rewrite Z.land_ones by lia.
  change (2 ^ 1) with 2. change (Z.ones 1) with 1.
  pose proof (Z.mod_pos_bound (Z.shiftr b n) 2). lia.
Qed.

Lemma land_small (x : Z) (n : Z) : 0 ≤ n → 0 ≤ Z.land x (Z.ones n) < 2 ^ n.
Proof. intros Hn. rewrite Z.land_ones by done. apply Z.mod_pos_bound. lia. Qed.

Lemma two_byte_value b low :
  is_byte b → is_byte low →
  wrap16 (wrap16 (Z.shiftl (Z.land b 127) 8) + low) = Z.land b 127 * 256 + low.
Proof.
  intros Hb Hlow. pose proof (byte_low7 b Hb) as Hh. unfold is_byte in Hlow.
  unfold wrap16. rewrite Z.shiftl_mul_pow2 by lia.
  change (2 ^ 8) with 256.
  rewrite (Z.mod_small (Z.land b 127 * 256)) by lia.
  rewrite Z.mod_small by lia. done.
Qed.

(** All the cases of a successful [Parse]: the shape of the buffer and the
    flag bits that decide which fields follow. *)
Ltac parse_cases data Hbytes Hparse :=
  unfold Parse in Hparse;
  destruct data as [|?b0 [|?b1 [|?b2 [|?b3 [|?b4 [|?b5 ?rest]]]]]];
  repeat match goal with
         | H : Forall _ (_ :: _) |- _ => apply Forall_cons in H as [? H]
         end;
  cbn [lookup list_lookup mbind option_bind] in Hparse;
  try discriminate Hparse;
  split_on_bits Hparse;
  injection Hparse as <-.

(** X14: the descriptor [Parse] returns from a buffer of bytes is
    consistent with what it read: the X bit is set; the presence flags are
    the I, L and T/K bits, the pictureId having exactly one of its two
    forms when present; the whole descriptor lies inside the buffer; a
    two-byte pictureId is below 2^15 and a one-byte one below 2^7, the
    tl0PictureIndex is a byte, the temporal layer index is at most 3 and
    the key index below 32. *)
Theorem Parse_descriptor data d :
  Forall is_byte data →
  Parse data = Some d →
  extended d = 1
  ∧ hasPictureId d = bool_decide (i d ≠ 0)
  ∧ hasPictureId d = hasOneBytePictureId d || hasTwoBytesPictureId d
  ∧ hasOneBytePictureId d && hasTwoBytesPictureId d = false
  ∧ hasTl0PictureIndex d = bool_decide (l d ≠ 0)
  ∧ hasTlIndex d = bool_decide (t d ≠ 0 ∨ k d ≠ 0)
  ∧ (descriptor_length d ≤ length data)%nat
  ∧ 0 ≤ pictureId d < (if hasTwoBytesPictureId d then 2 ^ 15 else 2 ^ 7)
  ∧ is_byte (tl0PictureIndex d)
  ∧ 0 ≤ tlIndex d ≤ 3
  ∧ 0 ≤ keyIndex d < 32.
Proof.
  intros Hbytes Hparse. parse_cases data Hbytes Hparse.
  all: unfold descriptor_length, encoded_length;
    cbn [extended i l t k hasPictureId hasOneBytePictureId hasTwoBytesPictureId
         hasTl0PictureIndex hasTlIndex pictureId tl0PictureIndex tlIndex
         keyIndex length].
  all: split; [by destruct (bit_range b0 7)|].
  all: repeat match goal with
              | H : bit ?b ?n ≠ 0 |- context [bool_decide (bit ?b ?n ≠ 0)] =>
                  rewrite (bool_decide_eq_true_2 _ H)
              | H : ¬ bit ?b ?n ≠ 0 |- context [bool_decide (bit ?b ?n ≠ 0)] =>
                  rewrite (bool_decide_eq_false_2 _ H)
              | H : ?P ∨ ?Q |- context [bool_decide (?P ∨ ?Q)] =>
                  rewrite (bool_decide_eq_true_2 _ H)
              | H : ¬ (?P ∨ ?Q) |- context [bool_decide (?P ∨ ?Q)] =>
                  rewrite (bool_decide_eq_false_2 _ H)
              end.
  all: do 5 (split; [done|]).
  all: split;
    [ repeat match goal with
             | |- context [decide (?P)] => destruct (decide P); try contradiction
             end; cbn; lia |].
  all: cbn [bool_decide decide_rel]; cbn -[Z.land Z.shiftr Z.shiftl wrap16 Z.pow].
  all: repeat split;
    try (unfold is_byte in *; lia);
    try (rewrite two_byte_value by done;
         match goal with
         | Hb : is_byte ?b |- context [Z.land ?b 127] =>
             pose proof (byte_low7 b Hb)
         end; unfold is_byte in *; lia);
    try (match goal with
         | Hb : is_byte ?b |- context [Z.land ?b 127] =>
             pose proof (byte_low7 b Hb)
         end; lia);
    try (match goal with
         | |- context [Z.land ?x 3] => pose proof (land_small x 2 ltac:(lia))
         end; change (Z.ones 2) with 3 in *; change (2 ^ 2) with 4 in *; lia);
    try (match goal with
         | |- context [Z.land ?x 31] => pose proof (land_small x 5 ltac:(lia))
         end; change (Z.ones 5) with 31 in *; change (2 ^ 5) with 32 in *; lia).
Qed.

Lemma Parse_descriptor_layered :
  Forall is_byte (Scenario.layered_payload 2 7 1)
  ∧ ∃ d, Parse (Scenario.layered_payload 2 7 1) = Some d
         ∧ extended d = 1
         ∧ hasPictureId d = bool_decide (i d ≠ 0)
         ∧ hasPictureId d = hasOneBytePictureId d || hasTwoBytesPictureId d
         ∧ hasOneBytePictureId d && hasTwoBytesPictureId d = false
         ∧ hasTl0PictureIndex d = bool_decide (l d ≠ 0)
         ∧ hasTlIndex d = bool_decide (t d ≠ 0 ∨ k d ≠ 0)
         ∧ (descriptor_length d ≤ length (Scenario.layered_payload 2 7 1))%nat
         ∧ 0 ≤ pictureId d < (if hasTwoBytesPictureId d then 2 ^ 15 else 2 ^ 7)
         ∧ is_byte (tl0PictureIndex d)
         ∧ 0 ≤ tlIndex d ≤ 3
         ∧ 0 ≤ keyIndex d < 32.
Proof.
  assert (Forall is_byte (Scenario.layered_payload 2 7 1)) as Hbytes
    by (repeat constructor; unfold is_byte; simpl; lia).
  split; [exact Hbytes|].
  destruct (Parse (Scenario.layered_payload 2 7 1)) as [d|] eqn:Hparse;
    [|by vm_compute in Hparse].
  exists d. split; [reflexivity|].
  exact (Parse_descriptor _ d Hbytes Hparse).
Defined.
Lemma store_out_of_bounds offset v data :
  (length data ≤ offset)%nat → store offset v data = Fault OutOfBounds.
Proof. intros Hge. unfold store. rewrite decide_False; [done|lia]. Qed.

Ltac encode_flags d :=
  destruct (decide (extended d = 0)) as [?Hx|?Hx];
  destruct (decide (i d = 0)) as [?Hi|?Hi], (decide (l d = 0)) as [?Hl|?Hl];
  destruct (decide (i d ≠ 0)); try contradiction;
  destruct (decide (l d ≠ 0)); try contradiction;
  destruct (hasTwoBytesPictureId d), (hasOneBytePictureId d).

(** X15: [Encode] on a buffer that holds the bytes it may touch returns a
    buffer of the same length in which only bytes of the pictureId and
    tl0PictureIndex fields (from offset 2 up to the end of these fields)
    can differ; on a buffer that is too short for the fields it has to
    write, it writes outside the buffer. *)
Theorem Encode_frame d data pictureId' tl0PictureIndex' :
  ((encoded_length d ≤ length data)%nat →
   ∃ data',
     Encode d data pictureId' tl0PictureIndex' = Ok data'
     ∧ length data' = length data
     ∧ ∀ j, (j < 2 ∨ encoded_length d ≤ j)%nat → data' !! j = data !! j)
  ∧ ((2 < encoded_length d)%nat → (length data < encoded_length d)%nat →
     Encode d data pictureId' tl0PictureIndex' = Fault OutOfBounds).
Proof.
  unfold encoded_length, Encode. split.
  - intros Hlen. encode_flags d; cbn [mbind outcome_bind]; try (by eexists);
      unfold load; run_stores; cbn [mbind outcome_bind]; run_stores;
      try (eexists; split; [reflexivity|];
           rewrite ?length_insert; split; [done|];
           intros j Hj; by rewrite ?list_lookup_insert_ne by lia).
    all: match goal with
         | |- context [deref _ (?buf !! ?n)] =>
             destruct (lookup_lt_is_Some_2 buf n) as [byte ->];
             [rewrite !length_insert; lia|]
         end;
      cbn [deref mbind outcome_bind]; run_stores;
      eexists; split; [reflexivity|];
      rewrite ?length_insert; split; [done|];
      intros j Hj; by rewrite ?list_lookup_insert_ne by lia.
  - intros Hwrites Hshort. encode_flags d; cbn [mbind outcome_bind];
      try (simpl in Hwrites; lia); unfold load.
    all: repeat
      (cbn [mbind outcome_bind deref];
       match goal with
       | |- context [store ?n ?v ?buf] =>
           destruct (decide (n < length buf)%nat);
           [ rewrite (store_in_bounds n v buf) by done
           | by rewrite (store_out_of_bounds n v buf) by lia ]
       | |- context [deref _ (?buf !! ?n)] =>
           destruct (lookup_lt_is_Some_2 buf n) as [? ->];
           [rewrite ?length_insert in *; lia|]
       end).
    all: exfalso; rewrite ?length_insert in *; simpl in *; lia.
Qed.

Section Handler.
Context {M16 M8 : Type} `{!SeqManager M16, !SeqManager M8}.

Implicit Types (d : PayloadDescriptor) (context : EncodingContext M16 M8).

Lemma finish_inv d context data pictureId' tl0PictureIndex' keep context' data' :
  finish d context data pictureId' tl0PictureIndex' = Ok (keep, context', data') →
  keep = true
  ∧ GetTargetTemporalLayer context' = GetTargetTemporalLayer context
  ∧ GetCurrentTemporalLayer context' ≤ GetTargetTemporalLayer context'
  ∧ (if hasPictureId d && hasTl0PictureIndex d
     then Encode d data pictureId' tl0PictureIndex' = Ok data'
     else data' = data).
Proof.
  unfold finish.
  set (c1 := if decide (tlIndex d > _) then _ else _).
  set (c2 := if decide (GetCurrentTemporalLayer c1 > _) then _ else _).
  assert (GetTargetTemporalLayer c2 = GetTargetTemporalLayer context
          ∧ GetCurrentTemporalLayer c2 ≤ GetTargetTemporalLayer c2) as [Ht Hc].
  { unfold c2, c1. repeat case_decide; cbn in *; split; lia. }
  destruct (_ && _).
  - intros (data1 & Henc & [= <- <- <-])%bind_Ok. done.
  - intros [= <- <- <-]. done.
Qed.

(** What [Process] can return: the flag, the context and the buffer, by
    cases on the branch taken. *)
Lemma Process_inv d context data keep context' data' :
  Process d context data = Ok (keep, context', data') →
  0 ≤ GetTargetTemporalLayer context
  ∧ GetTargetTemporalLayer context' = GetTargetTemporalLayer context
  ∧ ((keep = false ∧ data' = data)
     ∨ (keep = true
        ∧ GetCurrentTemporalLayer context' ≤ GetTargetTemporalLayer context'
        ∧ ∃ pictureId' tl0PictureIndex',
            if hasPictureId d && hasTl0PictureIndex d
            then Encode d data pictureId' tl0PictureIndex' = Ok data'
            else data' = data)).
Proof.
  unfold Process. case_decide as Hneg; [done|].
  intros Hproc. split; [lia|]. revert Hproc.
  pose proof (prepare_target d context) as Hprep.
  set (ctx := prepare d context) in *.
  destruct (_ && bool_decide (tlIndex d > GetTargetTemporalLayer ctx)).
  { intros [= <- <- <-]. split; [done|]. by left. }
  destruct (_ && _ && _).
  { intros [= <- <- <-]. split; [done|]. by left. }
  destruct (if hasPictureId d then _ else _) as [[pictureId'|] pm];
    [|intros [= <- <- <-]; split; [done|by left]].
  cbn [tl0PictureIndexManager set_managers].
  destruct (if hasTl0PictureIndex d then _ else _) as [[tl0PictureIndex'|] tm];
    [|intros [= <- <- <-]; split; [done|by left]].
  intros (-> & Ht & Hc & Hdata)%finish_inv.
  split; [by rewrite Ht|]. right. split; [done|]. split; [done|]. eauto.
Qed.

(** X16: what [Process] never does.  It aborts on a negative target
    temporal layer.  When it returns, the target temporal layer is the one
    it was given; if it returns false the buffer has not been written to;
    if it returns true the current temporal layer is not above the target
    one. *)
Theorem Process_result d context data :
  (GetTargetTemporalLayer context < 0 →
   Process d context data = Fault AssertionFailed)
  ∧ ∀ keep context' data',
      Process d context data = Ok (keep, context', data') →
      GetTargetTemporalLayer context' = GetTargetTemporalLayer context
      ∧ (keep = false → data' = data)
      ∧ (keep = true →
         GetCurrentTemporalLayer context' ≤ GetTargetTemporalLayer context').
Proof.
  split.
  - intros Hneg. unfold Process. by rewrite decide_True.
  - intros keep context' data' (_ & Ht & Hcases)%Process_inv.
    split; [done|].
    destruct Hcases as [[-> ->]|(-> & Hc & _)]; by split.
Qed.

End Handler.

End VP8More.

Module VP8RewriteFacts.

Import VP8 VP8Packet VP8Rewrite VP8Facts VP8More.

Lemma marked_byte q :
  is_byte q →
  bit (Z.lor q 128) 7 ≠ 0 ∧ Z.land (Z.lor q 128) 127 = q mod 128.
Proof.
  revert q.
  apply (byte_cases (λ q, bit (Z.lor q 128) 7 ≠ 0
                          ∧ Z.land (Z.lor q 128) 127 = q mod 128)).
  by vm_compute.
Qed.

Lemma small_byte q : 0 ≤ q < 128 → ¬ bit q 7 ≠ 0 ∧ Z.land q 127 = q ∧ wrap8 q = q.
Proof.
  intros Hq. assert (is_byte q) as Hb by (unfold is_byte; lia).
  revert q Hb Hq.
  apply (byte_cases (λ q, 0 ≤ q < 128 →
                          ¬ bit q 7 ≠ 0 ∧ Z.land q 127 = q ∧ wrap8 q = q)).
  by vm_compute.
Qed.

(** The two bytes [Encode] writes for a two-byte pictureId, as [Parse]
    reads them. *)
Lemma written_two_bytes p :
  0 ≤ p < 65536 →
  let high := Z.lor (Z.land (Z.shiftr p 8) 255) 128 in
  let low := Z.land p 255 in
  bit high 7 ≠ 0
  ∧ wrap16 (wrap16 (Z.shiftl (Z.land high 127) 8) + low) = p mod 2 ^ 15.
Proof.
  intros Hp. cbv zeta.
  assert (Z.land (Z.shiftr p 8) 255 = p / 256) as ->.
  { rewrite Z.shiftr_div_pow2 by lia. change 255 with (Z.ones 8).
    rewrite Z.land_ones by lia. change (2 ^ 8) with 256.
    apply Z.mod_small. split; [apply Z.div_pos; lia|].
    apply Z.div_lt_upper_bound; lia. }
  assert (Z.land p 255 = p mod 256) as ->.
  { change 255 with (Z.ones 8). by rewrite Z.land_ones by lia. }
  assert (is_byte (p / 256)) as Hq.
  { unfold is_byte. split; [apply Z.div_pos; lia|].
    apply Z.div_lt_upper_bound; lia. }
  destruct (marked_byte _ Hq) as [Hmark ->]. split; [done|].
  unfold wrap16. rewrite Z.shiftl_mul_pow2 by lia.
  change (2 ^ 8) with 256. change (2 ^ 16) with 65536. change (2 ^ 15) with 32768.
  pose proof (Z.mod_pos_bound (p / 256) 128 ltac:(lia)).
  pose proof (Z.mod_pos_bound p 256 ltac:(lia)).
  rewrite (Z.mod_small (p / 256 mod 128 * 256)) by lia.
  rewrite Z.mod_small by lia.
  apply Z.mod_unique with (p / 256 / 128); [lia|].
  pose proof (Z.div_mod p 256 ltac:(lia)).
  pose proof (Z.div_mod (p / 256) 128 ltac:(lia)). lia.
Qed.

(** X17: what [Encode] writes, [Parse] reads back.  On a buffer of bytes
    from which [Parse] returned the descriptor [d], [Encode] with a
    pictureId of sixteen bits (of seven bits for the one-byte form) makes
    the buffer parse to [d] with the low eight bits of the written
    tl0PictureIndex and the written pictureId, of which the two-byte form
    keeps the low fifteen bits; nothing else of the descriptor changes. *)
Theorem Encode_Parse data d pictureId' tl0PictureIndex' data' :
  Forall is_byte data →
  Parse data = Some d →
  0 ≤ pictureId' < (if hasOneBytePictureId d then 2 ^ 7 else 2 ^ 16) →
  Encode d data pictureId' tl0PictureIndex' = Ok data' →
  Parse data'
  = Some (with_ids (encoded_pictureId d pictureId')
                   (encoded_tl0PictureIndex d tl0PictureIndex') d).
Proof.
  intros Hbytes Hparse Hp. revert data'. parse_cases data Hbytes Hparse.
  all: unfold Encode, encoded_pictureId, encoded_tl0PictureIndex, with_ids;
    cbn [extended i l hasTwoBytesPictureId hasOneBytePictureId pictureId
         tl0PictureIndex hasTl0PictureIndex hasPictureId] in Hp |- *.
  all: resolve_bits.
  all: unfold load; cbn -[Z.land Z.shiftr Z.shiftl Z.lor wrap8 wrap16 store Z.pow] in Hp |- *.
  all: run_stores.
  all: intros data' [= <-].
  all: try (destruct (small_byte pictureId' ltac:(lia)) as (Hclear & Hlow & ->)).
  all: try (destruct (written_two_bytes pictureId' ltac:(lia)) as [Hmark Hvalue];
            cbv zeta in Hmark, Hvalue).
  all: unfold Parse; cbn [lookup list_lookup mbind option_bind].
  all: repeat (match goal with
               | |- context [decide (?P)] => destruct (decide P); try contradiction
               end; cbn [lookup list_lookup mbind option_bind]).
  all: by rewrite ?Hvalue, ?Hlow.
Qed.

Lemma Encode_Parse_layered :
  Forall is_byte (Scenario.layered_payload 2 7 1)
  ∧ ∃ d data',
      Parse (Scenario.layered_payload 2 7 1) = Some d
      ∧ 0 ≤ 40000 < (if hasOneBytePictureId d then 2 ^ 7 else 2 ^ 16)
      ∧ Encode d (Scenario.layered_payload 2 7 1) 40000 265 = Ok data'
      ∧ Parse data'
        = Some (with_ids (encoded_pictureId d 40000)
                         (encoded_tl0PictureIndex d 265) d)
      ∧ encoded_tl0PictureIndex d 265 = 9.
Proof.
  assert (Forall is_byte (Scenario.layered_payload 2 7 1)) as Hbytes
    by (repeat constructor; unfold is_byte; simpl; lia).
  split; [exact Hbytes|].
  destruct (Parse (Scenario.layered_payload 2 7 1)) as [d|] eqn:Hparse;
    [|by vm_compute in Hparse].
  assert (0 ≤ 40000 < (if hasOneBytePictureId d then 2 ^ 7 else 2 ^ 16)) as Hp.
  { vm_compute in Hparse. injection Hparse as <-. by vm_compute. }
  destruct (Encode d (Scenario.layered_payload 2 7 1) 40000 265)
    as [data'|f] eqn:Henc.
  2: { vm_compute in Hparse. injection Hparse as <-. by vm_compute in Henc. }
  exists d, data'. split; [reflexivity|]. split; [exact Hp|].
  split; [exact Henc|].
  split; [exact (Encode_Parse _ d 40000 265 data' Hbytes Hparse Hp Henc)|].
  vm_compute in Hparse. injection Hparse as <-. by vm_compute.
Defined.

(** [Restore] undoes what [Encode] may have written to a parsed buffer. *)
Lemma Restore_undoes data d data' :
  Forall is_byte data →
  Parse data = Some d →
  (data' = data ∨ ∃ p t, Encode d data p t = Ok data') →
  Restore d data' = Ok data.
Proof.
  intros Hbytes Hparse Hcase. revert data' Hcase.
  parse_cases data Hbytes Hparse.
  all: intros data' [->|(p & t & Henc)]; [|revert Henc].
  all: try (unfold Encode at 1;
            cbn [extended i l hasTwoBytesPictureId hasOneBytePictureId];
            resolve_bits;
            unfold load;
            cbn -[Z.land Z.shiftr Z.shiftl Z.lor wrap8 wrap16 store Restore];
            run_stores; intros [= <-]).
  all: unfold Restore, Encode;
    cbn [extended i l hasTwoBytesPictureId hasOneBytePictureId pictureId
         tl0PictureIndex].
  all: resolve_bits.
  all: unfold load; cbn -[Z.land Z.shiftr Z.shiftl Z.lor wrap8 wrap16 store].
  all: run_stores.
  all: repeat match goal with
       | Hb : is_byte ?b |- context [wrap8 ?b] => rewrite (byte_wrap8 b Hb)
       end.
  all: try done.
  all: try (rewrite byte_marker_clear by done; done).
  all: try (match goal with
            | Hb : is_byte ?b, Hlow : is_byte ?low
              |- context [wrap16 (wrap16 (Z.shiftl (Z.land ?b 127) 8) + ?low)] =>
                destruct (two_byte_pictureId b low Hb Hlow) as [-> ->]
            end; rewrite byte_marker_set by done; done).
Qed.

Section Handler.
Context {M16 M8 : Type} `{!SeqManager M16, !SeqManager M8}.

(** X18: whatever [Process] did to the buffer of a parsed packet, the
    handler's [Restore] gives the buffer back as it was parsed. *)
Theorem Process_then_Restore d (context : EncodingContext M16 M8) data
    keep context' data' :
  Forall is_byte data →
  Parse data = Some d →
  Process d context data = Ok (keep, context', data') →
  HandlerRestore d data' = Ok data.
Proof.
  intros Hbytes Hparse (_ & _ & Hcases)%Process_inv.
  unfold HandlerRestore.
  destruct (hasPictureId d && hasTl0PictureIndex d).
  - apply Restore_undoes; [done..|].
    destruct Hcases as [[_ ->]|(_ & _ & p & t & Henc)]; [by left|].
    right. by exists p, t.
  - destruct Hcases as [[_ ->]|(_ & _ & _ & _ & ->)]; done.
Qed.

End Handler.

Lemma Process_then_Restore_layered :
  Forall is_byte (Scenario.layered_payload 4 8 0)
  ∧ ∃ d context' data',
      Parse (Scenario.layered_payload 4 8 0) = Some d
      ∧ Process d ScenarioVP8.after_drop (Scenario.layered_payload 4 8 0)
        = Ok (true, context', data')
      ∧ data' = Scenario.layered_payload 3 8 0
      ∧ HandlerRestore d data' = Ok (Scenario.layered_payload 4 8 0).
Proof.
  assert (Forall is_byte (Scenario.layered_payload 4 8 0)) as Hbytes
    by (repeat constructor; unfold is_byte; simpl; lia).
  split; [exact Hbytes|].
  destruct (Parse (Scenario.layered_payload 4 8 0)) as [d|] eqn:Hparse;
    [|by vm_compute in Hparse].
  destruct (Process d ScenarioVP8.after_drop (Scenario.layered_payload 4 8 0))
    as [[[keep context'] data']|f] eqn:Hproc.
  2: { vm_compute in Hparse. injection Hparse as <-. by vm_compute in Hproc. }
  assert (keep = true ∧ data' = Scenario.layered_payload 3 8 0) as [-> Hdata].
  { vm_compute in Hparse. injection Hparse as <-.
    vm_compute in Hproc. injection Hproc as <- <- <-. by vm_compute. }
  exists d, context', data'. split; [reflexivity|]. split; [exact Hproc|].
  split; [exact Hdata|].
  exact (Process_then_Restore d _ _ _ _ _ Hbytes Hparse Hproc).
Defined.

End VP8RewriteFacts.

Module VP8PacketFacts.

Import VP8 VP8Packet VP8Facts VP8More.

Lemma clear_byte b : is_byte b → ¬ bit b 7 ≠ 0 → Z.land b 127 = b.
Proof.
  revert b. apply (byte_cases (λ b, ¬ bit b 7 ≠ 0 → Z.land b 127 = b)).
  by vm_compute.
Qed.

Lemma expanded_pictureId b :
  is_byte b → wrap16 (wrap16 (Z.shiftl (Z.land 128 127) 8) + b) = b.
Proof.
  intros Hb. unfold is_byte in Hb. change (Z.shiftl (Z.land 128 127) 8) with 0.
  unfold wrap16. rewrite Zmod_0_l. simpl (0 + b). apply Z.mod_small.
  change (2 ^ 16) with 65536. lia.
Qed.

(** X19: [ProcessRtpPacket] attaches no handler to a payload that does
    not parse, and leaves alone a payload whose pictureId is absent or has
    two bytes.  A one-byte pictureId is expanded: the payload grows by one
    byte, the packet is otherwise the same, and the descriptor given to
    the handler, which has the two-byte form and the same pictureId, is
    the one [Parse] returns from the new payload. *)
Theorem ProcessRtpPacket_expands ShiftPayload packet :
  shifts ShiftPayload →
  Forall is_byte (GetPayload packet) →
  match Parse (GetPayload packet) with
  | None => ProcessRtpPacket ShiftPayload packet = Ok (packet, None)
  | Some d =>
      if hasOneBytePictureId d then
        ∃ data',
          ProcessRtpPacket ShiftPayload packet
          = Ok (SetPayload data' packet, Some (expanded d))
          ∧ length data' = S (length (GetPayload packet))
          ∧ Parse data' = Some (expanded d)
      else ProcessRtpPacket ShiftPayload packet = Ok (packet, Some d)
  end.
Proof.
  intros Hshift Hbytes. unfold ProcessRtpPacket.
  destruct (Parse (GetPayload packet)) as [d|] eqn:Hparse; [|done].
  generalize dependent (GetPayload packet). intros data Hbytes Hparse.
  parse_cases data Hbytes Hparse.
  all: cbn [hasOneBytePictureId]; try done.
  all: match goal with
       | |- context [store _ _ (_ _ _ ?payload)] =>
           destruct (Hshift 2%nat 1%nat payload) as ([|g [|]] & Hgap & ->);
           [simpl; lia|try discriminate Hgap..]
       end.
  all: cbn [take drop app]; run_stores; cbn [mbind outcome_bind mret outcome_ret].
  all: eexists; split; [reflexivity|]; split; [done|].
  all: unfold Parse, expanded; cbn [lookup list_lookup mbind option_bind].
  all: assert (bit 128 7 ≠ 0) by (by vm_compute).
  all: repeat (match goal with
               | |- context [decide (?P)] => destruct (decide P); try contradiction
               end; cbn [lookup list_lookup mbind option_bind]).
  all: cbn [extended nonReference start partitionIndex i l t k pictureId
            tl0PictureIndex tlIndex y keyIndex isKeyFrame hasPictureId
            hasTl0PictureIndex hasTlIndex].
  all: rewrite expanded_pictureId, clear_byte by done.
  all: reflexivity.
Qed.

Lemma shift_up_shifts : shifts shift_up.
Proof.
  intros offset shift payload _. exists (replicate shift 0).
  split; [apply length_replicate|done].
Qed.

Lemma ProcessRtpPacket_expands_scenario :
  shifts shift_up
  ∧ Forall is_byte (GetPayload (Scenario.packet 101 12600))
  ∧ ∃ d,
      Parse (GetPayload (Scenario.packet 101 12600)) = Some d
      ∧ hasOneBytePictureId d = true
      ∧ ∃ data',
          ProcessRtpPacket shift_up (Scenario.packet 101 12600)
          = Ok (SetPayload data' (Scenario.packet 101 12600), Some (expanded d))
          ∧ length data' = S (length (GetPayload (Scenario.packet 101 12600)))
          ∧ Parse data' = Some (expanded d).
Proof.
  assert (Forall is_byte (GetPayload (Scenario.packet 101 12600))) as Hbytes
    by (repeat constructor; unfold is_byte; simpl; lia).
  split; [exact shift_up_shifts|]. split; [exact Hbytes|].
  pose proof (ProcessRtpPacket_expands shift_up (Scenario.packet 101 12600)
                shift_up_shifts Hbytes) as Hexpands.
  destruct (Parse (GetPayload (Scenario.packet 101 12600))) as [d|] eqn:Hparse;
    [|by vm_compute in Hparse].
  exists d. split; [reflexivity|].
  destruct (hasOneBytePictureId d) eqn:Hone.
  2: { vm_compute in Hparse. injection Hparse as <-. by vm_compute in Hone. }
  split; [reflexivity|]. exact Hexpands.
Defined.

End VP8PacketFacts.

Module RoomCapabilitiesFacts.

Import RoomCapabilities.

Lemma dynamicPayloadTypes_NoDup : NoDup dynamicPayloadTypes.
Proof. apply (bool_decide_unpack _). by vm_compute. Qed.

Lemma next_free_spec it used found it' :
  next_free it used = (found, it') →
  ∃ skipped,
    (∀ x, x ∈ skipped → x ∈ used)
    ∧ match found with
      | Some payloadType => it = skipped ++ payloadType :: it' ∧ payloadType ∉ used
      | None => it = skipped ∧ it' = []
      end.
Proof.
  revert found it'. induction it as [|x it IH]; intros found it'; cbn [next_free].
  { intros [= <- <-]. exists []. split; [set_solver|done]. }
  case_decide as Hx.
  - intros (skipped & Hskipped & Hfound)%IH. exists (x :: skipped). split.
    + set_solver.
    + destruct found; [destruct Hfound as [-> ?]|destruct Hfound as [-> ?]]; done.
  - intros [= <- <-]. exists []. split; [set_solver|done].
Qed.

(** The loop from any state it can reach: [consumed] is the part of the
    dynamic payload types behind the iterator, [out] the codecs appended
    so far. *)
Lemma set_codecs_spec mediaCodecs :
  ∀ consumed it used codecs out,
    consumed ++ it = dynamicPayloadTypes →
    (∀ x, x ∈ used ↔ x ∈ payloadType <$> out) →
    (∀ x, x ∈ consumed → x ∈ used) →
    NoDup (payloadType <$> out) →
    (length out + length mediaCodecs ≤ length dynamicPayloadTypes)%nat →
    ∃ out',
      set_codecs mediaCodecs it used (codecs ++ out)
      = (codecs ++ out ++ out', None)
      ∧ length out' = length mediaCodecs
      ∧ NoDup (payloadType <$> out ++ out')
      ∧ Forall (λ codec, hasPayloadType codec = true) out'
      ∧ kind <$> out' = kind <$> mediaCodecs
      ∧ ∀ j codec,
          mediaCodecs !! j = Some codec →
          hasPayloadType codec = true →
          payloadType codec ∉ payloadType <$> out ++ take j out' →
          out' !! j = Some codec.
Proof.
  induction mediaCodecs as [|mediaCodec rest IH];
    intros consumed it used codecs out Hit Hused Hconsumed Hnodup Hlen.
  { exists []. cbn [set_codecs]. rewrite !app_nil_r. by repeat split. }
  cbn [set_codecs length] in Hlen |- *.
  assert (∀ mediaCodec' consumed' it',
            consumed' ++ it' = dynamicPayloadTypes →
            (∀ x, x ∈ consumed' → x ∈ used ∪ {[payloadType mediaCodec']}) →
            payloadType mediaCodec' ∉ used →
            hasPayloadType mediaCodec' = true →
            kind mediaCodec' = kind mediaCodec →
            (hasPayloadType mediaCodec = true →
             payloadType mediaCodec ∉ used → mediaCodec' = mediaCodec) →
            ∃ out',
              set_codecs rest it' (used ∪ {[payloadType mediaCodec']})
                ((codecs ++ out) ++ [mediaCodec'])
              = (codecs ++ out ++ out', None)
              ∧ length out' = S (length rest)
              ∧ NoDup (payloadType <$> out ++ out')
              ∧ Forall (λ codec, hasPayloadType codec = true) out'
              ∧ kind <$> out' = kind <$> mediaCodec :: rest
              ∧ ∀ j codec,
                  (mediaCodec :: rest) !! j = Some codec →
                  hasPayloadType codec = true →
                  payloadType codec ∉ payloadType <$> out ++ take j out' →
                  out' !! j = Some codec) as Hnext.
  { intros mediaCodec' consumed' it' Hit' Hconsumed' Hfresh Hhas Hkind Hkeep.
    destruct (IH consumed' it' (used ∪ {[payloadType mediaCodec']}) codecs
                (out ++ [mediaCodec']))
      as (out' & Hrun & Hlen' & Hnodup' & Hhas' & Hkinds & Hkeeps).
    - done.
    - intros x. rewrite fmap_app, elem_of_union, elem_of_app, Hused. set_solver.
    - done.
    - rewrite fmap_app. apply NoDup_app. split; [done|]. split.
      + intros x Hx. rewrite <- Hused in Hx. set_solver.
      + apply NoDup_singleton.
    - rewrite length_app. cbn [length]. lia.
    - exists (mediaCodec' :: out'). rewrite <- !(assoc_L (++)) in Hrun.
      rewrite <- !(assoc_L (++)) in Hnodup'. cbn [app] in Hrun, Hnodup'.
      rewrite <- (assoc_L (++)). split; [exact Hrun|].
      split; [cbn [length]; lia|]. split; [done|].
      split; [by constructor|]. split; [cbn [fmap list_fmap]; by f_equal|].
      intros [|j] codec Hj Hcodec Helem.
      + injection Hj as <-. cbn [lookup list_lookup]. f_equal. apply Hkeep; [done|].
        rewrite Hused. by rewrite take_0, app_nil_r in Helem.
      + cbn [lookup list_lookup] in Hj |- *. apply Hkeeps; [done..|].
        by rewrite <- (assoc_L (++)). }
  destruct (hasPayloadType mediaCodec
            && bool_decide (payloadType mediaCodec ∉ used)) eqn:Hkept.
  - apply andb_true_iff in Hkept as [Hhas Hfresh%bool_decide_eq_true].
    apply (Hnext mediaCodec consumed it); try done. set_solver.
  - destruct (next_free it used) as [found it'] eqn:Hfree.
    apply next_free_spec in Hfree as (skipped & Hskipped & Hfound).
    destruct found as [payloadType'|].
    + destruct Hfound as [-> Hfresh]. cbn [assign hasPayloadType negb].
      apply (Hnext (assign payloadType' mediaCodec)
               (consumed ++ skipped ++ [payloadType']) it'); try done.
      * by rewrite <- !(assoc_L (++)).
      * cbn [assign payloadType]. set_solver.
      * intros Hhas Hfree. exfalso. rewrite Hhas in Hkept.
        by rewrite bool_decide_eq_true_2 in Hkept.
    + destruct Hfound as [-> ->]. exfalso.
      assert (dynamicPayloadTypes ⊆+ payloadType <$> out) as Hsub.
      { apply NoDup_submseteq; [apply dynamicPayloadTypes_NoDup|].
        intros x Hx. rewrite <- Hit in Hx. apply Hused. set_solver. }
      apply submseteq_length in Hsub. rewrite length_fmap in Hsub. lia.
Qed.

(** X20: given at most as many codecs as there are dynamic payload types
    (88), [SetCapabilities] does not throw and appends one codec for each
    given one, in order and of the same kind; every appended codec has a
    payload type, these payload types are pairwise distinct, and a codec
    that came with a payload type no codec before it has taken is appended
    untouched. *)
Theorem SetCapabilities_unique mediaCodecs codecs :
  (length mediaCodecs ≤ length dynamicPayloadTypes)%nat →
  ∃ out,
    SetCapabilities mediaCodecs codecs = (codecs ++ out, None)
    ∧ length out = length mediaCodecs
    ∧ NoDup (payloadType <$> out)
    ∧ Forall (λ codec, hasPayloadType codec = true) out
    ∧ kind <$> out = kind <$> mediaCodecs
    ∧ ∀ j codec,
        mediaCodecs !! j = Some codec →
        hasPayloadType codec = true →
        payloadType codec ∉ payloadType <$> take j out →
        out !! j = Some codec.
Proof.
  intros Hlen. unfold SetCapabilities.
  destruct (set_codecs_spec mediaCodecs [] dynamicPayloadTypes ∅ codecs [])
    as (out & Hrun & Hrest);
    [first [done|set_solver|apply NoDup_nil_2]..|].
  rewrite app_nil_r in Hrun. cbn [app fmap list_fmap] in Hrun, Hrest.
  by exists out.
Qed.

Lemma SetCapabilities_unique_scenario :
  (length ScenarioCapabilities.offered ≤ length dynamicPayloadTypes)%nat
  ∧ SetCapabilities ScenarioCapabilities.offered []
    = ([ {| kind := AUDIO; hasPayloadType := true; payloadType := 100 |};
         {| kind := VIDEO; hasPayloadType := true; payloadType := 101 |};
         {| kind := VIDEO; hasPayloadType := true; payloadType := 96 |} ], None)
  ∧ ∃ out,
      SetCapabilities ScenarioCapabilities.offered [] = ([] ++ out, None)
      ∧ length out = length ScenarioCapabilities.offered
      ∧ NoDup (payloadType <$> out)
      ∧ Forall (λ codec, hasPayloadType codec = true) out
      ∧ kind <$> out = kind <$> ScenarioCapabilities.offered
      ∧ ∀ j codec,
          ScenarioCapabilities.offered !! j = Some codec →
          hasPayloadType codec = true →
          payloadType codec ∉ payloadType <$> take j out →
          out !! j = Some codec.
Proof.
  assert (length ScenarioCapabilities.offered ≤ length dynamicPayloadTypes)%nat
    as Hlen by (simpl; lia).
  split; [exact Hlen|]. split; [by vm_compute|].
  exact (SetCapabilities_unique ScenarioCapabilities.offered [] Hlen).
Defined.

(** The loop on codecs that have no payload type, from any state it can
    reach. *)
Lemma set_codecs_in_order mediaCodecs :
  Forall (λ codec, hasPayloadType codec = false) mediaCodecs →
  ∀ consumed it used codecs,
    consumed ++ it = dynamicPayloadTypes →
    (∀ x, x ∈ used ↔ x ∈ consumed) →
    set_codecs mediaCodecs it used codecs
    = (codecs ++ zip_with assign it mediaCodecs,
       if decide (length mediaCodecs ≤ length it)%nat then None
       else Some "no more available dynamic payload types for given media codecs").
Proof.
  induction 1 as [|mediaCodec rest Hnone _ IH];
    intros consumed it used codecs Hit Hused.
  { cbn [set_codecs length]. rewrite decide_True by lia.
    destruct it; cbn [zip_with]; by rewrite app_nil_r. }
  cbn [set_codecs]. rewrite Hnone. cbn [andb].
  destruct it as [|x it]; cbn [next_free zip_with length].
  { rewrite Hnone. cbn [negb]. rewrite decide_False by lia.
    by rewrite app_nil_r. }
  assert (x ∉ used) as Hfresh.
  { rewrite Hused. pose proof dynamicPayloadTypes_NoDup as Hnodup.
    rewrite <- Hit in Hnodup. apply NoDup_app in Hnodup as (_ & Hdisjoint & _).
    intros Hx. apply (Hdisjoint x Hx). set_solver. }
  rewrite decide_False by done. cbn [assign hasPayloadType negb payloadType].
  rewrite (IH (consumed ++ [x])).
  - rewrite <- (assoc_L (++)). cbn [app]. f_equal.
    destruct (decide (length rest ≤ length it)%nat);
      [by rewrite decide_True by lia|by rewrite decide_False by lia].
  - by rewrite <- (assoc_L (++)).
  - intros y. rewrite elem_of_union, elem_of_app, Hused. set_solver.
Qed.

(** X21: codecs that come without a payload type are given the dynamic
    payload types in their order.  When there are more such codecs than
    dynamic payload types, [SetCapabilities] throws, having appended one
    codec for each dynamic payload type. *)
Theorem SetCapabilities_in_order mediaCodecs codecs :
  Forall (λ codec, hasPayloadType codec = false) mediaCodecs →
  SetCapabilities mediaCodecs codecs
  = (codecs ++ zip_with assign dynamicPayloadTypes mediaCodecs,
     if decide (length mediaCodecs ≤ length dynamicPayloadTypes)%nat then None
     else Some "no more available dynamic payload types for given media codecs").
Proof.
  intros Hnone. unfold SetCapabilities.
  apply (set_codecs_in_order mediaCodecs Hnone []); [done|set_solver].
Qed.

Lemma SetCapabilities_in_order_scenario :
  Forall (λ codec, hasPayloadType codec = false) ScenarioCapabilities.too_many
  ∧ length (SetCapabilities ScenarioCapabilities.too_many []).1 = 88%nat
  ∧ SetCapabilities ScenarioCapabilities.too_many []
    = ([] ++ zip_with assign dynamicPayloadTypes ScenarioCapabilities.too_many,
       if decide (length ScenarioCapabilities.too_many
                  ≤ length dynamicPayloadTypes)%nat
       then None
       else Some "no more available dynamic payload types for given media codecs").
Proof.
  assert (Forall (λ codec, hasPayloadType codec = false)
            ScenarioCapabilities.too_many) as Hnone
    by (by apply Forall_replicate).
  split; [exact Hnone|]. split; [by vm_compute|].
  exact (SetCapabilities_in_order ScenarioCapabilities.too_many [] Hnone).
Defined.

End RoomCapabilitiesFacts.

Module RtpSenderFacts.

Import RtpSender RtpSenderSend.

Section Facts.
Context {S C : Type} `{!Collaborators S, !Iteration}.
Variable Matches : C → RtpCodecParameters → bool.
Variable NewRtpStreamSend : Z → Z → S.

Implicit Types (s : RtpSender S) (packet : RtpPacket).

(** X22: [SendRtpPacket] hands the transport nothing, or the packet it
    was given and nothing else; it does so only if the sender is available,
    has a transport and supports the payload type of the packet.  Nothing
    of the sender but its stream changes, and a sender that is not
    available or has no transport does not even show the packet to its
    stream.  The assertion fails exactly when an available sender with a
    transport has no stream. *)
Theorem SendRtpPacket_only_supported s packet :
  (∀ s' effs,
     SendRtpPacket s packet = Ok (s', effs) →
     (effs = [] ∨ effs = [TransportSend packet])
     ∧ (effs ≠ [] →
        available s = true ∧ transport s ≠ None
        ∧ GetPayloadType packet ∈ supportedPayloadTypes s)
     ∧ set_rtpStream (rtpStream s) s' = s
     ∧ (available s = false ∨ transport s = None → s' = s))
  ∧ (SendRtpPacket s packet = Fault AssertionFailed
     ↔ available s = true ∧ transport s ≠ None ∧ rtpStream s = None).
Proof.
  unfold SendRtpPacket. destruct s as [id k li ps tr av sup st].
  cbn [available transport rtpStream supportedPayloadTypes set_rtpStream
       rtpSenderId kind listener rtpParameters].
  destruct av; cbn [negb orb]; [case_bool_decide as Htr|];
    cbn [mret outcome_ret].
  - subst tr. split; [|split; [done|by intros (_ & ? & _)]].
    intros s' effs [= <- <-]. split; [by left|].
    split; [intros Hne; by destruct Hne|]. by split.
  - destruct st as [stream|]; cbn [deref mbind outcome_bind];
      [|split; [done|by split]].
    destruct (ReceivePacket packet stream) as [accepted stream'].
    cbn [available transport rtpStream supportedPayloadTypes set_rtpStream
         rtpSenderId kind listener rtpParameters].
    split.
    + destruct accepted; cbn [negb]; [case_bool_decide as Hpt|];
        cbn [mret outcome_ret]; intros s' effs [= <- <-];
        cbn [set_rtpStream rtpSenderId kind listener rtpParameters transport
             available supportedPayloadTypes rtpStream].
      * split; [by left|]. split; [intros Hne; by destruct Hne|].
        split; [done|]. by intros [|].
      * split; [by right|]. split; [|split; [done|by intros [|]]].
        intros _. split; [done|]. by split.
      * split; [by left|]. split; [intros Hne; by destruct Hne|].
        split; [done|]. by intros [|].
    + split; [|by intros (_ & _ & ?)].
      destruct accepted; cbn [negb]; [case_bool_decide|]; done.
  - split; [|split; [done|by intros (? & _)]].
    intros s' effs [= <- <-]. split; [by left|].
    split; [intros Hne; by destruct Hne|]. by split.
Qed.

Lemma Send_Ok peerCodecs given s s' effs :
  Send Matches NewRtpStreamSend (Some peerCodecs) (Some given) s = Ok (s', effs) →
  rtpParameters s'
  = Some {| codecs := kept_codecs Matches peerCodecs given;
            encodings := kept_encodings Matches peerCodecs given s;
            cname := cname given |}
  ∧ supportedPayloadTypes s' = supported_after Matches peerCodecs given s
  ∧ available s' = bool_decide (kept_encodings Matches peerCodecs given s ≠ [])
  ∧ (available s' = true → is_Some (rtpStream s'))
  ∧ (available s' = false → rtpStream s' = rtpStream s)
  ∧ rtpSenderId s' = rtpSenderId s ∧ kind s' = kind s
  ∧ transport s' = transport s ∧ listener s' = listener s
  ∧ (effs = [] ↔ rtpParameters s = None).
Proof.
  unfold Send. cbn [deref mbind outcome_bind].
  destruct (kept_encodings Matches peerCodecs given s) as [|encoding rest].
  - cbn. intros [= <- <-]. cbn.
    repeat split; try done; by destruct (rtpParameters s).
  - destruct (list_find _ _) as [[j codec]|]; [|done].
    cbn. intros [= <- <-]. cbn.
    repeat split; try done; by destruct (rtpParameters s).
Qed.

Lemma elem_of_kept_codecs peerCodecs given codec :
  codec ∈ kept_codecs Matches peerCodecs given
  ↔ codec ∈ codecs given ∧ supported_codec Matches peerCodecs codec.
Proof. unfold kept_codecs. rewrite list_elem_of_filter. tauto. Qed.

Lemma elem_of_supported_after peerCodecs given s pt :
  pt ∈ supported_after Matches peerCodecs given s
  ↔ pt ∈ supportedPayloadTypes s
    ∨ ∃ codec, codec ∈ kept_codecs Matches peerCodecs given
               ∧ payloadType codec = pt.
Proof.
  unfold supported_after.
  rewrite elem_of_union, elem_of_list_to_set, list_elem_of_fmap. naive_solver.
Qed.

(** X23: the first [Send] of a sender (no payload type is supported yet)
    whose peer capabilities are set does not abort.  It keeps the given
    codecs that a codec capability of the peer matches and the given
    encodings whose payload type is the one of a kept codec; the supported
    payload types are those of the kept codecs; the sender is available if
    and only if an encoding is left, and an available sender has a stream;
    nothing is emitted for a sender that had no parameters. *)
Theorem Send_first peerCodecs given s :
  supportedPayloadTypes s = ∅ →
  ∃ s' effs ps,
    Send Matches NewRtpStreamSend (Some peerCodecs) (Some given) s = Ok (s', effs)
    ∧ rtpParameters s' = Some ps
    ∧ (∀ codec, codec ∈ codecs ps
                ↔ codec ∈ codecs given ∧ supported_codec Matches peerCodecs codec)
    ∧ (∀ pt, pt ∈ supportedPayloadTypes s'
             ↔ ∃ codec, codec ∈ codecs ps ∧ payloadType codec = pt)
    ∧ (∀ encoding, encoding ∈ encodings ps
                   ↔ encoding ∈ encodings given
                     ∧ ∃ codec, codec ∈ codecs ps
                                ∧ payloadType codec = codecPayloadType encoding)
    ∧ (available s' = true ↔ encodings ps ≠ [])
    ∧ (available s' = true → is_Some (rtpStream s'))
    ∧ (rtpParameters s = None → effs = []).
Proof.
  intros Hfresh.
  assert (∀ pt, pt ∈ supported_after Matches peerCodecs given s
                ↔ ∃ codec, codec ∈ kept_codecs Matches peerCodecs given
                           ∧ payloadType codec = pt) as Hsupported.
  { intros pt. rewrite elem_of_supported_after, Hfresh. set_solver. }
  assert (∀ encoding, encoding ∈ kept_encodings Matches peerCodecs given s
                      ↔ encoding ∈ encodings given
                        ∧ ∃ codec, codec ∈ kept_codecs Matches peerCodecs given
                                   ∧ payloadType codec = codecPayloadType encoding)
    as Hencodings.
  { intros encoding. unfold kept_encodings.
    rewrite list_elem_of_filter, Hsupported. tauto. }
  destruct (Send Matches NewRtpStreamSend (Some peerCodecs) (Some given) s)
    as [[s' effs]|f] eqn:Hsend.
  - apply Send_Ok in Hsend
      as (Hps & Hsup & Hav & Hstream & _ & _ & _ & _ & _ & Heffs).
    exists s', effs. eexists. split; [done|]. split; [exact Hps|].
    cbn [codecs encodings]. rewrite Hsup.
    split; [apply elem_of_kept_codecs|]. split; [done|]. split; [done|].
    split; [by rewrite Hav, bool_decide_eq_true|]. split; [done|]. apply Heffs.
  - exfalso. unfold Send in Hsend. cbn [deref mbind outcome_bind] in Hsend.
    destruct (kept_encodings Matches peerCodecs given s)
      as [|encoding rest] eqn:Hkept; [done|].
    destruct (Hencodings encoding) as [(_ & codec & Hcodec & Hpt) _].
    { set_solver. }
    destruct (list_find _ _) as [[j codec']|] eqn:Hfind; [done|].
    apply list_find_None in Hfind. rewrite Forall_forall in Hfind.
    by apply (Hfind codec).
Qed.

(** X24: with parameters and peer capabilities given, [Send] fails only
    by the abort that "should never happen", and only on an encoding
    that was kept for a payload type the sender supported before this
    call while no kept codec has it. *)
Theorem Send_abort_stale peerCodecs given s f :
  Send Matches NewRtpStreamSend (Some peerCodecs) (Some given) s = Fault f →
  f = AssertionFailed
  ∧ ∃ encoding,
      head (kept_encodings Matches peerCodecs given s) = Some encoding
      ∧ codecPayloadType encoding ∈ supportedPayloadTypes s
      ∧ ∀ codec, codec ∈ kept_codecs Matches peerCodecs given →
                 payloadType codec ≠ codecPayloadType encoding.
Proof.
  unfold Send. cbn [deref mbind outcome_bind].
  destruct (kept_encodings Matches peerCodecs given s)
    as [|encoding rest] eqn:Hkept; [done|].
  destruct (list_find _ _) as [[j codec']|] eqn:Hfind; [done|].
  cbn. intros [= <-]. split; [done|]. exists encoding. split; [done|].
  apply list_find_None in Hfind. rewrite Forall_forall in Hfind.
  split; [|done].
  assert (encoding ∈ kept_encodings Matches peerCodecs given s) as Helem
    by (rewrite Hkept; set_solver).
  unfold kept_encodings in Helem.
  apply list_elem_of_filter in Helem as [Hpt _].
  apply elem_of_supported_after in Hpt as [?|(codec & Hcodec & Hpt)]; [done|].
  by destruct (Hfind codec Hcodec).
Qed.

(** X25: whatever [Send] made of the sender, [SendRtpPacket] then finds
    the stream its assertion asks for, and hands the transport only
    packets whose payload type is supported after that [Send]. *)
Theorem Send_then_SendRtpPacket peerCapabilities given s s' effs packet :
  Send Matches NewRtpStreamSend peerCapabilities given s = Ok (s', effs) →
  ∃ s'' effs',
    SendRtpPacket s' packet = Ok (s'', effs')
    ∧ (effs' = [] ∨ effs' = [TransportSend packet])
    ∧ (effs' ≠ [] → GetPayloadType packet ∈ supportedPayloadTypes s').
Proof.
  intros Hsend.
  destruct peerCapabilities as [peerCodecs|], given as [given|];
    try (by destruct (rtpParameters s)); try done.
  apply Send_Ok in Hsend as (_ & _ & _ & Hstream & _).
  unfold SendRtpPacket.
  destruct (negb (available s') || bool_decide (transport s' = None)) eqn:Hidle.
  { exists s', []. split; [done|]. split; [by left|]. intros Hne. by destruct Hne. }
  apply orb_false_iff in Hidle as [Hav%negb_false_iff _].
  destruct (Hstream Hav) as [stream ->]. cbn [deref mbind outcome_bind].
  destruct (ReceivePacket packet stream) as [accepted stream'].
  destruct accepted; cbn [negb];
    [case_bool_decide as Hpt; cbn [supportedPayloadTypes set_rtpStream] in Hpt|];
    eexists _, _; (split; [reflexivity|]);
    try (split; [by left|]; intros Hne; by destruct Hne).
  split; [by right|]. intros _. cbn [supportedPayloadTypes set_rtpStream].
  by destruct (decide (GetPayloadType packet ∈ supportedPayloadTypes s')).
Qed.

End Facts.

Lemma Send_first_scenario :
  supportedPayloadTypes ScenarioSend.fresh = ∅
  ∧ ∃ s' effs ps,
      Send ScenarioSend.matches ScenarioSend.new_stream (Some [101])
        (Some Scenario.parameters) ScenarioSend.fresh
      = Ok (s', effs)
      ∧ rtpParameters s' = Some ps
      ∧ (∀ codec, codec ∈ codecs ps
                  ↔ codec ∈ codecs Scenario.parameters
                    ∧ supported_codec ScenarioSend.matches [101] codec)
      ∧ (∀ pt, pt ∈ supportedPayloadTypes s'
               ↔ ∃ codec, codec ∈ codecs ps ∧ payloadType codec = pt)
      ∧ (∀ encoding, encoding ∈ encodings ps
                     ↔ encoding ∈ encodings Scenario.parameters
                       ∧ ∃ codec, codec ∈ codecs ps
                                  ∧ payloadType codec = codecPayloadType encoding)
      ∧ (available s' = true ↔ encodings ps ≠ [])
      ∧ (available s' = true → is_Some (rtpStream s'))
      ∧ (rtpParameters ScenarioSend.fresh = None → effs = []).
Proof.
  split; [reflexivity|].
  exact (Send_first ScenarioSend.matches ScenarioSend.new_stream [101]
           Scenario.parameters ScenarioSend.fresh eq_refl).
Defined.

Lemma Send_abort_stale_scenario :
  Send ScenarioSend.matches ScenarioSend.new_stream (Some [96])
    (Some ScenarioSend.renegotiated) (Scenario.sender 10000021)
  = Fault AssertionFailed
  ∧ AssertionFailed = AssertionFailed
  ∧ ∃ encoding,
      head (kept_encodings ScenarioSend.matches [96] ScenarioSend.renegotiated
              (Scenario.sender 10000021))
      = Some encoding
      ∧ codecPayloadType encoding
        ∈ supportedPayloadTypes (Scenario.sender 10000021)
      ∧ ∀ codec,
          codec ∈ kept_codecs ScenarioSend.matches [96] ScenarioSend.renegotiated →
          payloadType codec ≠ codecPayloadType encoding.
Proof.
  assert (Send ScenarioSend.matches ScenarioSend.new_stream (Some [96])
            (Some ScenarioSend.renegotiated) (Scenario.sender 10000021)
          = Fault AssertionFailed) as Hsend by (by vm_compute).
  split; [exact Hsend|].
  exact (Send_abort_stale ScenarioSend.matches ScenarioSend.new_stream [96]
           ScenarioSend.renegotiated (Scenario.sender 10000021) AssertionFailed
           Hsend).
Defined.

Lemma Send_then_SendRtpPacket_scenario :
  ∃ s' effs,
    Send ScenarioSend.matches ScenarioSend.new_stream (Some [101])
      (Some Scenario.parameters) ScenarioSend.fresh
    = Ok (s', effs)
    ∧ ∃ s'' effs',
        SendRtpPacket s' (Scenario.packet 101 12600) = Ok (s'', effs')
        ∧ (effs' = [] ∨ effs' = [TransportSend (Scenario.packet 101 12600)])
        ∧ (effs' ≠ [] →
           GetPayloadType (Scenario.packet 101 12600) ∈ supportedPayloadTypes s').
Proof.
  destruct (Send ScenarioSend.matches ScenarioSend.new_stream (Some [101])
              (Some Scenario.parameters) ScenarioSend.fresh)
    as [[s' effs]|f] eqn:Hsend; [|by vm_compute in Hsend].
  exists s', effs. split; [reflexivity|].
  exact (Send_then_SendRtpPacket ScenarioSend.matches ScenarioSend.new_stream
           _ _ _ s' effs (Scenario.packet 101 12600) Hsend).
Defined.

End RtpSenderFacts.

Module RoomMore.

Import RtpSender Room RoomInvariant RoomFacts.

Section Facts.
Context {S P : Type} `{!Collaborators S, !PeerCollaborators S P, !Iteration}.

Implicit Types (w : World S P) (senders : gset Z) (this : RtpSender S).

Lemma same_but_stream_refl this : same_but_stream this this.
Proof. by destruct this. Qed.

Lemma same_but_stream_trans this this' this'' :
  same_but_stream this this' → same_but_stream this' this'' →
  same_but_stream this this''.
Proof.
  unfold same_but_stream. destruct this, this', this''. cbn.
  intros [= -> -> -> -> -> -> ->] [= -> -> -> -> -> -> ->]. done.
Qed.

Lemma SendRtpPacket_can_send this packet :
  can_send this →
  ∃ this' effs,
    SendRtpPacket this packet = Ok (this', effs)
    ∧ (effs = [] ∨ effs = [TransportSend packet])
    ∧ same_but_stream this this'
    ∧ can_send this'.
Proof.
  unfold can_send, same_but_stream, SendRtpPacket.
  destruct this as [id k li ps tr av sup st].
  cbn [available transport rtpStream supportedPayloadTypes set_rtpStream
       rtpSenderId kind listener rtpParameters].
  intros Hcan.
  destruct av; cbn [negb orb]; [case_bool_decide as Htr|];
    cbn [mret outcome_ret]; [by eexists _, _; repeat split; [left|..]| |
                             by eexists _, _; repeat split; [left|..]].
  destruct (Hcan eq_refl Htr) as [stream ->]. cbn [deref mbind outcome_bind].
  destruct (ReceivePacket packet stream) as [accepted stream'].
  cbn [available transport rtpStream supportedPayloadTypes set_rtpStream
       rtpSenderId kind listener rtpParameters].
  destruct accepted; cbn [negb]; [case_bool_decide|]; cbn [mret outcome_ret];
    eexists _, _; (split; [reflexivity|]); cbn; split; eauto.
Qed.

(** The loop of [onPeerRtpPacket] over senders that are live and can
    send. *)
Lemma send_each_spec packet (l : list Z) :
  ∀ w,
    (∀ s, s ∈ l → ∃ this, rtpSenders w !! s = Some this ∧ can_send this) →
    ∃ w' effs,
      send_each l packet w = Ok (w', effs)
      ∧ room w' = room w
      ∧ Forall (λ e, e = TransportSend packet) effs
      ∧ (length effs ≤ length l)%nat
      ∧ (∀ s, s ∉ l → rtpSenders w' !! s = rtpSenders w !! s)
      ∧ ∀ s this,
          rtpSenders w !! s = Some this →
          ∃ this', rtpSenders w' !! s = Some this'
                   ∧ same_but_stream this this'
                   ∧ (can_send this → can_send this').
Proof.
  induction l as [|s l IH]; intros w Hlive.
  { exists w, []. cbn [send_each]. repeat split; try done.
    intros s this Hthis. exists this. split; [done|].
    split; [apply same_but_stream_refl|done]. }
  destruct (Hlive s) as (this & Hthis & Hcan); [set_solver|].
  destruct (SendRtpPacket_can_send this packet Hcan)
    as (this1 & effs1 & Hsend & Heffs1 & Hsame1 & Hcan1).
  cbn [send_each]. rewrite Hthis. cbn [deref mbind outcome_bind].
  rewrite Hsend. cbn [mbind outcome_bind].
  set (w1 := set_rtpSenders (<[s:=this1]> (rtpSenders w)) w).
  assert (∀ s' this', rtpSenders w !! s' = Some this' →
                      ∃ this1', rtpSenders w1 !! s' = Some this1'
                                ∧ same_but_stream this' this1'
                                ∧ (can_send this' → can_send this1')) as Hstep.
  { intros s' this' Hthis'. unfold w1. cbn [rtpSenders set_rtpSenders].
    destruct (decide (s' = s)) as [->|Hne].
    - rewrite lookup_insert_eq. exists this1. split; [done|].
      rewrite Hthis in Hthis'. injection Hthis' as <-. done.
    - rewrite lookup_insert_ne by done. exists this'. split; [done|].
      split; [apply same_but_stream_refl|done]. }
  destruct (IH w1) as (w' & effs & Hrun & Hroom & Hall & Hlen & Hother & Hkeep).
  { intros s' Hs'. destruct (Hlive s') as (this' & Hthis' & Hcan'); [set_solver|].
    destruct (Hstep s' this' Hthis') as (this1' & ? & _ & ?). eauto. }
  exists w', (effs1 ++ effs). rewrite Hrun. cbn [mbind outcome_bind mret outcome_ret].
  split; [done|]. split; [by rewrite Hroom|]. split; [|split; [|split]].
  - apply Forall_app. split; [|done]. destruct Heffs1 as [->| ->]; by repeat constructor.
  - rewrite length_app. cbn [length]. destruct Heffs1 as [->| ->]; simpl; lia.
  - intros s' Hs'. rewrite Hother by set_solver. unfold w1.
    cbn [rtpSenders set_rtpSenders]. apply lookup_insert_ne. set_solver.
  - intros s' this' Hthis'.
    destruct (Hstep s' this' Hthis') as (this1' & Hthis1' & Hsame & Hcan').
    destruct (Hkeep s' this1' Hthis1') as (this2 & Hthis2 & Hsame2 & Hcan2).
    exists this2. split; [done|].
    split; [by apply same_but_stream_trans with this1'|]. auto.
Qed.

(** X26: [onPeerRtpPacket] asserts that the receiver has an entry in the
    fan-out map.  When it has one whose senders are live and can send, the
    packet is offered to each of them: the room is as before, the
    transports are handed the unmodified packet and nothing else, at most
    once for each sender of the entry; senders outside the entry are
    untouched and the others differ in their streams at most. *)
Theorem onPeerRtpPacket_fans_out w rtpReceiver packet :
  (mapRtpReceiverRtpSenders (room w) !! rtpReceiver = None →
   onPeerRtpPacket rtpReceiver packet w = Fault AssertionFailed)
  ∧ ∀ senders,
      mapRtpReceiverRtpSenders (room w) !! rtpReceiver = Some senders →
      (∀ s, s ∈ senders →
            ∃ this, rtpSenders w !! s = Some this ∧ can_send this) →
      ∃ w' effs,
        onPeerRtpPacket rtpReceiver packet w = Ok (w', effs)
        ∧ room w' = room w
        ∧ Forall (λ e, e = TransportSend packet) effs
        ∧ (length effs ≤ size senders)%nat
        ∧ (∀ s, s ∉ senders → rtpSenders w' !! s = rtpSenders w !! s)
        ∧ ∀ s this,
            rtpSenders w !! s = Some this →
            ∃ this', rtpSenders w' !! s = Some this' ∧ same_but_stream this this'.
Proof.
  unfold onPeerRtpPacket. split; [by intros ->|].
  intros senders -> Hlive. cbn [deref mbind outcome_bind].
  destruct (send_each_spec packet (iterate senders) w)
    as (w' & effs & Hrun & Hroom & Hall & Hlen & Hother & Hkeep).
  { intros s Hs%elem_of_iterate. by apply Hlive. }
  exists w', effs. split; [done|]. split; [done|]. split; [done|].
  split; [|split].
  - by rewrite iterate_Permutation in Hlen.
  - intros s Hs. apply Hother. by rewrite elem_of_iterate.
  - intros s this Hthis. destruct (Hkeep s this Hthis) as (this' & ? & ? & _).
    eauto.
Qed.

(** Closing a live sender. *)
Lemma Close_RtpSender_Ok rtpSender w this :
  rtpSenders w !! rtpSender = Some this →
  Close_RtpSender rtpSender w
  = Ok (set_rtpSenders (delete rtpSender (rtpSenders w))
          (set_room (onPeerRtpSenderClosed rtpSender (room w)) w),
        [Emit (rtpSenderId this) "close" [("class", JStr "RtpSender")]]).
Proof. unfold Close_RtpSender. by intros ->. Qed.

Lemma Close_RtpSender_no_dangling rtpSender w w' effs :
  Close_RtpSender rtpSender w = Ok (w', effs) →
  no_dangling w → no_dangling w'.
Proof.
  destruct (rtpSenders w !! rtpSender) as [this|] eqn:Hthis;
    [|unfold Close_RtpSender; by rewrite Hthis].
  rewrite (Close_RtpSender_Ok _ _ _ Hthis). intros [= <- <-] Hinv.
  intros rtpReceiver senders' s.
  cbn [room rtpSenders set_room set_rtpSenders mapRtpReceiverRtpSenders
       set_map onPeerRtpSenderClosed Peer_onRtpSenderClosed].
  rewrite lookup_fmap.
  destruct (mapRtpReceiverRtpSenders (room w) !! rtpReceiver) as [senders|] eqn:Hentry;
    [|done].
  cbn. intros [= <-] [Hs Hne%not_elem_of_singleton]%elem_of_difference.
  rewrite lookup_delete_ne by done. by apply (Hinv rtpReceiver senders).
Qed.

(** X27: [RtpSender::Close] on a live sender emits its close notification,
    deletes the sender and, through [onPeerRtpSenderClosed], erases it from
    every entry of the fan-out map; the entries themselves stay (possibly
    empty), other senders stay where they are, and no entry is left
    pointing to a closed sender if none was.  Closing a sender that is not
    live is a use after free. *)
Theorem Close_RtpSender_unlinks rtpSender w :
  (rtpSenders w !! rtpSender = None →
   Close_RtpSender rtpSender w = Fault UseAfterFree)
  ∧ ∀ this,
      rtpSenders w !! rtpSender = Some this →
      ∃ w',
        Close_RtpSender rtpSender w
        = Ok (w', [Emit (rtpSenderId this) "close" [("class", JStr "RtpSender")]])
        ∧ rtpSenders w' !! rtpSender = None
        ∧ (∀ s, s ≠ rtpSender → rtpSenders w' !! s = rtpSenders w !! s)
        ∧ (∀ rtpReceiver,
             mapRtpReceiverRtpSenders (room w') !! rtpReceiver
             = (λ senders, senders ∖ {[rtpSender]})
               <$> mapRtpReceiverRtpSenders (room w) !! rtpReceiver)
        ∧ (∀ rtpReceiver senders,
             mapRtpReceiverRtpSenders (room w') !! rtpReceiver = Some senders →
             rtpSender ∉ senders)
        ∧ peers (room w') = peers (room w)
        ∧ (no_dangling w → no_dangling w').
Proof.
  split; [unfold Close_RtpSender; by intros ->|].
  intros this Hthis. eexists. split; [by apply Close_RtpSender_Ok|].
  cbn [room rtpSenders set_room set_rtpSenders mapRtpReceiverRtpSenders
       set_map onPeerRtpSenderClosed Peer_onRtpSenderClosed peers].
  split; [apply lookup_delete_eq|].
  split; [intros s Hs; by apply lookup_delete_ne|].
  split; [intros rtpReceiver; apply lookup_fmap|].
  split.
  - intros rtpReceiver senders. rewrite lookup_fmap.
    destruct (mapRtpReceiverRtpSenders (room w) !! rtpReceiver); [|done].
    cbn. intros [= <-]. set_solver.
  - split; [done|].
    apply (Close_RtpSender_no_dangling rtpSender w _ _ (Close_RtpSender_Ok _ _ _ Hthis)).
Qed.

Lemma close_each_no_dangling (l : list Z) :
  ∀ w w' effs,
    close_each l w = Ok (w', effs) → no_dangling w → no_dangling w'.
Proof.
  induction l as [|s l IH]; intros w w' effs; cbn [close_each].
  { by intros [= <- <-]. }
  intros ([w1 effs1] & Hclose & ([w2 effs2] & Hrest & [= <- <-])%bind_Ok)%bind_Ok Hinv.
  apply (IH w1 w2 effs2 Hrest).
  by apply (Close_RtpSender_no_dangling s w w1 effs1).
Qed.

Lemma close_each_receivers (l : list Z) :
  ∀ w w' effs,
    close_each l w = Ok (w', effs) → receivers_live w → receivers_live w'.
Proof.
  induction l as [|s l IH]; intros w w' effs; cbn [close_each].
  { by intros [= <- <-]. }
  intros ([w1 effs1] & Hclose & ([w2 effs2] & Hrest & [= <- <-])%bind_Ok)%bind_Ok Hinv.
  apply (IH w1 w2 effs2 Hrest).
  revert Hclose. unfold Close_RtpSender.
  intros (this & _ & [= <- <-])%bind_Ok. intros rtpReceiver.
  cbn [room rtpReceivers set_room set_rtpSenders mapRtpReceiverRtpSenders
       set_map onPeerRtpSenderClosed Peer_onRtpSenderClosed].
  rewrite lookup_fmap, fmap_is_Some. apply Hinv.
Qed.

Lemma send_each_live packet (l : list Z) :
  ∀ w w' effs,
    send_each l packet w = Ok (w', effs) →
    room w' = room w
    ∧ rtpReceivers w' = rtpReceivers w
    ∧ ∀ s, is_Some (rtpSenders w !! s) → is_Some (rtpSenders w' !! s).
Proof.
  induction l as [|s l IH]; intros w w' effs; cbn [send_each].
  { by intros [= <- <-]. }
  intros (this & Hthis
          & ([this1 effs1] & Hsend
             & ([w2 effs2] & Hrest & [= <- <-])%bind_Ok)%bind_Ok)%bind_Ok.
  apply IH in Hrest as (Hroom & Hrecv & Hlive). split; [done|]. split; [done|].
  intros s' Hs'. apply Hlive. cbn [rtpSenders set_rtpSenders].
  destruct (decide (s' = s)) as [->|Hne].
  - rewrite lookup_insert_eq. by eexists.
  - by rewrite lookup_insert_ne.
Qed.

Lemma sender_ids_Ok w (l : list Z) :
  (∀ s, s ∈ l → is_Some (rtpSenders w !! s)) →
  ∃ ids, sender_ids w l = Ok ids.
Proof.
  unfold sender_ids. induction l as [|s l IH]; intros Hlive; cbn [mapM].
  { by eexists. }
  destruct (Hlive s) as [this ->]; [set_solver|].
  destruct IH as [ids ->]; [intros s' Hs'; apply Hlive; set_solver|].
  by eexists.
Qed.

(** The loop of [toJson] over the fan-out map dereferences every sender
    and every receiver of the entries: with the senders live, it succeeds
    when the receivers are live and is a use after free when one is
    not. *)
Lemma map_to_json_Ok w (entries : list (Z * gset Z)) :
  (∀ rtpReceiver senders s,
     (rtpReceiver, senders) ∈ entries → s ∈ senders →
     is_Some (rtpSenders w !! s)) →
  (∀ rtpReceiver senders,
     (rtpReceiver, senders) ∈ entries → is_Some (rtpReceivers w !! rtpReceiver)) →
  ∃ m, map_to_json w entries = Ok m.
Proof.
  induction entries as [|[rtpReceiver senders] entries IH]; intros Hlive Hrecv;
    cbn [map_to_json].
  { by eexists. }
  destruct (sender_ids_Ok w (iterate senders)) as [ids ->].
  { intros s Hs%elem_of_iterate. apply (Hlive rtpReceiver senders); set_solver. }
  destruct (Hrecv rtpReceiver senders) as [rtpReceiverId ->]; [set_solver|].
  destruct IH as [m ->].
  { intros r' senders' s Hentry. apply (Hlive r' senders'). set_solver. }
  { intros r' senders' Hentry. apply (Hrecv r' senders'). set_solver. }
  by eexists.
Qed.

Lemma map_to_json_dangling w (entries : list (Z * gset Z)) rtpReceiver senders :
  (∀ rtpReceiver senders s,
     (rtpReceiver, senders) ∈ entries → s ∈ senders →
     is_Some (rtpSenders w !! s)) →
  (rtpReceiver, senders) ∈ entries →
  rtpReceivers w !! rtpReceiver = None →
  map_to_json w entries = Fault UseAfterFree.
Proof.
  induction entries as [|[r' senders'] entries IH]; intros Hlive Hentry Hfree;
    [by apply elem_of_nil in Hentry|].
  cbn [map_to_json].
  destruct (sender_ids_Ok w (iterate senders')) as [ids ->].
  { intros s Hs%elem_of_iterate. apply (Hlive r' senders'); set_solver. }
  cbn [mbind outcome_bind].
  destruct (rtpReceivers w !! r') as [rtpReceiverId|] eqn:Hr'; [|done].
  cbn [deref mbind outcome_bind]. rewrite IH; [done| |set_solver|done].
  intros r'' senders'' s Hentry'. apply (Hlive r'' senders''). set_solver.
Qed.

(** X28: while no entry of the fan-out map points to a closed sender,
    closing a receiver cannot use a freed sender; closing a receiver and
    fanning a packet out leave no entry pointing to a closed sender, and
    the receivers that have an entry live if they were.  [toJson] reads
    the [rtpReceiverId] of every receiver that has an entry: the room can
    be dumped when these receivers are live objects, and the dump is a use
    after free when one of them is not. *)
Theorem no_dangling_safe w :
  no_dangling w →
  (∀ rtpReceiver,
     ∃ w' effs, onPeerRtpReceiverClosed rtpReceiver w = Ok (w', effs)
                ∧ no_dangling w'
                ∧ (receivers_live w → receivers_live w'))
  ∧ (∀ rtpReceiver packet w' effs,
       onPeerRtpPacket rtpReceiver packet w = Ok (w', effs) →
       no_dangling w' ∧ (receivers_live w → receivers_live w'))
  ∧ (receivers_live w →
     ∃ json, toJson w = Ok json
             ∧ ∀ request,
                 methodId request = room_dump →
                 HandleRequest w request = Ok (Some w, Accept (Some json), []))
  ∧ ∀ rtpReceiver request,
      is_Some (mapRtpReceiverRtpSenders (room w) !! rtpReceiver) →
      rtpReceivers w !! rtpReceiver = None →
      toJson w = Fault UseAfterFree
      ∧ (methodId request = room_dump →
         HandleRequest w request = Fault UseAfterFree).
Proof.
  intros Hinv.
  assert (∀ rtpReceiver senders s,
            (rtpReceiver, senders) ∈ map_to_list (mapRtpReceiverRtpSenders (room w)) →
            s ∈ senders → is_Some (rtpSenders w !! s)) as Hlist.
  { intros rtpReceiver senders s Hentry%elem_of_map_to_list Hs.
    by apply (Hinv rtpReceiver senders). }
  split; [|split; [|split]].
  - intros rtpReceiver. unfold onPeerRtpReceiverClosed.
    destruct (mapRtpReceiverRtpSenders (room w) !! rtpReceiver)
      as [senders|] eqn:Hentry; [|by exists w, []].
    destruct (close_each_spec (iterate senders) (iterate_NoDup senders) w)
      as (w1 & Hclose & _).
    { intros s Hs%elem_of_iterate. by apply (Hinv rtpReceiver senders). }
    rewrite Hclose. cbn [mbind outcome_bind mret outcome_ret].
    eexists _, _. split; [reflexivity|]. split.
    + apply close_each_no_dangling in Hclose; [|done].
      intros r' senders' s.
      cbn [room rtpSenders set_room mapRtpReceiverRtpSenders set_map].
      intros [_ Hentry']%lookup_delete_Some. by apply (Hclose r' senders').
    + intros Hrecv. apply close_each_receivers in Hclose; [|done].
      intros r'.
      cbn [room rtpReceivers set_room mapRtpReceiverRtpSenders set_map].
      intros [senders' [_ Hentry']%lookup_delete_Some]. apply Hclose. by eexists.
  - intros rtpReceiver packet w' effs. unfold onPeerRtpPacket.
    intros (senders & _ & (Hroom & Hrecv & Hlive)%send_each_live)%bind_Ok.
    split.
    + intros r' senders' s. rewrite Hroom. intros Hentry Hs.
      by apply Hlive, (Hinv r' senders').
    + intros Hlive' r'. rewrite Hroom, Hrecv. apply Hlive'.
  - intros Hrecv. unfold toJson.
    destruct (map_to_json_Ok w (map_to_list (mapRtpReceiverRtpSenders (room w))))
      as [m Hm]; [done| |].
    { intros rtpReceiver senders Hentry%elem_of_map_to_list.
      apply Hrecv. by eexists. }
    rewrite Hm. eexists. split; [reflexivity|].
    intros request Hdump. unfold HandleRequest, toJson. by rewrite Hdump, Hm.
  - intros rtpReceiver request [senders Hentry] Hfree.
    assert (toJson w = Fault UseAfterFree) as Hjson.
    { unfold toJson.
      rewrite (map_to_json_dangling w _ rtpReceiver senders); [done|done| |done].
      by apply elem_of_map_to_list. }
    split; [done|]. intros Hdump. unfold HandleRequest. by rewrite Hdump, Hjson.
Qed.

(** X29: [room_createPeer] never fails and emits nothing; it leaves the
    senders and the fan-out map alone and every peer of the room in place.
    When it accepts, the request named a peer id that was free and a peer
    name, and the room has the new peer under that id; when it rejects,
    nothing has changed. *)
Theorem createPeer_adds w request :
  methodId request = room_createPeer →
  ∃ w' response,
    HandleRequest w request = Ok (Some w', response, [])
    ∧ rtpSenders w' = rtpSenders w
    ∧ mapRtpReceiverRtpSenders (room w') = mapRtpReceiverRtpSenders (room w)
    ∧ (∀ peerId peer, peers (room w) !! peerId = Some peer →
                      peers (room w') !! peerId = Some peer)
    ∧ match response with
      | Accept _ =>
          ∃ peerId peerName peer,
            json_get "peerId" (internal request) = JNum peerId
            ∧ json_get "peerName" (internal request) = JStr peerName
            ∧ peers (room w) !! peerId = None
            ∧ NewPeer peerId peerName = inr peer
            ∧ peers (room w') = <[peerId := peer]> (peers (room w))
      | Reject _ => w' = w
      end.
Proof.
  intros Hmethod. unfold HandleRequest, GetPeerFromRequest. rewrite Hmethod.
  destruct (json_get "peerId" (internal request)) as [| |peerId| | |] eqn:Hid;
    try (by exists w, (Reject "Request has not numeric .peerId field")).
  case_decide as Hrange;
    [|by exists w, (Reject "Request has not numeric .peerId field")].
  destruct (peers (room w) !! peerId) as [peer|] eqn:Hfree;
    [by exists w, (Reject "Peer already exists")|].
  destruct (json_get "peerName" (internal request)) as [| | |peerName| |] eqn:Hname;
    try (by exists w, (Reject "Request has not string internal.peerName")).
  destruct (NewPeer peerId peerName) as [what|peer] eqn:Hnew;
    [by exists w, (Reject what)|].
  eexists _, (Accept None). split; [reflexivity|].
  cbn [room rtpSenders set_room peers set_peers mapRtpReceiverRtpSenders].
  split; [done|]. split; [done|]. split.
  - intros peerId' peer' Hpeer'. rewrite lookup_insert_ne; [done|].
    intros <-. by rewrite Hfree in Hpeer'.
  - by exists peerId, peerName, peer.
Qed.

End Facts.

Lemma world_no_dangling : no_dangling Scenario.world.
Proof.
  intros rtpReceiver senders s Hentry Hs.
  cbn [Scenario.world room mapRtpReceiverRtpSenders rtpSenders] in Hentry |- *.
  apply lookup_insert_Some in Hentry as [[<- <-]|[_ [<- <-]%lookup_singleton_Some]];
    set_unfold; destruct_or?; subst; by eexists.
Qed.

Lemma no_dangling_safe_scenario :
  no_dangling Scenario.world
  ∧ receivers_live Scenario.world
  ∧ (∀ rtpReceiver,
       ∃ w' effs, onPeerRtpReceiverClosed rtpReceiver Scenario.world = Ok (w', effs)
                  ∧ no_dangling w'
                  ∧ (receivers_live Scenario.world → receivers_live w'))
  ∧ (∀ rtpReceiver packet w' effs,
       onPeerRtpPacket rtpReceiver packet Scenario.world = Ok (w', effs) →
       no_dangling w' ∧ (receivers_live Scenario.world → receivers_live w'))
  ∧ ∃ json,
      toJson Scenario.world = Ok json
      ∧ ∀ request,
          methodId request = room_dump →
          HandleRequest Scenario.world request
          = Ok (Some Scenario.world, Accept (Some json), []).
Proof.
  assert (receivers_live Scenario.world) as Hrecv.
  { intros rtpReceiver [senders Hentry].
    cbn [Scenario.world room mapRtpReceiverRtpSenders rtpReceivers] in Hentry |- *.
    apply lookup_insert_Some in Hentry as [[<- <-]|[_ [<- <-]%lookup_singleton_Some]];
      by eexists. }
  split; [exact world_no_dangling|]. split; [exact Hrecv|].
  destruct (no_dangling_safe Scenario.world world_no_dangling)
    as (Hclose & Hpacket & Hdump & _).
  split; [exact Hclose|]. split; [exact Hpacket|]. exact (Hdump Hrecv).
Defined.

Lemma createPeer_adds_scenario :
  methodId ScenarioRoom.create_carol = room_createPeer
  ∧ ∃ w' response,
      HandleRequest Scenario.world ScenarioRoom.create_carol
      = Ok (Some w', response, [])
      ∧ rtpSenders w' = rtpSenders Scenario.world
      ∧ mapRtpReceiverRtpSenders (room w')
        = mapRtpReceiverRtpSenders (room Scenario.world)
      ∧ (∀ peerId peer, peers (room Scenario.world) !! peerId = Some peer →
                        peers (room w') !! peerId = Some peer)
      ∧ match response with
        | Accept _ =>
            ∃ peerId peerName peer,
              json_get "peerId" (internal ScenarioRoom.create_carol) = JNum peerId
              ∧ json_get "peerName" (internal ScenarioRoom.create_carol)
                = JStr peerName
              ∧ peers (room Scenario.world) !! peerId = None
              ∧ NewPeer peerId peerName = inr peer
              ∧ peers (room w') = <[peerId := peer]> (peers (room Scenario.world))
        | Reject _ => w' = Scenario.world
        end.
Proof.
  split; [reflexivity|].
  exact (createPeer_adds Scenario.world ScenarioRoom.create_carol eq_refl).
Defined.

End RoomMore.

Module RtpSenderNackFacts.

Import RtpSender RtpSenderNack RoomInvariant RoomMore.

Section Facts.
Context {S : Type} `{!Collaborators S, !Retransmission S, !Iteration}.

Implicit Types (s : RtpSender S) (packet : RtpPacket).

Lemma retransmitted_refl s : is_Some (rtpStream s) → retransmitted s s [].
Proof.
  intros Hstream. split; [apply same_but_stream_refl|]. by repeat split.
Qed.

Lemma same_but_stream_fields s s' :
  same_but_stream s s' →
  available s' = available s ∧ transport s' = transport s
  ∧ supportedPayloadTypes s' = supportedPayloadTypes s.
Proof.
  unfold same_but_stream. destruct s, s'. cbn.
  by intros [= -> -> -> -> -> -> ->].
Qed.

Lemma retransmitted_trans s s1 s2 effs1 effs2 :
  retransmitted s s1 effs1 → retransmitted s1 s2 effs2 →
  retransmitted s s2 (effs1 ++ effs2).
Proof.
  intros (Hsame1 & _ & Hall1 & Hidle1) (Hsame2 & Hstream & Hall2 & Hidle2).
  destruct (same_but_stream_fields _ _ Hsame1) as (Hav & Htr & Hsup).
  rewrite Hav, Htr, Hsup in *.
  split; [by apply same_but_stream_trans with s1|]. split; [done|].
  split; [by apply Forall_app|].
  intros Hidle. by rewrite Hidle1, Hidle2.
Qed.

Lemma set_rtpStream_retransmitted s stream :
  retransmitted s (set_rtpStream (Some stream) s) [].
Proof.
  split; [by destruct s|]. split; [by eexists|]. by split.
Qed.

Lemma RetransmitRtpPacket_spec packet s :
  is_Some (rtpStream s) →
  ∃ s' effs,
    RetransmitRtpPacket packet s = Ok (s', effs) ∧ retransmitted s s' effs.
Proof.
  intros [stream Hstream]. unfold RetransmitRtpPacket, SendRtpPacket.
  destruct (negb (available s) || bool_decide (transport s = None)) eqn:Hidle.
  { exists s, []. split; [done|]. apply retransmitted_refl. by eexists. }
  apply orb_false_iff in Hidle as [Hav%negb_false_iff Htr%bool_decide_eq_false].
  rewrite Hstream. cbn [deref mbind outcome_bind].
  destruct (ReceivePacket packet stream) as [accepted stream'].
  destruct accepted; cbn [negb];
    [case_bool_decide as Hpt; cbn [supportedPayloadTypes set_rtpStream] in Hpt|];
    eexists _, _; (split; [reflexivity|]);
    try apply set_rtpStream_retransmitted.
  split; [by destruct s|]. split; [by eexists|]. split.
  - repeat constructor. eexists. split; [done|].
    by destruct (decide (GetPayloadType packet ∈ supportedPayloadTypes s)).
  - intros [Hidle|Hidle]; congruence.
Qed.

Lemma retransmit_container_spec (container : list (option RtpPacket)) :
  ∀ s, is_Some (rtpStream s) →
       ∃ s' effs,
         retransmit_container container s = Ok (s', effs)
         ∧ retransmitted s s' effs.
Proof.
  induction container as [|[packet|] rest IH]; intros s Hstream;
    cbn [retransmit_container];
    try (exists s, []; split; [done|]; by apply retransmitted_refl).
  destruct (RetransmitRtpPacket_spec packet s Hstream) as (s1 & effs1 & -> & H1).
  cbn [mbind outcome_bind].
  destruct (IH s1) as (s2 & effs2 & -> & H2); [apply H1|].
  exists s2, (effs1 ++ effs2). split; [done|].
  by apply retransmitted_trans with s1.
Qed.

Lemma nack_items_spec (items : list (Z * Z)) :
  ∀ s, is_Some (rtpStream s) →
       ∃ s' effs, nack_items items s = Ok (s', effs) ∧ retransmitted s s' effs.
Proof.
  induction items as [|[packetId lostPacketBitmask] rest IH]; intros s Hstream;
    cbn [nack_items].
  { exists s, []. split; [done|]. by apply retransmitted_refl. }
  destruct Hstream as [stream Hstream]. rewrite Hstream.
  cbn [deref mbind outcome_bind].
  destruct (RequestRtpRetransmission packetId lostPacketBitmask stream)
    as [container stream1].
  pose proof (set_rtpStream_retransmitted s stream1) as H0.
  destruct (retransmit_container_spec container (set_rtpStream (Some stream1) s))
    as (s1 & effs1 & -> & H1); [apply H0|].
  cbn [mbind outcome_bind].
  destruct (IH s1) as (s2 & effs2 & -> & H2); [apply H1|].
  exists s2, (effs1 ++ effs2). split; [done|].
  apply (retransmitted_trans _ _ _ [] _ H0).
  by apply retransmitted_trans with s1.
Qed.

(** X30: [RtpSender::ReceiveNack] always returns.  It does nothing on a
    sender without a stream; otherwise nothing of the sender but its
    stream changes, everything it does to the outside is handing packets
    of supported payload types to the transport, and it hands over none
    when the sender is not available or has no transport. *)
Theorem ReceiveNack_sender (items : list (Z * Z)) s :
  ∃ s' effs,
    ReceiveNack items s = Ok (s', effs)
    ∧ (rtpStream s = None → s' = s ∧ effs = [])
    ∧ same_but_stream s s'
    ∧ Forall (λ e, ∃ q, e = TransportSend q
                        ∧ GetPayloadType q ∈ supportedPayloadTypes s) effs
    ∧ (available s = false ∨ transport s = None → effs = []).
Proof.
  unfold ReceiveNack. destruct (rtpStream s) as [stream|] eqn:Hstream.
  - destruct (nack_items_spec items s) as (s' & effs & Hrun & Hsame & _ & Hall & Hidle).
    { by eexists. }
    exists s', effs. by repeat split.
  - exists s, []. split; [done|]. split; [done|].
    split; [apply same_but_stream_refl|]. by split.
Qed.

End Facts.

End RtpSenderNackFacts.
